(** * Animation transfer tool: a shallow embedding of [transfer_animation.py]

    The tool has three layers, modelled in three modules:
    - [Job]: the Python program that runs inside the 3D host (the text
      returned by [create_blender_script]): safety monitor, bone mapping,
      per-frame keyframe copy; [Setup] holds the first half of its [main],
      which chooses the rigs and the action;
    - [Supervisor]: [create_blender_script] itself and
      [process_single_transfer], which launches the host and polls it;
    - [Batch]: the loop of the command-line [main] over the source files.

    Python floats that only carry time and memory readings are modelled by
    rationals ([Q]); bone channel values are kept abstract ([HostFloat]),
    since the host owns their arithmetic. *)

From Stdlib Require Import ZArith QArith Lqa Ascii String.
From stdpp Require Import base list strings gmap pretty.

Set Default Proof Using "Type".

(** ** Python values shared by the three layers *)

(** An insertion-ordered dictionary with string keys: assigning to a key
    that is present replaces the value in place, a new key goes last. *)
Module PyDict.

Definition dict (V : Type) : Type := list (string * V).

Fixpoint setitem {V} (k : string) (v : V) (d : dict V) : dict V :=
  match d with
  | [] => [(k, v)]
  | (k', v') :: rest =>
      if bool_decide (k' = k) then (k', v) :: rest
      else (k', v') :: setitem k v rest
  end.

Definition keys {V} (d : dict V) : list string := d.*1.
Definition values {V} (d : dict V) : list V := d.*2.
Definition items {V} (d : dict V) : list (string * V) := d.
Definition len {V} (d : dict V) : Z := Z.of_nat (length d).

End PyDict.

(** [a > b] on Python numbers. *)
Definition Qgtb (a b : Q) : bool := if Qlt_le_dec b a then true else false.

(** [int(x)] on a float: truncation toward zero. *)
Definition int_of_float (x : Q) : Z := Z.quot (Qnum x) (Zpos (Qden x)).

(** [range(a, b)]. *)
Definition py_range (a b : Z) : list Z := seqZ a (b - a).

(** A state monad with Python's two non-local exits: a raised
    [RuntimeError] and an early [return] from the enclosing function. *)
Inductive res (E A : Type) : Type :=
  | Val (a : A)
  | Raise (e : E)
  | Return (b : bool).
Arguments Val {E A} a.
Arguments Raise {E A} e.
Arguments Return {E A} b.

Definition M (S E A : Type) : Type := S → res E A * S.

#[export] Instance M_ret {S E} : MRet (M S E) := λ A a s, (Val a, s).

#[export] Instance M_bind {S E} : MBind (M S E) := λ A B f m s,
  match m s with
  | (Val a, s') => f a s'
  | (Raise e, s') => (Raise e, s')
  | (Return b, s') => (Return b, s')
  end.

Definition raise {S E A} (e : E) : M S E A := λ s, (Raise e, s).
Definition return_ {S E A} (b : bool) : M S E A := λ s, (Return b, s).
Definition when {S E} (c : bool) (m : M S E unit) : M S E unit :=
  if c then m else mret tt.

(** ** The job that runs inside the host *)

(** Arithmetic on bone channel values is the host's. *)
Class HostFloat (F : Type) := { fmul : F → F → F }.

Module Job.

Record Vector {F : Type} := mkVector { vx : F; vy : F; vz : F }.
Record Quaternion {F : Type} := mkQuaternion { qw : F; qx : F; qy : F; qz : F }.
Arguments Vector F : clear implicits.
Arguments Quaternion F : clear implicits.

(** The three animated properties of a pose bone. *)
Record PoseBone {F : Type} := mkPoseBone {
  location : Vector F;
  rotation_quaternion : Quaternion F;
  scale : Vector F
}.
Arguments PoseBone F : clear implicits.

(** [v *= k] on a vector. *)
Definition vector_imul {F} `{HostFloat F} (v : Vector F) (k : F) : Vector F :=
  {| vx := fmul (vx v) k; vy := fmul (vy v) k; vz := fmul (vz v) k |}.

Inductive data_path := Location | RotationQuaternion | Scale.

Inductive channel_value {F : Type} :=
  | VVector (v : Vector F)
  | VQuaternion (q : Quaternion F).
Arguments channel_value F : clear implicits.

(** One call of [keyframe_insert] on a bone of the target rig. *)
Record keyframe {F : Type} := mkKeyframe {
  kf_bone : string;
  kf_path : data_path;
  kf_frame : Z;
  kf_value : channel_value F
}.
Arguments keyframe F : clear implicits.

Inductive interaction_mode := OBJECT | POSE.

Inductive RuntimeError :=
  | TimedOut (elapsed : Q)
  | MemoryUsageExceeded (max_mb : Z) (memory_mb : Q)
  | AppearsStuck.

(** The lines the job prints, one constructor per [print]. *)
Inductive line :=
  | ProcessedFrame (current_frame total : Z)
  | CreatingBoneMapping
  | WarningLargeNumberOfBones (source target : Z)
  | ErrorTooManyBones
  | BoneMappingCreated (mapped : Z)
  | CopyingAndScaling
  | WarningLargeFrameRange (frame_count : Z)
  | ErrorFrameRangeTooLarge
  | ProcessingFrames (start_frame end_frame frame_count : Z)
  | OriginalSceneRange (original_start original_end : Z)
  | ExtendedSceneRange (start_frame end_frame : Z)
  | TotalOperations (total_operations : Z)
  | Progress (progress_pct : Q) (frame end_frame : Z)
  | Copied (keyframes_copied : Z)
  | SetTargetActionFrameRange (start_frame end_frame : Z)
  | CleaningUp
  | CompletedSuccessfully
  | NewActionCreated
  | TotalProcessingTime (seconds : Q)
  | ResultSuccess
  | SafetyError (e : RuntimeError)
  | ResultFailed.

Record SafetyMonitor := mkSafetyMonitor {
  start_time : Q;
  last_progress : Q;
  frame_count : Z;
  bone_count : Z
}.

(** What the job reads from outside itself: the clock at the n-th call of
    [time.time()], the resident set size in bytes at the n-th memory probe
    ([None] when [psutil] cannot be imported), and the pose of a source
    bone once the scene is set to a frame. *)
Record world {F : Type} := mkWorld {
  clock : nat → Q;
  rss : nat → option Z;
  source_pose : string → Z → PoseBone F
}.
Arguments world F : clear implicits.

(** The safety constants and the two values formatted into [main]. *)
Record config {F : Type} := mkConfig {
  MAX_FRAME_RANGE : Z;
  MAX_BONES : Z;
  MAX_MEMORY_MB : Z;
  scale_factor : F
}.
Arguments config F : clear implicits.

(** What the first half of [main] (lines 92-180) has resolved: the source
    rig's pose bones, the frame range its action reports, and the objects
    imported from the source file. *)
Record rigs := mkRigs {
  source_bone_names : list string;
  source_frame_range : option (Q * Q);
  imported_objects : list string
}.

(** The host's scene as far as the job touches it. *)
Record host {F : Type} := mkHost {
  frame_current : Z;
  frame_start : Z;
  frame_end : Z;
  mode : interaction_mode;
  target_pose_bones : list (string * PoseBone F);
  keyframes : list (keyframe F);
  target_action_frame_range : option (Z * Z);
  data_objects : list string
}.
Arguments host F : clear implicits.

Record job {F : Type} := mkJob {
  ticks : nat;
  probes : nat;
  monitor : SafetyMonitor;
  stdout : list line;
  gc_runs : nat;
  keyframes_copied : Z;
  scene : host F
}.
Arguments job F : clear implicits.

Section Model.
Context {F : Type} `{HostFloat F}.
Context (w : world F) (cfg : config F) (r : rigs).

Definition Run (A : Type) : Type := M (job F) RuntimeError A.

(** *** Primitive effects *)

Definition time_time : Run Q := λ s,
  (Val (clock w (ticks s)),
   mkJob F (S (ticks s)) (probes s) (monitor s) (stdout s) (gc_runs s)
     (keyframes_copied s) (scene s)).

Definition memory_probe : Run (option Z) := λ s,
  (Val (rss w (probes s)),
   mkJob F (ticks s) (S (probes s)) (monitor s) (stdout s) (gc_runs s)
     (keyframes_copied s) (scene s)).

Definition get_monitor : Run SafetyMonitor := λ s, (Val (monitor s), s).

Definition set_monitor (m : SafetyMonitor) : Run unit := λ s,
  (Val tt,
   mkJob F (ticks s) (probes s) m (stdout s) (gc_runs s)
     (keyframes_copied s) (scene s)).

Definition print (l : line) : Run unit := λ s,
  (Val tt,
   mkJob F (ticks s) (probes s) (monitor s) (stdout s ++ [l]) (gc_runs s)
     (keyframes_copied s) (scene s)).

Definition gc_collect : Run unit := λ s,
  (Val tt,
   mkJob F (ticks s) (probes s) (monitor s) (stdout s) (S (gc_runs s))
     (keyframes_copied s) (scene s)).

Definition get_keyframes_copied : Run Z := λ s, (Val (keyframes_copied s), s).

Definition set_keyframes_copied (n : Z) : Run unit := λ s,
  (Val tt,
   mkJob F (ticks s) (probes s) (monitor s) (stdout s) (gc_runs s) n (scene s)).

Definition get_scene : Run (host F) := λ s, (Val (scene s), s).

Definition set_scene (h : host F) : Run unit := λ s,
  (Val tt,
   mkJob F (ticks s) (probes s) (monitor s) (stdout s) (gc_runs s)
     (keyframes_copied s) h).

(** *** SafetyMonitor *)

Definition check_timeout (max_seconds : Q) : Run unit :=
  now ← time_time;
  m ← get_monitor;
  let elapsed := (now - start_time m)%Q in
  if Qgtb elapsed max_seconds then raise (TimedOut elapsed) else mret tt.

Definition check_memory (max_mb : Z) : Run unit :=
  probe ← memory_probe;
  match probe with
  | None => mret tt
  | Some bytes =>
      let memory_mb := (inject_Z bytes / 1024 / 1024)%Q in
      if Qgtb memory_mb (inject_Z max_mb)
      then raise (MemoryUsageExceeded max_mb memory_mb)
      else mret tt
  end.

Definition PROGRESS_INTERVAL : Z := 100.

Definition check_progress (current_frame : option Z) : Run unit :=
  now ← time_time;
  m ← get_monitor;
  if Qgtb (now - last_progress m)%Q 30 then raise AppearsStuck
  else
    match current_frame with
    | None => mret tt
    | Some frame =>
        let n := (frame_count m + 1)%Z in
        set_monitor (mkSafetyMonitor (start_time m) (last_progress m) n (bone_count m));;
        when (bool_decide (n `mod` PROGRESS_INTERVAL = 0)%Z)
          (print (ProcessedFrame frame n);;
           set_monitor (mkSafetyMonitor (start_time m) now n (bone_count m));;
           gc_collect)
    end.

Definition update_progress : Run unit :=
  now ← time_time;
  m ← get_monitor;
  set_monitor (mkSafetyMonitor (start_time m) now (frame_count m) (bone_count m)).

(** *** Host operations used by the second half of [main] *)

Definition bone_names (bones : list (string * PoseBone F)) : list string :=
  bones.*1.

Fixpoint find_bone (name : string) (bones : list (string * PoseBone F))
  : option (PoseBone F) :=
  match bones with
  | [] => None
  | (n, b) :: rest => if bool_decide (n = name) then Some b else find_bone name rest
  end.

Fixpoint assign_bone (name : string) (f : PoseBone F → PoseBone F)
    (bones : list (string * PoseBone F)) : list (string * PoseBone F) :=
  match bones with
  | [] => []
  | (n, b) :: rest =>
      if bool_decide (n = name) then (n, f b) :: rest
      else (n, b) :: assign_bone name f rest
  end.

Definition set_location (v : Vector F) (b : PoseBone F) : PoseBone F :=
  mkPoseBone F v (rotation_quaternion b) (scale b).
Definition set_rotation_quaternion (q : Quaternion F) (b : PoseBone F) : PoseBone F :=
  mkPoseBone F (location b) q (scale b).
Definition set_scale (v : Vector F) (b : PoseBone F) : PoseBone F :=
  mkPoseBone F (location b) (rotation_quaternion b) v.

(** [target_bone.<path> = ...]. *)
Definition assign_target (name : string) (f : PoseBone F → PoseBone F) : Run unit :=
  h ← get_scene;
  set_scene (mkHost F (frame_current h) (frame_start h) (frame_end h) (mode h)
               (assign_bone name f (target_pose_bones h)) (keyframes h)
               (target_action_frame_range h) (data_objects h)).

Definition read_path (p : data_path) (b : PoseBone F) : channel_value F :=
  match p with
  | Location => VVector (location b)
  | RotationQuaternion => VQuaternion (rotation_quaternion b)
  | Scale => VVector (scale b)
  end.

(** [target_bone.keyframe_insert(data_path=p, frame=frame)]: the value keyed
    is the one the bone holds at the time of the call. *)
Definition keyframe_insert (name : string) (p : data_path) (frame : Z) : Run unit :=
  h ← get_scene;
  match find_bone name (target_pose_bones h) with
  | None => mret tt
  | Some b =>
      set_scene (mkHost F (frame_current h) (frame_start h) (frame_end h) (mode h)
                   (target_pose_bones h)
                   (keyframes h ++ [mkKeyframe F name p frame (read_path p b)])
                   (target_action_frame_range h) (data_objects h))
  end.

Definition frame_set (frame : Z) : Run unit :=
  h ← get_scene;
  set_scene (mkHost F frame (frame_start h) (frame_end h) (mode h)
               (target_pose_bones h) (keyframes h)
               (target_action_frame_range h) (data_objects h)).

Definition set_scene_range (start_frame end_frame : Z) : Run unit :=
  h ← get_scene;
  set_scene (mkHost F (frame_current h) start_frame end_frame (mode h)
               (target_pose_bones h) (keyframes h)
               (target_action_frame_range h) (data_objects h)).

Definition set_action_frame_range (start_frame end_frame : Z) : Run unit :=
  h ← get_scene;
  set_scene (mkHost F (frame_current h) (frame_start h) (frame_end h) (mode h)
               (target_pose_bones h) (keyframes h)
               (Some (start_frame, end_frame)) (data_objects h)).

Definition mode_set (m : interaction_mode) : Run unit :=
  h ← get_scene;
  set_scene (mkHost F (frame_current h) (frame_start h) (frame_end h) m
               (target_pose_bones h) (keyframes h)
               (target_action_frame_range h) (data_objects h)).

Definition remove_object (name : string) : Run unit :=
  h ← get_scene;
  set_scene (mkHost F (frame_current h) (frame_start h) (frame_end h) (mode h)
               (target_pose_bones h) (keyframes h)
               (target_action_frame_range h)
               (filter (λ n, n ≠ name) (data_objects h))).

(** The source bone as the host evaluates it at the current frame. *)
Definition source_bone (name : string) : Run (option (PoseBone F)) :=
  h ← get_scene;
  mret (if bool_decide (name ∈ source_bone_names r)
        then Some (source_pose w name (frame_current h)) else None).

(** *** The second half of [main]: mapping, limits, copy loop, cleanup *)

(** Lines 191-195. *)
Definition check_bone_counts (source_names target_names : list string) : Run unit :=
  let ns := Z.of_nat (length source_names) in
  let nt := Z.of_nat (length target_names) in
  when (bool_decide (ns > MAX_BONES cfg)%Z || bool_decide (nt > MAX_BONES cfg)%Z)
    (print (WarningLargeNumberOfBones ns nt);;
     if bool_decide (ns > MAX_BONES cfg * 2)%Z || bool_decide (nt > MAX_BONES cfg * 2)%Z
     then print ErrorTooManyBones;; return_ false
     else mret tt).

(** Lines 197-200. *)
Fixpoint build_bone_mapping (target_names : list string) (source_names : list string)
    (bone_mapping : PyDict.dict string) : Run (PyDict.dict string) :=
  match source_names with
  | [] => mret bone_mapping
  | source_bone_name :: rest =>
      check_timeout 300;;
      build_bone_mapping target_names rest
        (if bool_decide (source_bone_name ∈ target_names)
         then PyDict.setitem source_bone_name source_bone_name bone_mapping
         else bone_mapping)
  end.

(** Lines 209-214. *)
Definition resolve_frame_range : Run (Z * Z) :=
  match source_frame_range r with
  | Some (first, last) => mret (int_of_float first, int_of_float last)
  | None => h ← get_scene; mret (frame_start h, frame_end h)
  end.

(** Lines 216-221. *)
Definition check_frame_count (frame_count : Z) : Run unit :=
  when (bool_decide (frame_count > MAX_FRAME_RANGE cfg)%Z)
    (print (WarningLargeFrameRange frame_count);;
     if bool_decide (frame_count > MAX_FRAME_RANGE cfg * 2)%Z
     then print ErrorFrameRangeTooLarge;; return_ false
     else mret tt).

(** Lines 258-278: the guarded body of the bone loop. *)
Definition transfer_bone (frame : Z) (source_bone_name target_bone_name : string)
  : Run unit :=
  h ← get_scene;
  sb ← source_bone source_bone_name;
  match find_bone target_bone_name (target_pose_bones h), sb with
  | Some _, Some source =>
      let scaled_location := vector_imul (location source) (scale_factor cfg) in
      assign_target target_bone_name (set_location scaled_location);;
      keyframe_insert target_bone_name Location frame;;
      assign_target target_bone_name
        (set_rotation_quaternion (rotation_quaternion source));;
      keyframe_insert target_bone_name RotationQuaternion frame;;
      assign_target target_bone_name (set_scale (scale source));;
      keyframe_insert target_bone_name Scale frame;;
      n ← get_keyframes_copied;
      set_keyframes_copied (n + 1)
  | _, _ => mret tt
  end.

(** Lines 254-278. *)
Fixpoint bone_loop (frame : Z) (bone_idx : Z) (pairs : list (string * string))
  : Run unit :=
  match pairs with
  | [] => mret tt
  | (source_bone_name, target_bone_name) :: rest =>
      when (bool_decide (bone_idx `mod` 50 = 0)%Z) (check_timeout 600);;
      transfer_bone frame source_bone_name target_bone_name;;
      bone_loop frame (bone_idx + 1) rest
  end.

(** Lines 243-281. *)
Fixpoint frame_loop (bone_mapping : PyDict.dict string) (frame_count end_frame : Z)
    (frame_idx : Z) (frames : list Z) : Run unit :=
  match frames with
  | [] => mret tt
  | frame :: rest =>
      check_timeout 600;;
      check_progress (Some frame);;
      when (bool_decide (frame_idx `mod` 100 = 0)%Z)
        (check_memory (MAX_MEMORY_MB cfg);;
         print (Progress (inject_Z frame_idx / inject_Z frame_count * 100)%Q
                  frame end_frame));;
      frame_set frame;;
      bone_loop frame 0 (PyDict.items bone_mapping);;
      when (bool_decide (frame_idx `mod` 500 = 0)%Z) gc_collect;;
      frame_loop bone_mapping frame_count end_frame (frame_idx + 1) rest
  end.

(** Lines 295-297. *)
Fixpoint remove_imported (objs : list string) : Run unit :=
  match objs with
  | [] => mret tt
  | obj :: rest => check_timeout 300;; remove_object obj;; remove_imported rest
  end.

(** Lines 237-287: the copy loop with its counters and the range written
    onto the new action. *)
Definition copy_keyframes (bone_mapping : PyDict.dict string)
    (start_frame end_frame : Z) : Run unit :=
  let frame_count := (end_frame - start_frame + 1)%Z in
  set_keyframes_copied 0;;
  let bones_per_frame := PyDict.len bone_mapping in
  let total_operations := (frame_count * bones_per_frame)%Z in
  print (TotalOperations total_operations);;
  frame_loop bone_mapping frame_count end_frame 0
    (py_range start_frame (end_frame + 1));;
  n ← get_keyframes_copied;
  print (Copied n);;
  set_action_frame_range start_frame end_frame;;
  print (SetTargetActionFrameRange start_frame end_frame).

(** Lines 182-303 of the [try] block. *)
Definition transfer : Run bool :=
  print CreatingBoneMapping;;
  check_timeout 300;;
  check_memory (MAX_MEMORY_MB cfg);;
  h ← get_scene;
  let source_names := source_bone_names r in
  let target_names := bone_names (target_pose_bones h) in
  check_bone_counts source_names target_names;;
  bone_mapping ← build_bone_mapping target_names source_names [];
  print (BoneMappingCreated (PyDict.len bone_mapping));;
  print CopyingAndScaling;;
  check_timeout 300;;
  check_memory (MAX_MEMORY_MB cfg);;
  range ← resolve_frame_range;
  let start_frame := range.1 in
  let end_frame := range.2 in
  let frame_count := (end_frame - start_frame + 1)%Z in
  check_frame_count frame_count;;
  print (ProcessingFrames start_frame end_frame frame_count);;
  h ← get_scene;
  print (OriginalSceneRange (frame_start h) (frame_end h));;
  set_scene_range start_frame end_frame;;
  print (ExtendedSceneRange start_frame end_frame);;
  copy_keyframes bone_mapping start_frame end_frame;;
  print CleaningUp;;
  check_timeout 300;;
  mode_set OBJECT;;
  remove_imported (imported_objects r);;
  print CompletedSuccessfully;;
  print NewActionCreated;;
  now ← time_time;
  m ← get_monitor;
  print (TotalProcessingTime (now - start_time m)%Q);;
  print ResultSuccess;;
  mret true.

(** The [except RuntimeError] and [finally] clauses around it: what [main]
    returns, and the state it leaves. *)
Definition main_from_mapping (s : job F) : bool * job F :=
  match transfer s with
  | (Val b, s') | (Return b, s') => (b, (mode_set OBJECT s').2)
  | (Raise e, s') =>
      (false, (mode_set OBJECT (print ResultFailed (print (SafetyError e) s').2).2).2)
  end.

(** The process exit code of the job ([sys.exit(0)] after saving, or 1). *)
Definition exit_code (success : bool) : Z := if success then 0 else 1.

(** *** What the copy loop is expected to leave behind *)

(** The bone mapping without the monitor calls of the loop that builds it. *)
Fixpoint mapping_of (target_names source_names : list string)
    (bone_mapping : PyDict.dict string) : PyDict.dict string :=
  match source_names with
  | [] => bone_mapping
  | source_bone_name :: rest =>
      mapping_of target_names rest
        (if bool_decide (source_bone_name ∈ target_names)
         then PyDict.setitem source_bone_name source_bone_name bone_mapping
         else bone_mapping)
  end.

(** The three keyframes of one transfer: location scaled, rotation and
    scale as the source has them at that frame. *)
Definition bone_keyframes (frame : Z) (pair : string * string) : list (keyframe F) :=
  let source := source_pose w pair.1 frame in
  [ mkKeyframe F pair.2 Location frame
      (VVector (vector_imul (location source) (scale_factor cfg)));
    mkKeyframe F pair.2 RotationQuaternion frame
      (VQuaternion (rotation_quaternion source));
    mkKeyframe F pair.2 Scale frame (VVector (scale source)) ].

Definition transfers (frames : list Z) (pairs : list (string * string))
  : list (keyframe F) :=
  flat_map (λ frame, flat_map (bone_keyframes frame) pairs) frames.

(** A run in which no monitor check can fire: every clock reading is
    within the short limit of the start and within the stall limit of the
    last progress stamp and of every other reading, and every memory
    reading is within the limit. *)
Definition calm (s : job F) : Prop :=
  (∀ i, clock w i - start_time (monitor s) <= 300)%Q ∧
  (∀ i, clock w i - last_progress (monitor s) <= 30)%Q ∧
  (∀ i j, clock w i - clock w j <= 30)%Q ∧
  (∀ i bytes, rss w i = Some bytes →
     inject_Z bytes / 1024 / 1024 <= inject_Z (MAX_MEMORY_MB cfg))%Q.

(** A step that only consults the monitor: it leaves the scene and the
    counter of copied keyframes alone and keeps the run calm. *)
Definition monitor_step (s s' : job F) : Prop :=
  calm s' ∧ scene s' = scene s ∧ keyframes_copied s' = keyframes_copied s.

(** A pair the guard of the bone loop lets through. *)
Definition mappable (s : job F) (p : string * string) : Prop :=
  p.1 ∈ source_bone_names r ∧ p.2 ∈ bone_names (target_pose_bones (scene s)).

(** A step that leaves alone what the copy loop produces. *)
Definition kept (s s' : job F) : Prop :=
  keyframes (scene s') = keyframes (scene s)
  ∧ keyframes_copied s' = keyframes_copied s
  ∧ target_action_frame_range (scene s') = target_action_frame_range (scene s)
  ∧ target_pose_bones (scene s') = target_pose_bones (scene s).

Definition keeps_copy (s s' : job F) : Prop := calm s' ∧ kept s s'.

(** A computation that, when it ends normally, has touched neither the
    scene nor the counter of copied keyframes. *)
Definition silent {A} (m : Run A) : Prop :=
  ∀ s a s', m s = (Val a, s') →
    scene s' = scene s ∧ keyframes_copied s' = keyframes_copied s.

End Model.
End Job.

(** ** The supervisor: job script builder and host process control *)

Module OsPath.

(** POSIX [os.path]. A path is split at its last separator. *)
Definition sep : ascii := "/"%char.
Definition extsep : ascii := "."%char.

(** [(p[:i], p[i:])] for [i = p.rfind('/') + 1]. *)
Fixpoint split_at_last_sep (p : list ascii) : list ascii * list ascii :=
  match p with
  | [] => ([], [])
  | c :: rest =>
      let (head, tail) := split_at_last_sep rest in
      match head with
      | _ :: _ => (c :: head, tail)
      | [] => if bool_decide (c = sep) then ([c], tail) else ([], c :: tail)
      end
  end.

Fixpoint lstrip (c : ascii) (l : list ascii) : list ascii :=
  match l with
  | [] => []
  | x :: rest => if bool_decide (x = c) then lstrip c rest else l
  end.

Definition rstrip (c : ascii) (l : list ascii) : list ascii :=
  reverse (lstrip c (reverse l)).

Definition dirname (p : string) : string :=
  let head := (split_at_last_sep (list_ascii_of_string p)).1 in
  string_of_list_ascii
    (match lstrip sep head with
     | [] => head
     | _ :: _ => rstrip sep head
     end).

Definition basename (p : string) : string :=
  string_of_list_ascii (split_at_last_sep (list_ascii_of_string p)).2.

(** [(p[:i], p[i:])] for [i = p.rfind('.')], when there is a dot. *)
Fixpoint split_at_last_dot (p : list ascii) : option (list ascii * list ascii) :=
  match p with
  | [] => None
  | c :: rest =>
      match split_at_last_dot rest with
      | Some (root, ext) => Some (c :: root, ext)
      | None => if bool_decide (c = extsep) then Some ([], p) else None
      end
  end.

(** [splitext] on a name without separators: leading dots are not an
    extension. *)
Definition splitext (name : string) : string * string :=
  match split_at_last_dot (list_ascii_of_string name) with
  | Some (root, ext) =>
      match lstrip extsep root with
      | [] => (name, "")
      | _ :: _ => (string_of_list_ascii root, string_of_list_ascii ext)
      end
  | None => (name, "")
  end.

Definition join (a b : string) : string :=
  match list_ascii_of_string b with
  | c :: _ => if bool_decide (c = sep) then b
              else match reverse (list_ascii_of_string a) with
                   | [] => b
                   | d :: _ => if bool_decide (d = sep) then a +:+ b
                               else a +:+ "/" +:+ b
                   end
  | [] => match reverse (list_ascii_of_string a) with
          | [] => b
          | d :: _ => if bool_decide (d = sep) then a +:+ b
                      else a +:+ "/" +:+ b
          end
  end.

End OsPath.

Module Supervisor.

(** The double quote and the newline of the job text. *)
Definition dquote : string := String (ascii_of_nat 34) EmptyString.
Definition newline : string := String (ascii_of_nat 10) EmptyString.

(** *** [create_blender_script] *)
Section Script.
(** [repr] is Python's formatting of a float inside an f-string. The three
    stretches of the template that hold no parameter are taken as given:
    lines 28-38, lines 42-84 and lines 87-332. *)
Context {F : Type} (repr : F → string).
Context (imports_and_header monitor_and_main_head main_rest : string).

(** Line 85 after formatting. *)
Definition source_file_statement (source_blend : string) : string :=
  "    source_file = r" +:+ dquote +:+ source_blend +:+ dquote +:+ newline.

Definition create_blender_script (source_blend : string) (scale_factor : F)
    (max_frames max_bones max_memory_mb : Z) : string :=
  imports_and_header
  +:+ "MAX_FRAME_RANGE = " +:+ pretty max_frames +:+ newline
  +:+ "MAX_BONES = " +:+ pretty max_bones +:+ newline
  +:+ "MAX_MEMORY_MB = " +:+ pretty max_memory_mb +:+ newline
  +:+ monitor_and_main_head
  +:+ source_file_statement source_blend
  +:+ "    scale_factor = " +:+ repr scale_factor +:+ newline
  +:+ main_rest.

End Script.

(** How the host's Python reads a raw string literal, from the character
    after its opening quote: a backslash keeps itself and the character
    after it, an unescaped quote closes the literal, an unescaped end of
    line is an error. The result is the literal's value and the text left. *)
Fixpoint raw_string_body (s : string) : option (string * string) :=
  match s with
  | EmptyString => None
  | String c rest =>
      if bool_decide (c = ascii_of_nat 34) then Some (EmptyString, rest)
      else if bool_decide (c = ascii_of_nat 10) then None
      else if bool_decide (c = ascii_of_nat 92) then
        match rest with
        | EmptyString => None
        | String c' rest' =>
            match raw_string_body rest' with
            | Some (value, remaining) => Some (String c (String c' value), remaining)
            | None => None
            end
        end
      else
        match raw_string_body rest with
        | Some (value, remaining) => Some (String c value, remaining)
        | None => None
        end
  end.

Fixpoint strip_prefix (p s : string) : option string :=
  match p, s with
  | EmptyString, _ => Some s
  | String a p', String b s' => if bool_decide (a = b) then strip_prefix p' s' else None
  | String _ _, EmptyString => None
  end.

(** The value the host binds to [source_file] when it runs line 85: the
    statement has to be one raw literal followed by the end of the line. *)
Definition host_source_file (statement : string) : option string :=
  match strip_prefix ("    source_file = r" +:+ dquote) statement with
  | None => None
  | Some body =>
      match raw_string_body body with
      | Some (value, remaining) => if bool_decide (remaining = newline) then Some value else None
      | None => None
      end
  end.

(** A path without a double quote, an end of line or a backslash. *)
Definition plain_char (c : ascii) : Prop :=
  c ≠ ascii_of_nat 34 ∧ c ≠ ascii_of_nat 10 ∧ c ≠ ascii_of_nat 92.

Fixpoint plain (path : string) : Prop :=
  match path with
  | EmptyString => True
  | String c rest => plain_char c ∧ plain rest
  end.

(** *** [create_output_filename] *)
Definition create_output_filename (source_path target_path : string) : string :=
  let source_dir := OsPath.dirname source_path in
  let source_name := (OsPath.splitext (OsPath.basename source_path)).1 in
  let target_name := (OsPath.splitext (OsPath.basename target_path)).1 in
  let output_name := source_name +:+ "_to_" +:+ target_name +:+ ".blend" in
  OsPath.join source_dir output_name.

(** *** [process_single_transfer] *)

(** The parsed command line. *)
Record Args {F : Type} := mkArgs {
  scale : F;
  timeout : Z;
  max_memory : Z;
  max_frames : Z;
  max_bones : Z;
  blender : string;
  continue_on_error : bool
}.
Arguments Args F : clear implicits.

(** What [psutil] answers for the child. *)
Inductive memory_reading :=
  | Rss (bytes : Z)
  | NoSuchProcess
  | AccessDenied.

(** One turn of the polling loop in which the child is still running: the
    clock, the memory reading, whether the child is gone within the five
    seconds that follow [terminate()], and whether the user interrupts the
    [sleep] that ends the turn. *)
Record poll := mkPoll {
  now : Q;
  reading : memory_reading;
  exits_after_terminate : bool;
  interrupt : bool
}.

(** A child that, left alone, is seen running for [polls] turns and then
    has exited with [returncode], having written [stdout] and [stderr]. *)
Record child := mkChild {
  start_time : Q;
  polls : list poll;
  returncode : Z;
  stdout : string;
  stderr : string
}.

(** The environment of one transfer: whether [shutil.copy2] succeeds, the
    name [tempfile] picks, whether [Popen] can start the host, and the
    child. *)
Record env := mkEnv {
  copy_succeeds : bool;
  temp_script : string;
  launch_succeeds : bool;
  host_run : child
}.

(** How a Python call ends. *)
Inductive outcome :=
  | Returned (b : bool)
  | RaisedException
  | KeyboardInterrupt.

Inductive monitoring :=
  | Exited
  | Stopped
  | WaitTimeoutExpired
  | UserInterrupt.

(** [terminate(); wait(timeout=5); if poll() is None: kill(); return False]. *)
Definition terminate_child (p : poll) : monitoring :=
  if exits_after_terminate p then Stopped else WaitTimeoutExpired.

(** Lines 453-482. *)
Fixpoint monitor_process (timeout max_memory : Z) (start : Q) (turns : list poll)
  : monitoring :=
  match turns with
  | [] => Exited
  | p :: rest =>
      let elapsed := (now p - start)%Q in
      if Qgtb elapsed (inject_Z timeout) then terminate_child p
      else
        let sleep := if interrupt p then UserInterrupt
                     else monitor_process timeout max_memory start rest in
        match reading p with
        | Rss bytes =>
            let memory_mb := (inject_Z bytes / 1024 / 1024)%Q in
            if Qgtb memory_mb (inject_Z max_memory) then terminate_child p
            else sleep
        | NoSuchProcess | AccessDenied => sleep
        end
  end.

(** ["RESULT: SUCCESS" in stdout]. *)
Fixpoint contains (needle hay : string) : bool :=
  String.prefix needle hay ||
  match hay with
  | EmptyString => false
  | String _ rest => contains needle rest
  end.

Definition sentinel : string := "RESULT: SUCCESS".

(** Line 492. *)
Definition succeeded (returncode : Z) (stdout : string) : bool :=
  bool_decide (returncode = 0%Z) && contains sentinel stdout.

(** Lines 413-506. Files are the set of paths that exist; the lines the
    supervisor prints are left out. *)
Definition process_single_transfer {F} (source_file target_file : string)
    (args : Args F) (e : env) (files : gset string) : outcome * gset string :=
  let output_file := create_output_filename source_file target_file in
  if negb (copy_succeeds e) then (Returned false, files)
  else
    let files := {[output_file]} ∪ files in
    let files := {[temp_script e]} ∪ files in
    let run := host_run e in
    let (result, files) :=
      if negb (launch_succeeds e) then (RaisedException, files)
      else
        match monitor_process (timeout args) (max_memory args) (start_time run)
                (polls run) with
        | Stopped => (Returned false, files)
        | WaitTimeoutExpired => (RaisedException, files)
        | UserInterrupt => (KeyboardInterrupt, files)
        | Exited =>
            if succeeded (returncode run) (stdout run) then (Returned true, files)
            else (Returned false, files ∖ {[output_file]})
        end in
    (result, files ∖ {[temp_script e]}).

End Supervisor.

(** ** The batch loop of the command-line [main] *)

Module Batch.
Import Supervisor.

(** The state of the loop; [attempted] lists the files handed to
    [process_single_transfer], in order. *)
Record tally := mkTally {
  results : PyDict.dict bool;
  successful : Z;
  attempted : list string
}.

Section Loop.
Context {W : Type} (process : string → W → outcome * W).
Context (continue_on_error : bool).

(** Lines 571-589. *)
Fixpoint batch_loop (source_files : list string) (t : tally) (w : W) : tally * W :=
  match source_files with
  | [] => (t, w)
  | source_file :: rest =>
      let (o, w) := process source_file w in
      let attempted := attempted t ++ [source_file] in
      match o with
      | Returned success =>
          let results := PyDict.setitem source_file success (results t) in
          if success
          then batch_loop rest (mkTally results (successful t + 1) attempted) w
          else if negb continue_on_error
               then (mkTally results (successful t) attempted, w)
               else batch_loop rest (mkTally results (successful t) attempted) w
      | KeyboardInterrupt => (mkTally (results t) (successful t) attempted, w)
      | RaisedException =>
          let results := PyDict.setitem source_file false (results t) in
          if negb continue_on_error
          then (mkTally results (successful t) attempted, w)
          else batch_loop rest (mkTally results (successful t) attempted) w
      end
  end.

(** Line 607. *)
Definition exit_status (t : tally) : Z :=
  if bool_decide (successful t = PyDict.len (results t)) then 0%Z else 1%Z.

(** Lines 560-607: [main] once the target file is validated. *)
Definition main (source_files : list string) (w : W) : Z * tally * W :=
  match source_files with
  | [] => (1%Z, mkTally [] 0 [], w)
  | _ :: _ =>
      let (t, w) := batch_loop source_files (mkTally [] 0 []) w in
      (exit_status t, t, w)
  end.

(** The number of files recorded as succeeded. *)
Definition count_true (d : PyDict.dict bool) : Z :=
  Z.of_nat (length (filter (λ p, p.2 = true) (PyDict.items d))).

End Loop.
End Batch.

(** ** The first half of the job: choosing the rigs and the action *)

(** Lines 92-180 of the embedded job. The job looks for the target rig in
    the scene, appends the source file, links what came
    with it into the scene, picks the source rig among the new objects and
    the action to copy, and enters pose mode. The host's objects are
    compared by name, which is what identifies an object in a file; the
    assignments to the host that nothing in the job reads back (the active
    object, the new action of the target) are left to the host. *)
Module Setup.
Import Job.

Record action := mkAction {
  action_name : string;
  frame_range : option (Q * Q)
}.

(** [animation_data] is [None] when the object has no animation data, and
    [Some None] when it has animation data without an action. *)
Record object := mkObject {
  name : string;
  type : string;
  animation_data : option (option action);
  pose_bones : list string
}.

(** The lines this part prints, one constructor per [print]. *)
Inductive line :=
  | ErrorNoTargetArmature
  | TargetArmature (name : string)
  | Appending
  | FoundSourceArmature (name : string)
  | ErrorNoSourceArmature
  | ErrorNoAnimationData
  | AvailableActions (names : list string)
  | AssignedAction (name : string)
  | SourceAction (name : string)
  | SourceActionFrameRange (first last frames : Z)
  | SourceActionNoFrameRange
  | CreatedTargetAction (name : string).

(** What the host shows: the objects of the scene before the job runs, and
    [bpy.data.objects] and [bpy.data.actions] as they are iterated once the
    source file has been appended. *)
Record blend := mkBlend {
  scene_objects : list object;
  data_objects : list object;
  data_actions : list action
}.

(** What the second half works with. *)
Record chosen := mkChosen {
  target_armature : object;
  source_armature : object;
  imported_objects : list object;
  source_action : action;
  target_action_name : string
}.

Section Model.
Context {F : Type} `{HostFloat F}.
Context (w : world F) (cfg : config F) (b : blend).

(** The state of the job and the lines of this part. *)
Definition Run (A : Type) : Type := M (job F * list line) RuntimeError A.

(** A step of the monitor or of the host, as the second half has it. *)
Definition lift {A} (m : Job.Run A) : Run A := λ st,
  let '(x, j) := m st.1 in (x, (j, st.2)).

Definition print (l : line) : Run unit := λ st, (Val tt, (st.1, st.2 ++ [l])).

Definition is_armature (obj : object) : bool := bool_decide (type obj = "ARMATURE").

(** Lines 96-100. *)
Fixpoint find_target (objects : list object) : option object :=
  match objects with
  | [] => None
  | obj :: rest => if is_armature obj then Some obj else find_target rest
  end.

(** Lines 124-132; [linked] holds the names of the objects of the scene. *)
Fixpoint link_imported (target : object) (objects : list object)
    (linked : list string) (imported_objects : list object)
    (source_armature : option object)
  : Run (list string * list object * option object) :=
  match objects with
  | [] => mret (linked, imported_objects, source_armature)
  | obj :: rest =>
      lift (check_timeout w 300);;
      if bool_decide (name obj ∉ linked) then
        if is_armature obj && bool_decide (name obj ≠ name target) then
          print (FoundSourceArmature (name obj));;
          link_imported target rest (linked ++ [name obj])
            (imported_objects ++ [obj]) (Some obj)
        else
          link_imported target rest (linked ++ [name obj])
            (imported_objects ++ [obj]) source_armature
      else link_imported target rest linked imported_objects source_armature
  end.

(** Lines 141-154. *)
Definition resolve_action (source : object) : Run action :=
  match animation_data source with
  | Some (Some source_action) => mret source_action
  | _ =>
      print ErrorNoAnimationData;;
      print (AvailableActions (action_name <$> data_actions b));;
      match data_actions b with
      | first :: _ => print (AssignedAction (action_name first));; mret first
      | [] => return_ false
      end
  end.

(** Lines 158-162. *)
Definition print_frame_range (source_action : action) : Run unit :=
  match frame_range source_action with
  | Some (src_start, src_end) =>
      print (SourceActionFrameRange (int_of_float src_start) (int_of_float src_end)
               (int_of_float (src_end - src_start + 1)))
  | None => print SourceActionNoFrameRange
  end.

(** Lines 92-180 of the [try] block. *)
Definition setup : Run chosen :=
  lift (check_timeout w 300);;
  lift (check_memory w (MAX_MEMORY_MB cfg));;
  match find_target (scene_objects b) with
  | None => print ErrorNoTargetArmature;; return_ false
  | Some target =>
      print (TargetArmature (name target));;
      lift (update_progress w);;
      print Appending;;
      lift (check_timeout w 300);;
      lift (update_progress w);;
      found ← link_imported target (data_objects b) (name <$> scene_objects b) [] None;
      match found.2 with
      | None => print ErrorNoSourceArmature;; return_ false
      | Some source =>
          lift (update_progress w);;
          source_action ← resolve_action source;
          print (SourceAction (action_name source_action));;
          print_frame_range source_action;;
          lift (update_progress w);;
          let target_action_name := action_name source_action +:+ "_scaled" in
          print (CreatedTargetAction target_action_name);;
          lift (update_progress w);;
          lift (mode_set POSE);;
          lift (update_progress w);;
          mret (mkChosen target source found.1.2 source_action target_action_name)
      end
  end.

(** What the second half reads of the choice. *)
Definition rigs_of (c : chosen) : rigs :=
  mkRigs (pose_bones (source_armature c)) (frame_range (source_action c))
    (name <$> imported_objects c).

End Model.
End Setup.

(** ** Predicates used to state laws of the code *)

Module Laws.

Section Polling.
Import Supervisor.

(** A poll that lets the loop go on: within the timeout, not interrupted,
    and with a memory reading that is either unavailable or within the
    limit. *)
Definition poll_passes (timeout max_memory : Z) (start : Q) (p : poll) : Prop :=
  (now p - start <= inject_Z timeout)%Q
  ∧ interrupt p = false
  ∧ ∀ bytes, reading p = Rss bytes →
      (inject_Z bytes / 1024 / 1024 <= inject_Z max_memory)%Q.

End Polling.

Section Disk.
Import Supervisor.

(** Line 573: what the batch loop does for a source file, as a step on the
    files on disk; [env_of] tells what happens outside the tool while each
    source file is processed. *)
Definition transfer_on_disk {F} (target_file : string) (args : Args F)
    (env_of : string → env) (source_file : string) (files : gset string)
  : outcome * gset string :=
  process_single_transfer source_file target_file args (env_of source_file) files.

End Disk.

Section Runs.
Import Job.
Context {F : Type}.
Implicit Types (s : job F).

(** However [m] ends, normally, by an exception or by an early [return],
    the states before and after are related by [R]. *)
Definition always {A} (R : relation (job F)) (m : @Run F A) : Prop :=
  ∀ s x s', m s = (x, s') → R s s'.

(** [m] holds no [return] statement that can be reached. *)
Definition never_returns {A} (m : @Run F A) : Prop :=
  ∀ s b s', m s ≠ (Return b, s').

(** The scene and the counter of copied keyframes are as they were. *)
Definition host_same s s' : Prop :=
  scene s' = scene s ∧ keyframes_copied s' = keyframes_copied s.

(** Everything but the scene and the counter of copied keyframes is as it
    was. *)
Definition sys_same s s' : Prop :=
  ticks s' = ticks s ∧ probes s' = probes s ∧ monitor s' = monitor s
  ∧ stdout s' = stdout s ∧ gc_runs s' = gc_runs s.

(** The two lines the supervising process and the user read the outcome
    from. *)
Definition verdict_line (l : line) : Prop := l = ResultSuccess ∨ l = ResultFailed.

(** The bookkeeping of a run only moves forward: the monitor keeps its
    start time, the clock and the probes are consumed in order, the frame
    counter does not decrease, and lines are only added to the output, none
    of them a verdict. *)
Definition onward s s' : Prop :=
  start_time (monitor s') = start_time (monitor s)
  ∧ bone_count (monitor s') = bone_count (monitor s)
  ∧ (ticks s ≤ ticks s')%nat
  ∧ (probes s ≤ probes s')%nat
  ∧ (gc_runs s ≤ gc_runs s')%nat
  ∧ (frame_count (monitor s) <= frame_count (monitor s'))%Z
  ∧ ∃ new, stdout s' = stdout s ++ new ∧ ∀ l, l ∈ new → ¬ verdict_line l.

(** The two lines printed before a limit makes [main] return early. *)
Definition refusal_line (l : line) : Prop :=
  l = ErrorTooManyBones ∨ l = ErrorFrameRangeTooLarge.

(** An early [return] of [m] returns [False], right after printing one of
    the refusal lines. *)
Definition refusal {A} (m : @Run F A) : Prop :=
  ∀ s b s', m s = (Return b, s') →
    b = false ∧ ∃ l, last (stdout s') = Some l ∧ refusal_line l.

(** The same, and nothing of the scene has been touched by then. *)
Definition refuses {A} (m : @Run F A) : Prop :=
  ∀ s b s', m s = (Return b, s') →
    b = false ∧ host_same s s' ∧ ∃ l, last (stdout s') = Some l ∧ refusal_line l.

(** What a run of the function body leaves on the output: a normal end
    returns [True] and has printed the success line last, after lines that
    are no verdict; any other end has printed no verdict. *)
Definition announces (m : @Run F bool) : Prop :=
  ∀ s x s', m s = (x, s') →
    match x with
    | Val b => b = true ∧ ∃ s0, onward s s0 ∧ monitor s' = monitor s0
               ∧ stdout s' = stdout s0 ++ [ResultSuccess]
    | _ => onward s s'
    end.

(** The part of the scene the copy loop does not write: the frame range,
    the interaction mode and the objects in the file. *)
Definition frame_kept s s' : Prop :=
  frame_start (scene s') = frame_start (scene s)
  ∧ frame_end (scene s') = frame_end (scene s)
  ∧ mode (scene s') = mode (scene s)
  ∧ data_objects (scene s') = data_objects (scene s).

End Runs.

Section Poses.
Import Job.
Context {F : Type} `{HostFloat F}.

(** The pose the copy loop gives a target bone from the source bone's: the
    location scaled, rotation and scale as they are. *)
Definition scaled_pose (cfg : config F) (source : PoseBone F) : PoseBone F :=
  mkPoseBone F (vector_imul (location source) (scale_factor cfg))
    (rotation_quaternion source) (scale source).

End Poses.

End Laws.

(** ** Concrete inputs *)

Module Scenario.
Import Job.

(** Channel values as rationals. *)
#[export] Instance Q_HostFloat : HostFloat Q := {| fmul := Qmult |}.

Definition bone (i : nat) : string := "Bone." +:+ pretty i.

(** The bones both rigs have. *)
Definition shared_bones (n : nat) : list string := bone <$> seq 0 n.

Definition rest_pose : PoseBone Q :=
  (mkPoseBone Q (mkVector Q 0 0 0) (mkQuaternion Q 1 0 0 0) (mkVector Q 1 1 1))%Q.

(** A source animation that moves every bone along x and y with the frame
    number, at a steady clock and half a gigabyte of resident memory. *)
Definition walk_world : world Q :=
  mkWorld Q (λ _, 5%Q) (λ _, Some 536870912%Z)
    (λ _ frame,
       mkPoseBone Q (mkVector Q (inject_Z frame) (2 * inject_Z frame) 0)
         (mkQuaternion Q 1 0 0 0) (mkVector Q 1 1 1))%Q.

(** The same host without [psutil]. *)
Definition no_psutil_world : world Q :=
  mkWorld Q (clock walk_world) (λ _, None) (source_pose walk_world).

(** The same host when every clock reading is 400 seconds after the
    job's start, and when the job holds 5000 MB. *)
Definition late_world : world Q :=
  mkWorld Q (λ _, 405%Q) (rss walk_world) (source_pose walk_world).

Definition bloated_world : world Q :=
  mkWorld Q (clock walk_world) (λ _, Some 5242880000%Z) (source_pose walk_world).

(** The default limits, and the scale of the end-to-end scenario. *)
Definition limits : config Q := mkConfig Q 10000 1000 4096 (1 # 2).

(** [bones] shared bones and one bone only the source has; an action over
    the frames 1 to [last]. *)
Definition walk_rigs (bones : nat) (last : Z) : rigs :=
  mkRigs (shared_bones bones ++ ["Tail"]) (Some (1%Q, inject_Z last))
    ["Armature.001"; "Body.001"].

(** The target scene: the shared bones and one more, at rest, with the
    host's default frame range. *)
Definition target_scene (bones : nat) : host Q :=
  mkHost Q 1 1 100 POSE
    ((λ name, (name, rest_pose)) <$> (shared_bones bones ++ ["Helmet"]))
    [] None ["Armature"; "Body"; "Armature.001"; "Body.001"].

(** The job as it enters the second half of [main]. *)
Definition entering (bones : nat) : job Q :=
  mkJob Q 7 1 (mkSafetyMonitor 5%Q 5%Q 0 0) [] 0 0 (target_scene bones).

(** The command line with its defaults. *)
Definition default_args : Supervisor.Args Q :=
  Supervisor.mkArgs Q (7 # 10) 600 4096 10000 1000 "blender" false.

Definition megabyte : Z := 1048576.

(** A host that is seen running once, at one second and 200 MB, and has
    then exited with [code] after writing [out]. *)
Definition finished (code : Z) (out : string) : Supervisor.child :=
  Supervisor.mkChild 0
    [Supervisor.mkPoll 1 (Supervisor.Rss (200 * megabyte)) true false]
    code out "".

(** A host that is still running after 601 seconds. *)
Definition hung : Supervisor.child :=
  Supervisor.mkChild 0
    [Supervisor.mkPoll 1 (Supervisor.Rss (200 * megabyte)) true false;
     Supervisor.mkPoll 601 (Supervisor.Rss (200 * megabyte)) true false]
    0 "" "".

(** A host that has grown to 5000 MB at its second poll. *)
Definition bloated : Supervisor.child :=
  Supervisor.mkChild 0
    [Supervisor.mkPoll 1 (Supervisor.Rss (200 * megabyte)) true false;
     Supervisor.mkPoll 2 (Supervisor.Rss (5000 * megabyte)) true false]
    0 "" "".

(** A host during whose first poll the user presses Ctrl-C. *)
Definition interrupted : Supervisor.child :=
  Supervisor.mkChild 0
    [Supervisor.mkPoll 1 (Supervisor.Rss (200 * megabyte)) true true]
    0 "" "".

(** A host whose memory cannot be read at either of its two polls. *)
Definition unreadable : Supervisor.child :=
  Supervisor.mkChild 0
    [Supervisor.mkPoll 1 Supervisor.AccessDenied true false;
     Supervisor.mkPoll 2 Supervisor.NoSuchProcess true false]
    0 "RESULT: SUCCESS" "".

Definition transfer_env (run : Supervisor.child) : Supervisor.env :=
  Supervisor.mkEnv true "/tmp/tmpk3v9.py" true run.

(** A batch in which the host fails on [b.blend] and succeeds on every
    other file, and one in which the user interrupts [b.blend] instead. *)
Definition batch_env (on_b : Supervisor.child) (source_file : string) : Supervisor.env :=
  if bool_decide (source_file = "/anims/b.blend")
  then transfer_env on_b
  else transfer_env (finished 0 "RESULT: SUCCESS").

Definition batch_process (on_b : Supervisor.child) (source_file : string)
    (files : gset string) : Supervisor.outcome * gset string :=
  Supervisor.process_single_transfer source_file "/rigs/hero.blend" default_args
    (batch_env on_b source_file) files.

Definition batch_sources : list string :=
  ["/anims/a.blend"; "/anims/b.blend"; "/anims/c.blend"].

(** A source path with a double quote in its file name. *)
Definition quoted_path : string := "/anims/a" +:+ Supervisor.dquote +:+ "b.blend".

End Scenario.

(** ** More concrete inputs *)

Module Studio.
Import Job Scenario.

(** Limits under which the rigs of {!Scenario} have too many bones. *)
Definition tight_limits : config Q := mkConfig Q 10000 1 4096 (1 # 2).

(** A three-frame action, and the objects of a target file with a camera,
    a rig and its body, into which a source file with a rig and a body has
    been appended; [Spare] is an object of the target file that is in no
    scene. *)
Definition walk : Setup.action := Setup.mkAction "Walk" (Some (1, 3)%Q).

Definition camera : Setup.object := Setup.mkObject "Camera" "CAMERA" None [].
Definition hero : Setup.object :=
  Setup.mkObject "Armature" "ARMATURE" None (shared_bones 2 ++ ["Helmet"]).
Definition body : Setup.object := Setup.mkObject "Body" "MESH" None [].
Definition walker : Setup.object :=
  Setup.mkObject "Armature.001" "ARMATURE" (Some (Some walk)) (shared_bones 2 ++ ["Tail"]).
Definition walker_body : Setup.object := Setup.mkObject "Body.001" "MESH" None [].
Definition spare : Setup.object := Setup.mkObject "Spare" "MESH" None [].

Definition studio : Setup.blend :=
  Setup.mkBlend [camera; hero; body]
    [hero; walker; body; walker_body; camera; spare] [walk].

(** The same file when the scene has no rig, and when the source file
    brought none. *)
Definition no_rig : Setup.blend :=
  Setup.mkBlend [camera; body] [walker; body; walker_body; camera] [walk].

Definition no_source : Setup.blend :=
  Setup.mkBlend [camera; hero; body] [hero; body; walker_body; camera] [walk].

(** The job as it enters the first half, in object mode. *)
Definition arriving : job Q * list Setup.line :=
  (mkJob Q 2 0 (mkSafetyMonitor 5%Q 5%Q 0 0) [] 0 0
     (mkHost Q 1 1 100 OBJECT
        ((λ name, (name, rest_pose)) <$> (shared_bones 2 ++ ["Helmet"]))
        [] None (Setup.name <$> Setup.data_objects studio)),
   []).

(** A batch over two files of one directory that differ in the case of
    the extension: the host succeeds on the first and fails on the second. *)
Definition twin_sources : list string := ["/anims/a.blend"; "/anims/a.BLEND"].

Definition twin_env (source_file : string) : Supervisor.env :=
  if bool_decide (source_file = "/anims/a.BLEND")
  then transfer_env (finished 1 "RESULT: FAILED")
  else transfer_env (finished 0 "RESULT: SUCCESS").

End Studio.

(** * Facts *)

(** ** Dictionaries *)
Section DictFacts.
Context {V : Type}.
Implicit Types (d : PyDict.dict V) (k : string) (v : V).

Lemma elem_of_keys_setitem d k v x :
  x ∈ PyDict.keys (PyDict.setitem k v d) ↔ x = k ∨ x ∈ PyDict.keys d.
Proof.
  unfold PyDict.keys. induction d as [|[k' v'] d IH]; simpl.
  - rewrite elem_of_cons. tauto.
  - case_bool_decide; simpl; rewrite ?elem_of_cons, ?IH; intuition congruence.
Qed.

Lemma elem_of_setitem d k v p :
  p ∈ PyDict.setitem k v d → p = (k, v) ∨ p ∈ d.
Proof.
  induction d as [|[k' v'] d IH]; simpl.
  - rewrite list_elem_of_singleton. tauto.
  - case_bool_decide; simpl; rewrite !elem_of_cons; intuition congruence.
Qed.

Lemma NoDup_keys_setitem d k v :
  NoDup (PyDict.keys d) → NoDup (PyDict.keys (PyDict.setitem k v d)).
Proof.
  unfold PyDict.keys. induction d as [|[k' v'] d IH]; simpl; intros Hd.
  - apply NoDup_singleton.
  - apply NoDup_cons in Hd as [Hk Hd].
    case_bool_decide; simpl; apply NoDup_cons; split; auto.
    intros Hin. apply (elem_of_keys_setitem d k v k') in Hin as [->|Hin]; done.
Qed.

Lemma setitem_fresh d k v :
  k ∉ PyDict.keys d → PyDict.setitem k v d = d ++ [(k, v)].
Proof.
  unfold PyDict.keys. induction d as [|[k' v'] d IH]; simpl; intros Hk; [done|].
  apply not_elem_of_cons in Hk as [Hne Hk].
  rewrite bool_decide_eq_false_2 by done. by rewrite IH.
Qed.

End DictFacts.

(** ** The state monad *)
Section MonadFacts.
Context {S E : Type}.

Lemma bind_val {A B} (m : M S E A) (f : A → M S E B) s a s' :
  m s = (Val a, s') → (m ≫= f) s = f a s'.
Proof. intros Hm. unfold mbind, M_bind. by rewrite Hm. Qed.

Lemma bind_return {A B} (m : M S E A) (f : A → M S E B) s b s' :
  m s = (Return b, s') → (m ≫= f) s = (Return b, s').
Proof. intros Hm. unfold mbind, M_bind. by rewrite Hm. Qed.

Lemma bind_raise {A B} (m : M S E A) (f : A → M S E B) s e s' :
  m s = (Raise e, s') → (m ≫= f) s = (Raise e, s').
Proof. intros Hm. unfold mbind, M_bind. by rewrite Hm. Qed.

Lemma bind_val_inv {A B} (m : M S E A) (f : A → M S E B) s b s' :
  (m ≫= f) s = (Val b, s') → ∃ a s1, m s = (Val a, s1) ∧ f a s1 = (Val b, s').
Proof.
  unfold mbind, M_bind. destruct (m s) as [[a|e|r] s1]; [eauto|done|done].
Qed.

End MonadFacts.

(** ** The safety monitor on a calm run *)
Section MonitorFacts.
Import Job.
Context {F : Type} `{HostFloat F}.
Context (w : world F) (cfg : config F).
Implicit Types (s : job F).

Lemma monitor_step_refl s : calm w cfg s → monitor_step w cfg s s.
Proof. by intros Hs. Qed.

Lemma monitor_step_trans s1 s2 s3 :
  monitor_step w cfg s1 s2 → monitor_step w cfg s2 s3 → monitor_step w cfg s1 s3.
Proof. intros (?&?&?) (?&?&?). split; [done|split; congruence]. Qed.

Lemma Qgtb_false a b : (a <= b)%Q → Qgtb a b = false.
Proof. intros Hab. unfold Qgtb. destruct (Qlt_le_dec b a); [lra|done]. Qed.

Lemma Qgtb_true a b : (b < a)%Q → Qgtb a b = true.
Proof. intros Hab. unfold Qgtb. destruct (Qlt_le_dec b a); [done|lra]. Qed.

Lemma check_timeout_calm s max_seconds :
  calm w cfg s → (300 <= max_seconds)%Q →
  ∃ s', check_timeout w max_seconds s = (Val tt, s') ∧ monitor_step w cfg s s'
        ∧ stdout s' = stdout s.
Proof.
  intros Hs Hmax. pose proof Hs as (Hstart & _).
  eexists. unfold check_timeout, mbind, mret, M_bind, M_ret, time_time, get_monitor. simpl.
  rewrite Qgtb_false by (specialize (Hstart (ticks s)); lra).
  split; [reflexivity|]. split; [split; [exact Hs|by split]|done].
Qed.

Lemma check_memory_calm s :
  calm w cfg s →
  ∃ s', check_memory w (MAX_MEMORY_MB cfg) s = (Val tt, s') ∧ monitor_step w cfg s s'
        ∧ stdout s' = stdout s.
Proof.
  intros Hs. pose proof Hs as (_ & _ & _ & Hmem).
  unfold check_memory, mbind, mret, M_bind, M_ret, memory_probe. simpl.
  destruct (rss w (probes s)) as [bytes|] eqn:Hrss.
  - rewrite Qgtb_false by eauto. eexists. split; [reflexivity|].
    split; [split; [exact Hs|by split]|done].
  - eexists. split; [reflexivity|]. split; [split; [exact Hs|by split]|done].
Qed.

Lemma check_progress_calm s frame :
  calm w cfg s →
  ∃ s', check_progress w (Some frame) s = (Val tt, s') ∧ monitor_step w cfg s s'.
Proof.
  intros Hs. pose proof Hs as (Hstart & Hlast & Hany & Hmem).
  unfold check_progress, when, mbind, mret, M_bind, M_ret, time_time, get_monitor. simpl.
  rewrite Qgtb_false by eauto.
  case_bool_decide; simpl.
  - eexists. split; [reflexivity|]. split; [|by split].
    repeat split; simpl; eauto.
  - eexists. split; [reflexivity|]. split; [exact Hs|by split].
Qed.

Lemma print_step s l :
  calm w cfg s →
  ∃ s', print l s = (Val tt, s') ∧ monitor_step w cfg s s' ∧ stdout s' = stdout s ++ [l].
Proof.
  intros Hs. eexists. split; [reflexivity|]. split; [split; [exact Hs|by split]|done].
Qed.

Lemma gc_collect_step s :
  calm w cfg s → ∃ s', gc_collect s = (Val tt, s') ∧ monitor_step w cfg s s'.
Proof. intros Hs. eexists. split; [reflexivity|]. split; [exact Hs|by split]. Qed.

End MonitorFacts.

(** ** The bone mapping *)
Section MappingFacts.
Import Job.
Context {F : Type} `{HostFloat F}.
Context (w : world F) (cfg : config F).
Implicit Types (s : job F) (tn sn : list string) (acc : PyDict.dict string).

Lemma build_bone_mapping_calm tn sn acc s :
  calm w cfg s →
  ∃ s', build_bone_mapping w tn sn acc s = (Val (mapping_of tn sn acc), s')
        ∧ monitor_step w cfg s s' ∧ stdout s' = stdout s.
Proof.
  revert acc s. induction sn as [|n sn IH]; intros acc s Hs; simpl.
  - exists s. by split; [|split; [apply monitor_step_refl|]].
  - destruct (check_timeout_calm w cfg s 300 Hs) as (s1 & E1 & M1 & O1); [lra|].
    rewrite (bind_val _ _ _ _ _ E1).
    destruct (IH (if bool_decide (n ∈ tn) then PyDict.setitem n n acc else acc) s1)
      as (s2 & E2 & M2 & O2); [apply M1|].
    exists s2. split; [done|]. split; [by eapply monitor_step_trans|congruence].
Qed.

Lemma elem_of_keys_mapping_of tn sn acc x :
  x ∈ PyDict.keys (mapping_of tn sn acc) ↔ x ∈ PyDict.keys acc ∨ (x ∈ sn ∧ x ∈ tn).
Proof.
  revert acc. induction sn as [|n sn IH]; intros acc; simpl.
  - split; [by left|]. by intros [?|[?%elem_of_nil _]].
  - rewrite IH, elem_of_cons. case_bool_decide.
    + rewrite elem_of_keys_setitem. split; [|tauto].
      intros [[->|?]|[? ?]]; tauto.
    + split; [tauto|]. intros [?|[[->|?] ?]]; tauto.
Qed.

Lemma mapping_of_identity tn sn acc :
  (∀ p, p ∈ acc → p.2 = p.1) → ∀ p, p ∈ mapping_of tn sn acc → p.2 = p.1.
Proof.
  revert acc. induction sn as [|n sn IH]; intros acc Hacc; simpl; [done|].
  apply IH. case_bool_decide; [|done].
  intros p [->|Hp]%elem_of_setitem; [done|by apply Hacc].
Qed.

Lemma NoDup_keys_mapping_of tn sn acc :
  NoDup (PyDict.keys acc) → NoDup (PyDict.keys (mapping_of tn sn acc)).
Proof.
  revert acc. induction sn as [|n sn IH]; intros acc Hacc; simpl; [done|].
  apply IH. case_bool_decide; [by apply NoDup_keys_setitem|done].
Qed.

Lemma elem_of_mapping_of tn sn p :
  p ∈ mapping_of tn sn [] → p.1 ∈ sn ∧ p.1 ∈ tn ∧ p.2 = p.1.
Proof.
  intros Hp. assert (p.1 ∈ PyDict.keys (mapping_of tn sn [])) as Hk.
  { unfold PyDict.keys. by apply list_elem_of_fmap_2. }
  apply elem_of_keys_mapping_of in Hk as [Hk|[? ?]]; [by apply elem_of_nil in Hk|].
  split_and!; [done..|]. apply (mapping_of_identity tn sn []); [|done].
  by intros ? ?%elem_of_nil.
Qed.

End MappingFacts.

(** ** The copy loop *)
Section CopyFacts.
Import Job.
Context {F : Type} `{HostFloat F}.
Context (w : world F) (cfg : config F) (r : rigs).
Implicit Types (s : job F) (bones : list (string * PoseBone F)).

Lemma find_bone_assign name f bones b :
  find_bone name bones = Some b →
  find_bone name (assign_bone name f bones) = Some (f b).
Proof.
  induction bones as [|[n b'] bones IH]; simpl; [done|].
  case_bool_decide as Hn; simpl.
  - rewrite bool_decide_eq_true_2 by done. congruence.
  - rewrite bool_decide_eq_false_2 by done. done.
Qed.

Lemma bone_names_assign name f bones :
  bone_names (assign_bone name f bones) = bone_names bones.
Proof.
  unfold bone_names. induction bones as [|[n b] bones IH]; simpl; [done|].
  case_bool_decide; simpl; [done|by f_equal].
Qed.

Lemma find_bone_elem_of name bones :
  name ∈ bone_names bones → is_Some (find_bone name bones).
Proof.
  unfold bone_names. induction bones as [|[n b] bones IH]; simpl.
  - by intros ?%elem_of_nil.
  - intros [->|Hin]%elem_of_cons.
    + rewrite bool_decide_eq_true_2 by done. eauto.
    + case_bool_decide; eauto.
Qed.

(** The effect of one transfer the guard lets through. *)
Lemma transfer_bone_effect s frame source_name target_name :
  source_name ∈ source_bone_names r →
  target_name ∈ bone_names (target_pose_bones (scene s)) →
  ∃ s', transfer_bone w cfg r frame source_name target_name s = (Val tt, s')
    ∧ monitor s' = monitor s
    ∧ (frame_current (scene s) = frame →
       keyframes (scene s') =
         keyframes (scene s) ++ bone_keyframes w cfg frame (source_name, target_name))
    ∧ length (keyframes (scene s')) = (length (keyframes (scene s)) + 3)%nat
    ∧ keyframes_copied s' = (keyframes_copied s + 1)%Z
    ∧ frame_current (scene s') = frame_current (scene s)
    ∧ bone_names (target_pose_bones (scene s')) = bone_names (target_pose_bones (scene s)).
Proof.
  intros Hsrc [b Hb]%find_bone_elem_of.
  unfold transfer_bone, source_bone, assign_target, keyframe_insert,
    get_keyframes_copied, set_keyframes_copied, get_scene, set_scene,
    mbind, mret, M_bind, M_ret. simpl.
  rewrite Hb, bool_decide_eq_true_2 by done. simpl.
  rewrite (find_bone_assign _ _ _ _ Hb). simpl.
  erewrite find_bone_assign by (by apply find_bone_assign). simpl.
  erewrite find_bone_assign by (by apply find_bone_assign, find_bone_assign). simpl.
  eexists. split; [reflexivity|]. simpl.
  split_and!; [done| | |done|done|by rewrite !bone_names_assign].
  - intros Hframe. rewrite <- !(assoc_L (++)). simpl. by rewrite Hframe.
  - rewrite !length_app. simpl. lia.
Qed.

Lemma transfer_bone_copies s frame source_name target_name :
  calm w cfg s →
  frame_current (scene s) = frame →
  source_name ∈ source_bone_names r →
  target_name ∈ bone_names (target_pose_bones (scene s)) →
  ∃ s', transfer_bone w cfg r frame source_name target_name s = (Val tt, s')
    ∧ calm w cfg s'
    ∧ keyframes (scene s') =
        keyframes (scene s) ++ bone_keyframes w cfg frame (source_name, target_name)
    ∧ keyframes_copied s' = (keyframes_copied s + 1)%Z
    ∧ frame_current (scene s') = frame
    ∧ bone_names (target_pose_bones (scene s')) = bone_names (target_pose_bones (scene s)).
Proof.
  intros Hs Hframe Hsrc Htgt.
  destruct (transfer_bone_effect s frame source_name target_name Hsrc Htgt)
    as (s' & Hrun & Hmon & Hkf & _ & Hcopied & Hcur & Hnames).
  exists s'. split_and!; [done| |by apply Hkf|done|congruence|done].
  unfold calm. rewrite Hmon. exact Hs.
Qed.

End CopyFacts.

Section LoopFacts.
Import Job.
Context {F : Type} `{HostFloat F}.
Context (w : world F) (cfg : config F) (r : rigs).
Implicit Types (s : job F) (pairs : list (string * string)).

Lemma when_step (c : bool) (m : Run unit) s :
  calm w cfg s →
  (∃ s', m s = (Val tt, s') ∧ monitor_step w cfg s s') →
  ∃ s', when c m s = (Val tt, s') ∧ monitor_step w cfg s s'.
Proof.
  intros Hs Hm. destruct c; simpl; [done|].
  exists s. split; [done|by apply monitor_step_refl].
Qed.

Lemma bone_loop_copies frame pairs : ∀ bone_idx s,
  calm w cfg s →
  frame_current (scene s) = frame →
  (∀ p, p ∈ pairs → mappable r s p) →
  ∃ s', bone_loop w cfg r frame bone_idx pairs s = (Val tt, s')
    ∧ calm w cfg s'
    ∧ keyframes (scene s') =
        keyframes (scene s) ++ flat_map (bone_keyframes w cfg frame) pairs
    ∧ keyframes_copied s' = (keyframes_copied s + Z.of_nat (length pairs))%Z
    ∧ frame_current (scene s') = frame
    ∧ bone_names (target_pose_bones (scene s')) = bone_names (target_pose_bones (scene s)).
Proof.
  induction pairs as [|[sn tn] pairs IH]; intros bone_idx s Hs Hframe Hpairs; simpl.
  - exists s. split_and!; try done. by rewrite app_nil_r. lia.
  - destruct (when_step (bool_decide (bone_idx `mod` 50 = 0)%Z) (check_timeout w 600) s Hs)
      as (s1 & E1 & C1 & S1 & K1).
    { destruct (check_timeout_calm w cfg s 600 Hs) as (s1 & ? & ? & ?); [lra|eauto]. }
    rewrite (bind_val _ _ _ _ _ E1).
    destruct (Hpairs (sn, tn)) as [Hsn Htn]; [left|]. simpl in Hsn, Htn.
    destruct (transfer_bone_copies w cfg r s1 frame sn tn)
      as (s2 & E2 & C2 & KF2 & K2 & FR2 & BN2); [done|congruence|done|by rewrite S1|].
    rewrite (bind_val _ _ _ _ _ E2).
    destruct (IH (bone_idx + 1)%Z s2) as (s3 & E3 & C3 & KF3 & K3 & FR3 & BN3); [done..| |].
    { intros p Hp. destruct (Hpairs p) as [? ?]; [by right|].
      split; [done|]. by rewrite BN2, S1. }
    exists s3. split_and!; [done..| | | done |].
    + rewrite KF3, KF2, S1. by rewrite <- (assoc_L (++)).
    + rewrite K3, K2, K1. lia.
    + by rewrite BN3, BN2, S1.
Qed.

Lemma frame_set_step frame s :
  calm w cfg s →
  ∃ s', frame_set frame s = (Val tt, s') ∧ calm w cfg s'
    ∧ keyframes (scene s') = keyframes (scene s)
    ∧ keyframes_copied s' = keyframes_copied s
    ∧ frame_current (scene s') = frame
    ∧ target_pose_bones (scene s') = target_pose_bones (scene s).
Proof. intros Hs. eexists. split; [reflexivity|]. by split_and!. Qed.

Lemma frame_loop_copies bone_mapping frame_count end_frame frames : ∀ frame_idx s,
  calm w cfg s →
  (∀ p, p ∈ PyDict.items bone_mapping → mappable r s p) →
  ∃ s', frame_loop w cfg r bone_mapping frame_count end_frame frame_idx frames s
          = (Val tt, s')
    ∧ calm w cfg s'
    ∧ keyframes (scene s') =
        keyframes (scene s) ++ transfers w cfg frames (PyDict.items bone_mapping)
    ∧ keyframes_copied s' =
        (keyframes_copied s + Z.of_nat (length frames) * PyDict.len bone_mapping)%Z
    ∧ bone_names (target_pose_bones (scene s')) = bone_names (target_pose_bones (scene s)).
Proof.
  induction frames as [|frame frames IH]; intros frame_idx s Hs Hmap; simpl.
  - exists s. split_and!; try done. by rewrite app_nil_r. lia.
  - destruct (check_timeout_calm w cfg s 600 Hs) as (s1 & E1 & (C1 & S1 & K1) & _); [lra|].
    rewrite (bind_val _ _ _ _ _ E1).
    destruct (check_progress_calm w cfg s1 frame C1) as (s2 & E2 & C2 & S2 & K2).
    rewrite (bind_val _ _ _ _ _ E2).
    destruct (when_step (bool_decide (frame_idx `mod` 100 = 0)%Z)
      (check_memory w (MAX_MEMORY_MB cfg);;
       print (Progress (inject_Z frame_idx / inject_Z frame_count * 100)%Q frame end_frame))
      s2 C2) as (s3 & E3 & C3 & S3 & K3).
    { destruct (check_memory_calm w cfg s2 C2) as (sa & Ea & Ma & _).
      rewrite (bind_val _ _ _ _ _ Ea).
      destruct (print_step w cfg sa
        (Progress (inject_Z frame_idx / inject_Z frame_count * 100)%Q frame end_frame))
        as (sb & Eb & Mb & _); [apply Ma|].
      exists sb. split; [done|by eapply monitor_step_trans]. }
    rewrite (bind_val _ _ _ _ _ E3).
    destruct (frame_set_step frame s3 C3) as (s4 & E4 & C4 & KF4 & K4 & FR4 & B4).
    rewrite (bind_val _ _ _ _ _ E4).
    assert (scene s3 = scene s) as S03 by congruence.
    destruct (bone_loop_copies frame (PyDict.items bone_mapping) 0 s4)
      as (s5 & E5 & C5 & KF5 & K5 & FR5 & BN5); [done..| |].
    { intros p Hp. destruct (Hmap p Hp) as [? ?]. split; [done|]. by rewrite B4, S03. }
    rewrite (bind_val _ _ _ _ _ E5).
    destruct (when_step (bool_decide (frame_idx `mod` 500 = 0)%Z) gc_collect s5 C5)
      as (s6 & E6 & C6 & S6 & K6); [by apply gc_collect_step|].
    rewrite (bind_val _ _ _ _ _ E6).
    destruct (IH (frame_idx + 1)%Z s6) as (s7 & E7 & C7 & KF7 & K7 & BN7); [done| |].
    { intros p Hp. destruct (Hmap p Hp) as [? ?]. split; [done|].
      by rewrite S6, BN5, B4, S03. }
    exists s7. split_and!; [done..| | |].
    + rewrite KF7, S6, KF5, KF4, S03. by rewrite <- (assoc_L (++)).
    + rewrite K7, K6, K5, K4, K3, K2, K1. unfold PyDict.len, PyDict.items. lia.
    + by rewrite BN7, S6, BN5, B4, S03.
Qed.

End LoopFacts.

Section CopyPhaseFacts.
Import Job.
Context {F : Type} `{HostFloat F}.
Context (w : world F) (cfg : config F) (r : rigs).
Implicit Types (s : job F) (pairs : list (string * string)).

Lemma keeps_copy_refl s : calm w cfg s → keeps_copy w cfg s s.
Proof. intros Hs. by split; [|split_and!]. Qed.

Lemma keeps_copy_trans s1 s2 s3 :
  keeps_copy w cfg s1 s2 → keeps_copy w cfg s2 s3 → keeps_copy w cfg s1 s3.
Proof.
  intros (?&?&?&?&?) (?&?&?&?&?). split; [done|]. split_and!; congruence.
Qed.

Lemma monitor_step_keeps_copy s s' : monitor_step w cfg s s' → keeps_copy w cfg s s'.
Proof.
  intros (? & Hsc & ?). split; [done|]. split_and!; [|done| |]; by rewrite Hsc.
Qed.

Lemma set_scene_range_keeps_copy a b s :
  calm w cfg s → ∃ s', set_scene_range a b s = (Val tt, s') ∧ keeps_copy w cfg s s'.
Proof. intros Hs. eexists. split; [reflexivity|]. by split; [|split_and!]. Qed.

Lemma mode_set_keeps_copy m s :
  calm w cfg s → ∃ s', mode_set m s = (Val tt, s') ∧ keeps_copy w cfg s s'.
Proof. intros Hs. eexists. split; [reflexivity|]. by split; [|split_and!]. Qed.

Lemma remove_object_keeps_copy o s :
  calm w cfg s → ∃ s', remove_object o s = (Val tt, s') ∧ keeps_copy w cfg s s'.
Proof. intros Hs. eexists. split; [reflexivity|]. by split; [|split_and!]. Qed.

Lemma remove_imported_keeps_copy objs : ∀ s,
  calm w cfg s → ∃ s', remove_imported w objs s = (Val tt, s') ∧ keeps_copy w cfg s s'.
Proof.
  induction objs as [|obj objs IH]; intros s Hs; simpl.
  - exists s. split; [done|by apply keeps_copy_refl].
  - destruct (check_timeout_calm w cfg s 300 Hs) as (s1 & E1 & M1 & _); [lra|].
    rewrite (bind_val _ _ _ _ _ E1).
    destruct (remove_object_keeps_copy obj s1) as (s2 & E2 & K2); [apply M1|].
    rewrite (bind_val _ _ _ _ _ E2).
    destruct (IH s2) as (s3 & E3 & K3); [apply K2|].
    exists s3. split; [done|].
    eapply keeps_copy_trans; [by apply monitor_step_keeps_copy|].
    by eapply keeps_copy_trans.
Qed.

Lemma copy_keyframes_copies bone_mapping start_frame end_frame s :
  calm w cfg s →
  (∀ p, p ∈ PyDict.items bone_mapping → mappable r s p) →
  ∃ s', copy_keyframes w cfg r bone_mapping start_frame end_frame s = (Val tt, s')
    ∧ calm w cfg s'
    ∧ keyframes (scene s') =
        keyframes (scene s)
        ++ transfers w cfg (py_range start_frame (end_frame + 1)) (PyDict.items bone_mapping)
    ∧ keyframes_copied s' =
        (Z.of_nat (length (py_range start_frame (end_frame + 1)))
         * PyDict.len bone_mapping)%Z
    ∧ target_action_frame_range (scene s') = Some (start_frame, end_frame).
Proof.
  intros Hs Hmap. unfold copy_keyframes.
  set (s1 := (set_keyframes_copied 0 s).2).
  assert (set_keyframes_copied 0 s = (Val tt, s1)) as E1 by done.
  rewrite (bind_val _ _ _ _ _ E1).
  assert (calm w cfg s1) as C1 by exact Hs.
  destruct (print_step w cfg s1
    (TotalOperations ((end_frame - start_frame + 1) * PyDict.len bone_mapping)) C1)
    as (s2 & E2 & (C2 & S2 & K2) & _).
  rewrite (bind_val _ _ _ _ _ E2).
  destruct (frame_loop_copies w cfg r bone_mapping (end_frame - start_frame + 1)
    end_frame (py_range start_frame (end_frame + 1)) 0 s2)
    as (s3 & E3 & C3 & KF3 & K3 & BN3); [done| |].
  { intros p Hp. destruct (Hmap p Hp). split; [done|by rewrite S2]. }
  rewrite (bind_val _ _ _ _ _ E3).
  rewrite (bind_val get_keyframes_copied _ s3 (keyframes_copied s3) s3 eq_refl).
  destruct (print_step w cfg s3 (Copied (keyframes_copied s3)) C3)
    as (s4 & E4 & (C4 & S4 & K4) & _).
  rewrite (bind_val _ _ _ _ _ E4).
  eexists. split; [reflexivity|]. simpl.
  split_and!; [exact C4| |by rewrite K4, K3, K2; simpl; lia|done].
  by rewrite S4, KF3, S2.
Qed.

End CopyPhaseFacts.

(** ** The second half of [main] *)
Section TransferFacts.
Import Job.
Context {F : Type} `{HostFloat F}.
Context (w : world F) (cfg : config F) (r : rigs).
Implicit Types (s : job F) (pairs : list (string * string)).

Lemma check_bone_counts_within source_names target_names s :
  calm w cfg s →
  (Z.of_nat (length source_names) ≤ MAX_BONES cfg * 2)%Z →
  (Z.of_nat (length target_names) ≤ MAX_BONES cfg * 2)%Z →
  ∃ s', check_bone_counts cfg source_names target_names s = (Val tt, s')
        ∧ monitor_step w cfg s s'.
Proof.
  intros Hs Hsn Htn. unfold check_bone_counts. apply when_step; [done|].
  destruct (print_step w cfg s (WarningLargeNumberOfBones
    (Z.of_nat (length source_names)) (Z.of_nat (length target_names))) Hs)
    as (s1 & E1 & M1 & _).
  rewrite (bind_val _ _ _ _ _ E1).
  rewrite !bool_decide_eq_false_2 by lia. simpl.
  exists s1. by split.
Qed.

Lemma check_frame_count_within frame_count s :
  calm w cfg s →
  (frame_count ≤ MAX_FRAME_RANGE cfg * 2)%Z →
  ∃ s', check_frame_count cfg frame_count s = (Val tt, s') ∧ monitor_step w cfg s s'.
Proof.
  intros Hs Hfc. unfold check_frame_count. apply when_step; [done|].
  destruct (print_step w cfg s (WarningLargeFrameRange frame_count) Hs)
    as (s1 & E1 & M1 & _).
  rewrite (bind_val _ _ _ _ _ E1).
  rewrite bool_decide_eq_false_2 by lia.
  exists s1. by split.
Qed.

Lemma resolve_frame_range_scene s s1 :
  scene s1 = scene s →
  resolve_frame_range r s1 = ((resolve_frame_range r s).1, s1).
Proof.
  intros Hsc. unfold resolve_frame_range.
  destruct (source_frame_range r) as [[first last]|]; [done|].
  unfold mbind, M_bind, get_scene, mret, M_ret. simpl. by rewrite Hsc.
Qed.

Lemma py_range_lookup a b (i : nat) :
  (Z.of_nat i < b - a)%Z → py_range a b !! i = Some (a + Z.of_nat i)%Z.
Proof. intros Hi. unfold py_range. by apply lookup_seqZ_lt. Qed.

Lemma py_range_length a b : length (py_range a b) = Z.to_nat (b - a).
Proof. unfold py_range. apply length_seqZ. Qed.

Ltac next E := rewrite (bind_val _ _ _ _ _ E).

Lemma transfer_steps s start_frame end_frame :
  calm w cfg s →
  (resolve_frame_range r s).1 = Val (start_frame, end_frame) →
  (end_frame - start_frame + 1 ≤ MAX_FRAME_RANGE cfg * 2)%Z →
  (Z.of_nat (length (source_bone_names r)) ≤ MAX_BONES cfg * 2)%Z →
  (Z.of_nat (length (bone_names (target_pose_bones (scene s)))) ≤ MAX_BONES cfg * 2)%Z →
  let bone_mapping :=
    mapping_of (bone_names (target_pose_bones (scene s))) (source_bone_names r) [] in
  let frames := py_range start_frame (end_frame + 1) in
  ∃ s', transfer w cfg r s = (Val true, s')
    ∧ keyframes (scene s') =
        keyframes (scene s) ++ transfers w cfg frames (PyDict.items bone_mapping)
    ∧ keyframes_copied s' = (Z.of_nat (length frames) * PyDict.len bone_mapping)%Z
    ∧ target_action_frame_range (scene s') = Some (start_frame, end_frame).
Proof.
  intros Hs Hrange Hfc Hsn Htn bone_mapping frames. unfold transfer.
  destruct (print_step w cfg s CreatingBoneMapping Hs) as (s1 & E1 & M1 & _). next E1.
  destruct (check_timeout_calm w cfg s1 300) as (s2 & E2 & M2 & _); [apply M1|lra|]. next E2.
  destruct (check_memory_calm w cfg s2) as (s3 & E3 & M3 & _); [apply M2|]. next E3.
  pose proof (monitor_step_trans _ _ _ _ _ (monitor_step_trans _ _ _ _ _ M1 M2) M3)
    as (C3 & S3 & K3).
  rewrite (bind_val get_scene _ s3 (scene s3) s3 eq_refl). rewrite S3.
  destruct (check_bone_counts_within (source_bone_names r)
    (bone_names (target_pose_bones (scene s))) s3 C3 Hsn Htn) as (s4 & E4 & M4). next E4.
  destruct (build_bone_mapping_calm w cfg (bone_names (target_pose_bones (scene s)))
    (source_bone_names r) [] s4) as (s5 & E5 & M5 & _); [apply M4|]. next E5.
  fold bone_mapping.
  destruct (print_step w cfg s5 (BoneMappingCreated (PyDict.len bone_mapping)))
    as (s6 & E6 & M6 & _); [apply M5|]. next E6.
  destruct (print_step w cfg s6 CopyingAndScaling) as (s7 & E7 & M7 & _); [apply M6|]. next E7.
  destruct (check_timeout_calm w cfg s7 300) as (s8 & E8 & M8 & _); [apply M7|lra|]. next E8.
  destruct (check_memory_calm w cfg s8) as (s9 & E9 & M9 & _); [apply M8|]. next E9.
  assert (monitor_step w cfg s s9) as (C9 & S9 & K9).
  { repeat (eapply monitor_step_trans; [|eassumption]). split; [done|by split]. }
  pose proof (resolve_frame_range_scene s s9 S9) as E9'. rewrite Hrange in E9'.
  next E9'. simpl.
  destruct (check_frame_count_within (end_frame - start_frame + 1) s9 C9 Hfc)
    as (s10 & E10 & M10). next E10.
  destruct (print_step w cfg s10 (ProcessingFrames start_frame end_frame
    (end_frame - start_frame + 1))) as (s11 & E11 & M11 & _); [apply M10|]. next E11.
  rewrite (bind_val get_scene _ s11 (scene s11) s11 eq_refl).
  destruct (print_step w cfg s11 (OriginalSceneRange (frame_start (scene s11))
    (frame_end (scene s11)))) as (s12 & E12 & M12 & _); [apply M11|]. next E12.
  destruct (set_scene_range_keeps_copy w cfg start_frame end_frame s12)
    as (s13 & E13 & K13); [apply M12|]. next E13.
  destruct (print_step w cfg s13 (ExtendedSceneRange start_frame end_frame))
    as (s14 & E14 & M14 & _); [apply K13|]. next E14.
  assert (keeps_copy w cfg s s14) as (C14 & KF14 & KC14 & AR14 & TB14).
  { eapply keeps_copy_trans; [|apply monitor_step_keeps_copy, M14].
    eapply keeps_copy_trans; [|apply K13].
    apply monitor_step_keeps_copy.
    eapply monitor_step_trans; [|apply M12].
    eapply monitor_step_trans; [|apply M11].
    eapply monitor_step_trans; [|apply M10]. by split. }
  destruct (copy_keyframes_copies w cfg r bone_mapping start_frame end_frame s14)
    as (s15 & E15 & C15 & KF15 & KC15 & AR15); [done| |].
  { intros p Hp. apply elem_of_mapping_of in Hp as (? & ? & Hid).
    split; [done|]. by rewrite Hid, TB14. }
  next E15.
  destruct (print_step w cfg s15 CleaningUp C15) as (s16 & E16 & M16 & _). next E16.
  destruct (check_timeout_calm w cfg s16 300) as (s17 & E17 & M17 & _); [apply M16|lra|].
  next E17.
  destruct (mode_set_keeps_copy w cfg OBJECT s17) as (s18 & E18 & K18); [apply M17|]. next E18.
  destruct (remove_imported_keeps_copy w cfg (imported_objects r) s18)
    as (s19 & E19 & K19); [apply K18|]. next E19.
  destruct (print_step w cfg s19 CompletedSuccessfully) as (s20 & E20 & M20 & _);
    [apply K19|]. next E20.
  destruct (print_step w cfg s20 NewActionCreated) as (s21 & E21 & M21 & _);
    [apply M20|]. next E21.
  assert (keeps_copy w cfg s15 s21) as (C21 & KF21 & KC21 & AR21 & TB21).
  { eapply keeps_copy_trans; [|apply monitor_step_keeps_copy, M21].
    eapply keeps_copy_trans; [|apply monitor_step_keeps_copy, M20].
    eapply keeps_copy_trans; [|apply K19].
    eapply keeps_copy_trans; [|apply K18].
    apply monitor_step_keeps_copy. by eapply monitor_step_trans. }
  eexists. split; [reflexivity|]. simpl.
  split_and!; [by rewrite KF21, KF15, KF14|by rewrite KC21|by rewrite AR21].
Qed.

End TransferFacts.

(** ** Runs that end normally *)
Section SilentFacts.
Import Job.
Context {F : Type} `{HostFloat F}.
Context (w : world F) (cfg : config F) (r : rigs).
Implicit Types (s : job F).

Lemma silent_ret {A} (a : A) : silent (F:=F) (A:=A) (mret a).
Proof. by intros s a' s' [= _ <-]. Qed.

Lemma silent_bind {A B} (m : @Run F A) (k : A → @Run F B) :
  silent m → (∀ a, silent (k a)) → silent (m ≫= k).
Proof.
  intros Hm Hk s b s' (a & s1 & H1 & H2)%bind_val_inv.
  destruct (Hm _ _ _ H1) as [<- <-]. by apply (Hk a s1 b s').
Qed.

Lemma silent_when (c : bool) (m : @Run F unit) : silent m → silent (when c m).
Proof. intros Hm. destruct c; [done|apply silent_ret]. Qed.

Lemma silent_time_time : silent (time_time w).
Proof. by intros s a s' [= _ <-]. Qed.

Lemma silent_get_monitor : silent (@get_monitor F).
Proof. by intros s a s' [= _ <-]. Qed.

Lemma silent_set_monitor m : silent (@set_monitor F m).
Proof. by intros s a s' [= _ <-]. Qed.

Lemma silent_print l : silent (@print F l).
Proof. by intros s a s' [= _ <-]. Qed.

Lemma silent_gc_collect : silent (@gc_collect F).
Proof. by intros s a s' [= _ <-]. Qed.

Lemma silent_raise {A} e : silent (F:=F) (A:=A) (raise e).
Proof. by intros s a s' [=]. Qed.

Lemma silent_return {A} b : silent (F:=F) (A:=A) (return_ b).
Proof. by intros s a s' [=]. Qed.

Lemma silent_check_timeout max_seconds : silent (check_timeout w max_seconds).
Proof.
  unfold check_timeout. apply silent_bind; [apply silent_time_time|intros now].
  apply silent_bind; [apply silent_get_monitor|intros m].
  destruct (Qgtb _ _); [apply silent_raise|apply silent_ret].
Qed.

Lemma silent_check_memory max_mb : silent (check_memory w max_mb).
Proof.
  unfold check_memory. apply silent_bind; [by intros s a s' [= _ <-]|intros [bytes|]].
  - destruct (Qgtb _ _); [apply silent_raise|apply silent_ret].
  - apply silent_ret.
Qed.

Lemma silent_check_progress current_frame : silent (check_progress w current_frame).
Proof.
  unfold check_progress. apply silent_bind; [apply silent_time_time|intros now].
  apply silent_bind; [apply silent_get_monitor|intros m].
  destruct (Qgtb _ _); [apply silent_raise|].
  destruct current_frame as [frame|]; [|apply silent_ret].
  apply silent_bind; [apply silent_set_monitor|intros _].
  apply silent_when, silent_bind; [apply silent_print|intros _].
  apply silent_bind; [apply silent_set_monitor|intros _]. apply silent_gc_collect.
Qed.

Lemma silent_check_bone_counts source_names target_names :
  silent (check_bone_counts cfg source_names target_names).
Proof.
  unfold check_bone_counts. apply silent_when, silent_bind; [apply silent_print|intros _].
  destruct (_ || _); [|apply silent_ret].
  apply silent_bind; [apply silent_print|intros _]. apply silent_return.
Qed.

Lemma silent_check_frame_count frame_count : silent (check_frame_count cfg frame_count).
Proof.
  unfold check_frame_count. apply silent_when, silent_bind; [apply silent_print|intros _].
  destruct (bool_decide _); [|apply silent_ret].
  apply silent_bind; [apply silent_print|intros _]. apply silent_return.
Qed.

Lemma silent_resolve_frame_range : silent (F:=F) (resolve_frame_range r).
Proof.
  unfold resolve_frame_range. destruct (source_frame_range r) as [[first last]|].
  - apply silent_ret.
  - by intros s a s' [= _ <-].
Qed.

Lemma silent_build_bone_mapping target_names source_names : ∀ acc,
  silent (build_bone_mapping w target_names source_names acc).
Proof.
  induction source_names as [|n source_names IH]; intros acc; simpl.
  - apply silent_ret.
  - apply silent_bind; [apply silent_check_timeout|intros _]. apply IH.
Qed.

(** The mapping the loop returns does not depend on the monitor. *)
Lemma build_bone_mapping_value target_names source_names : ∀ acc s bone_mapping s',
  build_bone_mapping w target_names source_names acc s = (Val bone_mapping, s') →
  bone_mapping = mapping_of target_names source_names acc.
Proof.
  induction source_names as [|n source_names IH]; intros acc s bone_mapping s'; simpl.
  - by intros [= <- _].
  - intros (_ & s1 & _ & Hrest)%bind_val_inv. by apply IH in Hrest.
Qed.

Lemma resolve_frame_range_value s range s' :
  resolve_frame_range r s = (Val range, s') → (resolve_frame_range r s).1 = Val range.
Proof. by intros ->. Qed.

End SilentFacts.

Section NormalRuns.
Import Job.
Context {F : Type} `{HostFloat F}.
Context (w : world F) (cfg : config F) (r : rigs).
Implicit Types (s : job F) (pairs : list (string * string)).

Lemma bone_loop_effect frame pairs : ∀ bone_idx s s',
  frame_current (scene s) = frame →
  (∀ p, p ∈ pairs → mappable r s p) →
  bone_loop w cfg r frame bone_idx pairs s = (Val tt, s') →
  keyframes (scene s') = keyframes (scene s) ++ flat_map (bone_keyframes w cfg frame) pairs
  ∧ keyframes_copied s' = (keyframes_copied s + Z.of_nat (length pairs))%Z
  ∧ frame_current (scene s') = frame
  ∧ bone_names (target_pose_bones (scene s')) = bone_names (target_pose_bones (scene s)).
Proof.
  induction pairs as [|[sn tn] pairs IH]; intros bone_idx s s' Hframe Hpairs; simpl.
  - intros [= <-]. split_and!; [by rewrite app_nil_r|lia|done|done].
  - intros ([] & s1 & E1 & ([] & s2 & E2 & E3)%bind_val_inv)%bind_val_inv.
    apply silent_when in E1 as [S1 K1]; [|apply silent_check_timeout].
    destruct (Hpairs (sn, tn)) as [Hsn Htn]; [left|]. simpl in Hsn, Htn.
    destruct (transfer_bone_effect w cfg r s1 frame sn tn)
      as (s2' & E2' & _ & KF2 & _ & K2 & FR2 & BN2); [done|by rewrite S1|].
    rewrite E2 in E2'. injection E2' as <-.
    specialize (KF2 ltac:(by rewrite S1)). rewrite S1, Hframe in FR2.
    apply IH in E3 as (KF3 & K3 & FR3 & BN3); [|done|].
    + split_and!; [|lia|done|by rewrite BN3, BN2, S1].
      rewrite KF3, KF2, S1. by rewrite <- (assoc_L (++)).
    + intros p Hp. destruct (Hpairs p) as [? ?]; [by right|].
      split; [done|]. by rewrite BN2, S1.
Qed.

Lemma frame_loop_effect bone_mapping frame_count end_frame frames : ∀ frame_idx s s',
  (∀ p, p ∈ PyDict.items bone_mapping → mappable r s p) →
  frame_loop w cfg r bone_mapping frame_count end_frame frame_idx frames s = (Val tt, s') →
  keyframes (scene s') =
    keyframes (scene s) ++ transfers w cfg frames (PyDict.items bone_mapping)
  ∧ keyframes_copied s' =
      (keyframes_copied s + Z.of_nat (length frames) * PyDict.len bone_mapping)%Z
  ∧ bone_names (target_pose_bones (scene s')) = bone_names (target_pose_bones (scene s)).
Proof.
  induction frames as [|frame frames IH]; intros frame_idx s s' Hmap; simpl.
  - intros [= <-]. split_and!; [by rewrite app_nil_r|lia|done].
  - intros ([] & s1 & E1 & ([] & s2 & E2 & ([] & s3 & E3 & ([] & s4 & E4 &
      ([] & s5 & E5 & ([] & s6 & E6 & E7)%bind_val_inv)%bind_val_inv)%bind_val_inv
      )%bind_val_inv)%bind_val_inv)%bind_val_inv.
    apply silent_check_timeout in E1 as [S1 K1].
    apply silent_check_progress in E2 as [S2 K2].
    apply silent_when in E3 as [S3 K3];
      [|apply silent_bind; [apply silent_check_memory|intros _; apply silent_print]].
    injection E4 as <-. simpl in *.
    assert (scene s3 = scene s) as S03 by congruence.
    apply bone_loop_effect in E5 as (KF5 & K5 & FR5 & BN5); [|done|].
    2:{ intros p Hp. destruct (Hmap p Hp). split; [done|]. simpl. by rewrite S03. }
    apply silent_when in E6 as [S6 K6]; [|apply silent_gc_collect].
    apply IH in E7 as (KF7 & K7 & BN7).
    2:{ intros p Hp. destruct (Hmap p Hp). split; [done|]. by rewrite S6, BN5; simpl; rewrite S03. }
    simpl in *. split_and!.
    + rewrite KF7, S6, KF5, S03. by rewrite <- (assoc_L (++)).
    + rewrite K7, K6, K5, K3, K2, K1. unfold PyDict.len, PyDict.items. lia.
    + by rewrite BN7, S6, BN5, S03.
Qed.

Lemma copy_keyframes_effect bone_mapping start_frame end_frame s s' :
  (∀ p, p ∈ PyDict.items bone_mapping → mappable r s p) →
  copy_keyframes w cfg r bone_mapping start_frame end_frame s = (Val tt, s') →
  keyframes (scene s') =
    keyframes (scene s)
    ++ transfers w cfg (py_range start_frame (end_frame + 1)) (PyDict.items bone_mapping)
  ∧ keyframes_copied s' =
      (Z.of_nat (length (py_range start_frame (end_frame + 1)))
       * PyDict.len bone_mapping)%Z
  ∧ target_action_frame_range (scene s') = Some (start_frame, end_frame).
Proof.
  intros Hmap. unfold copy_keyframes.
  intros ([] & s1 & E1 & ([] & s2 & E2 & ([] & s3 & E3 & (n & s4 & E4 &
    ([] & s5 & E5 & ([] & s6 & E6 & E7)%bind_val_inv)%bind_val_inv)%bind_val_inv
    )%bind_val_inv)%bind_val_inv)%bind_val_inv.
  injection E1 as <-. apply silent_print in E2 as [S2 K2]. simpl in *.
  apply frame_loop_effect in E3 as (KF3 & K3 & BN3).
  2:{ intros p Hp. destruct (Hmap p Hp). split; [done|]. by rewrite S2. }
  injection E4 as <- <-. apply silent_print in E5 as [S5 K5].
  injection E6 as <-. apply silent_print in E7 as [S7 K7]. simpl in *.
  rewrite S7, K7. simpl. rewrite S5, K5. split_and!; [|lia|done].
  by rewrite KF3, S2.
Qed.


Lemma kept_refl s : kept s s.
Proof. by split_and!. Qed.

Lemma kept_trans s1 s2 s3 : kept s1 s2 → kept s2 s3 → kept s1 s3.
Proof. intros (?&?&?&?) (?&?&?&?). split_and!; congruence. Qed.

Lemma silent_kept {A} (m : @Run F A) s a s' : silent m → m s = (Val a, s') → kept s s'.
Proof. intros Hm [Hsc Hk]%Hm. split_and!; [|done| |]; by rewrite Hsc. Qed.

Lemma remove_imported_effect objs : ∀ s s',
  remove_imported w objs s = (Val tt, s') → kept s s'.
Proof.
  induction objs as [|obj objs IH]; intros s s'; simpl.
  - intros [= <-]. apply kept_refl.
  - intros ([] & s1 & E1 & ([] & s2 & E2 & E3)%bind_val_inv)%bind_val_inv.
    apply (silent_kept _ _ _ _ (silent_check_timeout w 300)) in E1.
    injection E2 as <-. apply IH in E3.
    eapply kept_trans; [exact E1|]. eapply kept_trans; [|exact E3]. by split_and!.
Qed.

(** Take the next statement off a run that ended normally. *)
Ltac unbind H s E :=
  let a := fresh "a" in apply bind_val_inv in H as (a & s & E & H).

Lemma transfer_effect s start_frame end_frame b s' :
  (resolve_frame_range r s).1 = Val (start_frame, end_frame) →
  transfer w cfg r s = (Val b, s') →
  let bone_mapping :=
    mapping_of (bone_names (target_pose_bones (scene s))) (source_bone_names r) [] in
  let frames := py_range start_frame (end_frame + 1) in
  b = true
  ∧ keyframes (scene s') =
      keyframes (scene s) ++ transfers w cfg frames (PyDict.items bone_mapping)
  ∧ keyframes_copied s' = (Z.of_nat (length frames) * PyDict.len bone_mapping)%Z
  ∧ target_action_frame_range (scene s') = Some (start_frame, end_frame).
Proof.
  intros Hrange Hrun bone_mapping frames. unfold transfer in Hrun.
  unbind Hrun s1 E1. unbind Hrun s2 E2. unbind Hrun s3 E3. unbind Hrun s4 E4. unbind Hrun s5 E5.
  unbind Hrun s6 E6. unbind Hrun s7 E7. unbind Hrun s8 E8. unbind Hrun s9 E9. unbind Hrun s10 E10.
  unbind Hrun s11 E11. simpl in Hrun.
  unbind Hrun s12 E12. unbind Hrun s13 E13. unbind Hrun s14 E14. unbind Hrun s15 E15. unbind Hrun s16 E16.
  unbind Hrun s17 E17. unbind Hrun s18 E18. unbind Hrun s19 E19. unbind Hrun s20 E20. unbind Hrun s21 E21.
  unbind Hrun s22 E22. unbind Hrun s23 E23. unbind Hrun s24 E24. unbind Hrun s25 E25. unbind Hrun s26 E26.
  unbind Hrun s27 E27. unbind Hrun s28 E28.
  injection Hrun as <- <-.
  repeat match goal with u : unit |- _ => destruct u end.
  apply silent_print in E1 as [S1 _]. apply silent_check_timeout in E2 as [S2 _].
  apply silent_check_memory in E3 as [S3 _]. injection E4 as <- <-.
  apply silent_check_bone_counts in E5 as [S5 _].
  pose proof (build_bone_mapping_value _ _ _ _ _ _ _ E6) as ->.
  apply silent_build_bone_mapping in E6 as [S6 _].
  apply silent_print in E7 as [S7 _]. apply silent_print in E8 as [S8 _].
  apply silent_check_timeout in E9 as [S9 _]. apply silent_check_memory in E10 as [S10 _].
  assert (scene s10 = scene s) as S010 by congruence.
  rewrite (resolve_frame_range_scene r s s10 S010), Hrange in E11.
  injection E11 as <- <-. simpl in *.
  apply silent_check_frame_count in E12 as [S12 _]. apply silent_print in E13 as [S13 _].
  injection E14 as <- <-. apply silent_print in E15 as [S15 _].
  injection E16 as <-. apply silent_print in E17 as [S17 _].
  assert (scene s3 = scene s) as S03 by congruence. rewrite S03 in *.
  apply copy_keyframes_effect in E18 as (KF18 & K18 & A18).
  2:{ intros p Hp. apply elem_of_mapping_of in Hp as (? & ? & Hid).
      split; [done|]. rewrite Hid, S17. simpl. by rewrite S15, S13, S12, S010. }
  apply (silent_kept _ _ _ _ (silent_print _)) in E19.
  apply (silent_kept _ _ _ _ (silent_check_timeout w 300)) in E20.
  injection E21 as <-. apply remove_imported_effect in E22.
  apply (silent_kept _ _ _ _ (silent_print _)) in E23.
  apply (silent_kept _ _ _ _ (silent_print _)) in E24.
  injection E25 as <- <-. injection E26 as <- <-.
  apply (silent_kept _ _ _ _ (silent_print _)) in E27.
  apply (silent_kept _ _ _ _ (silent_print _)) in E28.
  assert (kept s18 s28) as (KF & K & A & _).
  { eapply kept_trans; [exact E19|]. eapply kept_trans; [exact E20|].
    eapply kept_trans; [|eapply kept_trans; [exact E22|]].
    { by split_and!. }
    eapply kept_trans; [exact E23|]. eapply kept_trans; [exact E24|].
    eapply kept_trans; [|eapply kept_trans; [exact E27|exact E28]]. by split_and!. }
  split_and!; [done| |by rewrite K, K18|by rewrite A, A18].
  rewrite KF, KF18, S17. simpl. by rewrite S15, S13, S12, S010.
Qed.

End NormalRuns.

(** ** The model at work *)

Section Examples.
Import Job Scenario.

(** Three frames and two shared bones: six transfers, the scene range
    widened, the imported objects removed. *)
Example small_walk :
  let run := main_from_mapping walk_world limits (walk_rigs 2 3) (entering 2) in
  run.1 = true
  ∧ keyframes_copied run.2 = 6%Z
  ∧ length (keyframes (scene run.2)) = 18%nat
  ∧ keyframes (scene run.2) !! 12%nat =
      Some (mkKeyframe Q "Bone.0" Location 3
              (VVector (mkVector Q (3 # 2) (6 # 2) (0 # 2))))
  ∧ target_action_frame_range (scene run.2) = Some (1%Z, 3%Z)
  ∧ (frame_start (scene run.2), frame_end (scene run.2)) = (1%Z, 3%Z)
  ∧ data_objects (scene run.2) = ["Armature"; "Body"]
  ∧ last (stdout run.2) = Some ResultSuccess.
Proof. by vm_compute. Qed.

(** The monitor stops a job that is late or too large, and [main] turns
    that into a failed result. *)
Example late_job :
  let run := main_from_mapping late_world limits (walk_rigs 2 3) (entering 2) in
  run.1 = false
  ∧ stdout run.2 = [CreatingBoneMapping; SafetyError (TimedOut (405 - 5)); ResultFailed]
  ∧ keyframes (scene run.2) = [].
Proof. by vm_compute. Qed.

Example bloated_job :
  let run := main_from_mapping bloated_world limits (walk_rigs 2 3) (entering 2) in
  run.1 = false ∧ last (stdout run.2) = Some ResultFailed
  ∧ exit_code run.1 = 1%Z.
Proof. by vm_compute. Qed.

(** A frame range of 20001 frames is refused before anything is copied. *)
Example long_walk :
  let run := main_from_mapping walk_world limits (walk_rigs 2 20001) (entering 2) in
  run.1 = false
  ∧ stdout run.2 =
      [CreatingBoneMapping; BoneMappingCreated 2; CopyingAndScaling;
       WarningLargeFrameRange 20001; ErrorFrameRangeTooLarge]
  ∧ keyframes (scene run.2) = [].
Proof. by vm_compute. Qed.

Example output_names :
  Supervisor.create_output_filename "/anims/walk.blend" "/rigs/hero.v2.blend"
    = "/anims/walk_to_hero.v2.blend"
  ∧ Supervisor.create_output_filename "walk.blend" "hero.blend" = "walk_to_hero.blend".
Proof. by vm_compute. Qed.

Example job_body_lines :
  Supervisor.create_blender_script (λ _ : Q, "0.5") "import bpy" "def main():" "main()"
    "/anims/walk.blend" (1 # 2) 10000 1000 4096
  = "import bpy" +:+ "MAX_FRAME_RANGE = 10000" +:+ Supervisor.newline
    +:+ "MAX_BONES = 1000" +:+ Supervisor.newline
    +:+ "MAX_MEMORY_MB = 4096" +:+ Supervisor.newline
    +:+ "def main():"
    +:+ "    source_file = r" +:+ Supervisor.dquote +:+ "/anims/walk.blend"
    +:+ Supervisor.dquote +:+ Supervisor.newline
    +:+ "    scale_factor = 0.5" +:+ Supervisor.newline
    +:+ "main()".
Proof. by vm_compute. Qed.

End Examples.

(** ** Properties of the job *)

Section JobClaims.
Import Job.
Context {F : Type} `{HostFloat F}.
Context (w : world F) (cfg : config F) (r : rigs).
Implicit Types (s : job F).

(** The loop that builds the mapping can only end normally or by the
    monitor's timeout; the names never make it fail. *)
Lemma build_bone_mapping_outcome target_names source_names : ∀ acc s,
  (build_bone_mapping w target_names source_names acc s).1
    = Val (mapping_of target_names source_names acc)
  ∨ ∃ elapsed,
      (build_bone_mapping w target_names source_names acc s).1 = Raise (TimedOut elapsed).
Proof.
  induction source_names as [|n source_names IH]; intros acc s; simpl; [by left|].
  unfold mbind, M_bind at 1.
  unfold check_timeout, mbind, mret, M_bind, M_ret, time_time, get_monitor, raise. simpl.
  destruct (Qgtb _ _); simpl; [right; eauto|]. apply IH.
Qed.


(** C2. Whatever the two name lists are, a mapping returned by the loop
    that builds it has as key set the intersection of the source and target
    names; every key and every value is a name of both rigs, and no key
    occurs twice. The loop returns such a mapping on every calm run, and in
    any run it either returns it or is stopped by the monitor's timeout:
    a name that only one rig has is skipped, never an error. *)
Theorem bone_mapping_is_intersection (target_names source_names : list string) s :
  (∀ bone_mapping s',
     build_bone_mapping w target_names source_names [] s = (Val bone_mapping, s') →
     list_to_set (PyDict.keys bone_mapping)
       =@{gset string} list_to_set source_names ∩ list_to_set target_names
     ∧ (∀ k v, (k, v) ∈ PyDict.items bone_mapping →
          k ∈ source_names ∧ k ∈ target_names ∧ v ∈ source_names ∧ v ∈ target_names)
     ∧ NoDup (PyDict.keys bone_mapping))
  ∧ (calm w cfg s →
     ∃ bone_mapping s',
       build_bone_mapping w target_names source_names [] s = (Val bone_mapping, s'))
  ∧ ((∃ bone_mapping,
        (build_bone_mapping w target_names source_names [] s).1 = Val bone_mapping)
     ∨ ∃ elapsed,
        (build_bone_mapping w target_names source_names [] s).1 = Raise (TimedOut elapsed)).
Proof.
  split_and!.
  - intros bone_mapping s' ->%build_bone_mapping_value. split_and!.
    + apply set_eq. intros x.
      rewrite elem_of_intersection, !elem_of_list_to_set, elem_of_keys_mapping_of.
      split; [|tauto]. intros [Hx|?]; [|done]. by apply elem_of_nil in Hx.
    + intros k v Hkv. apply elem_of_mapping_of in Hkv as (? & ? & Hid).
      simpl in *. by subst v.
    + apply NoDup_keys_mapping_of. constructor.
  - intros Hs.
    destruct (build_bone_mapping_calm w cfg target_names source_names [] s Hs)
      as (s' & Hrun & _). eauto.
  - destruct (build_bone_mapping_outcome target_names source_names [] s); eauto.
Qed.

(** C10. A mapping built from the two rigs maps every key to itself; and
    for every entry of it, in any later state in which the target rig still
    has the same bones, both membership tests of the copy loop succeed, so
    that the transfer is done: three keyframes are inserted and the counter
    of transfers goes up by one. Such a mapping is built on every calm
    run. *)
Theorem mapped_bones_keep_their_name_and_pass_the_guard s :
  let target_names := bone_names (target_pose_bones (scene s)) in
  (∀ bone_mapping s',
     build_bone_mapping w target_names (source_bone_names r) [] s = (Val bone_mapping, s') →
     (∀ k v, (k, v) ∈ PyDict.items bone_mapping → v = k)
     ∧ (∀ k v st frame,
          (k, v) ∈ PyDict.items bone_mapping →
          bone_names (target_pose_bones (scene st)) = target_names →
          is_Some (find_bone v (target_pose_bones (scene st)))
          ∧ (source_bone w r k st).1
              = Val (Some (source_pose w k (frame_current (scene st))))
          ∧ ∃ st', transfer_bone w cfg r frame k v st = (Val tt, st')
              ∧ keyframes_copied st' = (keyframes_copied st + 1)%Z
              ∧ length (keyframes (scene st'))
                  = (length (keyframes (scene st)) + 3)%nat))
  ∧ (calm w cfg s →
     ∃ bone_mapping s',
       build_bone_mapping w target_names (source_bone_names r) [] s
         = (Val bone_mapping, s')).
Proof.
  intros target_names. split.
  - intros bone_mapping s' ->%build_bone_mapping_value. split.
    + intros k v Hkv. by apply elem_of_mapping_of in Hkv as (_ & _ & Hid).
    + intros k v st frame Hkv Hbones.
      apply elem_of_mapping_of in Hkv as (Hk & Hv & Hid). simpl in *. subst v.
      split_and!.
      * apply find_bone_elem_of. by rewrite Hbones.
      * unfold source_bone, mbind, mret, M_bind, M_ret, get_scene. simpl.
        by rewrite bool_decide_eq_true_2.
      * destruct (transfer_bone_effect w cfg r st frame k k)
          as (st' & Hrun & _ & _ & Hlen & Hcopied & _); [done|by rewrite Hbones|].
        by exists st'.
  - intros Hs.
    destruct (build_bone_mapping_calm w cfg target_names (source_bone_names r) [] s Hs)
      as (s' & Hrun & _). eauto.
Qed.

End JobClaims.

(** ** The end-to-end scenario: frames 1 to 250, 40 shared bones, scale 1/2 *)

Section ScenarioFacts.
Import Job Scenario.

Lemma walk_world_calm bones : calm walk_world limits (entering bones).
Proof.
  split_and!.
  - intros i. by vm_compute.
  - intros i. by vm_compute.
  - intros i j. by vm_compute.
  - intros i bytes [= <-]. by vm_compute.
Defined.


Lemma bone_mapping_is_intersection_witness :
  ∃ bone_mapping s',
    build_bone_mapping walk_world ["Hips"; "Spine"; "Helmet"] ["Root"; "Spine"; "Hips"] []
      (entering 2) = (Val bone_mapping, s')
    ∧ list_to_set (PyDict.keys bone_mapping) =@{gset string} {["Hips"; "Spine"]}.
Proof.
  destruct (bone_mapping_is_intersection walk_world limits
              ["Hips"; "Spine"; "Helmet"] ["Root"; "Spine"; "Hips"] (entering 2))
    as (Hkeys & Hends & _).
  destruct (Hends (walk_world_calm 2)) as (bone_mapping & s' & Hrun).
  exists bone_mapping, s'. split; [exact Hrun|].
  destruct (Hkeys bone_mapping s' Hrun) as (-> & _). by vm_compute.
Defined.

Lemma mapped_bones_keep_their_name_and_pass_the_guard_witness :
  ∃ bone_mapping s',
    build_bone_mapping walk_world (bone_names (target_pose_bones (scene (entering 2))))
      (source_bone_names (walk_rigs 2 3)) [] (entering 2) = (Val bone_mapping, s')
    ∧ ∀ k v, (k, v) ∈ PyDict.items bone_mapping → v = k.
Proof.
  destruct (mapped_bones_keep_their_name_and_pass_the_guard walk_world limits
              (walk_rigs 2 3) (entering 2)) as (Hguard & Hends).
  destruct (Hends (walk_world_calm 2)) as (bone_mapping & s' & Hrun).
  exists bone_mapping, s'. split; [exact Hrun|].
  by destruct (Hguard bone_mapping s' Hrun) as (Hid & _).
Defined.

End ScenarioFacts.

(** ** The job limits and the monitor's memory check *)

Section LimitFacts.
Import Job.
Context {F : Type} `{HostFloat F}.
Context (w : world F) (cfg : config F).
Implicit Types (s : job F).

(** C3, as amended. A frame count up to [max_frames] (so also one equal
    to it) passes and prints nothing; one above [max_frames] and up to
    [2 * max_frames] passes and prints the warning only; one above both
    [max_frames] and [2 * max_frames] (for a count that is not negative: one
    above [2 * max_frames]) prints the warning and the error and makes
    [main] return [False]. The same holds for the larger of the two bone
    counts against [max_bones]. *)
Theorem count_limits_follow_the_doubling_law (frame_count : Z)
    (source_names target_names : list string) s :
  let frames := check_frame_count cfg frame_count s in
  let bones := check_bone_counts cfg source_names target_names s in
  let ns := Z.of_nat (length source_names) in
  let nt := Z.of_nat (length target_names) in
  ((frame_count ≤ MAX_FRAME_RANGE cfg)%Z → frames = (Val tt, s))
  ∧ ((MAX_FRAME_RANGE cfg < frame_count ≤ MAX_FRAME_RANGE cfg * 2)%Z →
       frames.1 = Val tt
       ∧ stdout frames.2 = stdout s ++ [WarningLargeFrameRange frame_count])
  ∧ ((MAX_FRAME_RANGE cfg < frame_count)%Z ∨ (0 ≤ frame_count)%Z →
     (MAX_FRAME_RANGE cfg * 2 < frame_count)%Z →
       frames.1 = Return false
       ∧ stdout frames.2 =
           stdout s ++ [WarningLargeFrameRange frame_count; ErrorFrameRangeTooLarge])
  ∧ ((ns `max` nt ≤ MAX_BONES cfg)%Z → bones = (Val tt, s))
  ∧ ((MAX_BONES cfg < ns `max` nt ≤ MAX_BONES cfg * 2)%Z →
       bones.1 = Val tt
       ∧ stdout bones.2 = stdout s ++ [WarningLargeNumberOfBones ns nt])
  ∧ ((MAX_BONES cfg * 2 < ns `max` nt)%Z →
       bones.1 = Return false
       ∧ stdout bones.2 =
           stdout s ++ [WarningLargeNumberOfBones ns nt; ErrorTooManyBones]).
Proof.
  intros frames bones ns nt.
  unfold frames, bones, check_frame_count, check_bone_counts, when,
    mbind, mret, M_bind, M_ret, print, return_.
  fold ns nt. split_and!.
  - intros Hcount. by rewrite bool_decide_eq_false_2 by lia.
  - intros Hcount. rewrite bool_decide_eq_true_2 by lia. simpl.
    by rewrite bool_decide_eq_false_2 by lia.
  - intros Hside Hcount. rewrite bool_decide_eq_true_2 by lia. simpl.
    rewrite bool_decide_eq_true_2 by lia. simpl.
    by rewrite <- (assoc_L (++)).
  - intros Hcount. by rewrite !bool_decide_eq_false_2 by lia.
  - intros Hcount.
    destruct (bool_decide (ns > MAX_BONES cfg)%Z || bool_decide (nt > MAX_BONES cfg)%Z)
      eqn:Hwarn.
    + simpl. by rewrite !bool_decide_eq_false_2 by lia.
    + apply orb_false_iff in Hwarn as [?%bool_decide_eq_false ?%bool_decide_eq_false]. lia.
  - intros Hcount.
    destruct (bool_decide (ns > MAX_BONES cfg)%Z || bool_decide (nt > MAX_BONES cfg)%Z)
      eqn:Hwarn.
    + simpl.
      destruct (bool_decide (ns > MAX_BONES cfg * 2)%Z
                || bool_decide (nt > MAX_BONES cfg * 2)%Z) eqn:Herr.
      * simpl. by rewrite <- (assoc_L (++)).
      * apply orb_false_iff in Herr as [?%bool_decide_eq_false ?%bool_decide_eq_false]. lia.
    + apply orb_false_iff in Hwarn as [?%bool_decide_eq_false ?%bool_decide_eq_false]. lia.
Qed.

(** When [psutil] cannot be imported, [check_memory] does nothing but
    count the attempt, whatever the limit is. *)
Lemma check_memory_unavailable max_mb s :
  rss w (probes s) = None →
  check_memory w max_mb s =
    (Val tt, mkJob F (ticks s) (S (probes s)) (monitor s) (stdout s) (gc_runs s)
               (keyframes_copied s) (scene s)).
Proof.
  intros Hrss. unfold check_memory, mbind, mret, M_bind, M_ret, memory_probe. simpl.
  by rewrite Hrss.
Qed.

End LimitFacts.

Section LimitScenario.
Import Job Scenario.

(** C3, as stated, fails: with the default limit of 10000 frames, a frame
    count of exactly 10000 passes, but no warning is printed. *)
Lemma frame_count_at_limit_prints_no_warning :
  let run := check_frame_count limits 10000 (entering 2) in
  ¬ (run.1 = Val tt ∧ WarningLargeFrameRange 10000 ∈ stdout run.2).
Proof. intros run [_ Hwarn]. vm_compute in Hwarn. by apply elem_of_nil in Hwarn. Qed.

Lemma count_limits_follow_the_doubling_law_witness :
  (check_frame_count limits 10000 (entering 2)).1 = Val tt
  ∧ stdout (check_frame_count limits 10000 (entering 2)).2 = []
  ∧ (check_frame_count limits 20001 (entering 2)).1 = Return false
  ∧ (check_bone_counts limits (shared_bones 2001) [] (entering 2)).1 = Return false.
Proof.
  destruct (count_limits_follow_the_doubling_law limits 10000 [] [] (entering 2))
    as (Hat & _).
  destruct (count_limits_follow_the_doubling_law limits 20001 (shared_bones 2001) []
              (entering 2)) as (_ & _ & Hover & _ & _ & Hbones).
  split_and!.
  - rewrite Hat; [done|]. by vm_compute.
  - rewrite Hat; [done|]. by vm_compute.
  - apply Hover; [right|]; by vm_compute.
  - apply Hbones. by vm_compute.
Defined.

End LimitScenario.

(** ** The supervisor *)

Section SupervisorFacts.
Import Supervisor.

Lemma append_cons (c : ascii) (s t : string) : String c s +:+ t = String c (s +:+ t).
Proof. reflexivity. Qed.

Lemma prefix_app (needle hay : string) :
  String.prefix needle hay = true ↔ ∃ after, hay = needle +:+ after.
Proof.
  revert hay. induction needle as [|a needle IH]; intros hay; simpl.
  - split; [by exists hay|]. by destruct hay.
  - destruct hay as [|b hay]; simpl.
    + split; [done|]. by intros [? ?].
    + destruct (Ascii.ascii_dec a b) as [->|Hne].
      * rewrite IH. split; intros [after Hafter]; exists after;
          rewrite append_cons in *; congruence.
      * split; [done|]. intros [after [=]]. done.
Qed.

Lemma contains_nil (needle : string) :
  contains needle "" = String.prefix needle "" || false.
Proof. reflexivity. Qed.

Lemma contains_cons (needle : string) (c : ascii) (hay : string) :
  contains needle (String c hay) =
    String.prefix needle (String c hay) || contains needle hay.
Proof. reflexivity. Qed.

Lemma contains_app (needle hay : string) :
  contains needle hay = true ↔ ∃ before after, hay = before +:+ needle +:+ after.
Proof.
  induction hay as [|c hay IH].
  - rewrite contains_nil, orb_true_iff, prefix_app. split.
    + intros [[after Hafter]|?]; [|done]. by exists "", after.
    + intros (before & after & Hhay). left. destruct before; [by exists after|done].
  - rewrite contains_cons, orb_true_iff, prefix_app, IH. split.
    + intros [[after Hafter]|(before & after & Hhay)].
      * by exists "", after.
      * exists (String c before), after. by rewrite append_cons, Hhay.
    + intros (before & after & Hhay). destruct before as [|c' before].
      * left. by exists after.
      * right. exists before, after. rewrite append_cons in Hhay. congruence.
Qed.

(** C4. When the target was copied, the host was started and the polling
    loop ends because the host has exited, [process_single_transfer] returns a boolean, and it is
    [True] exactly when the exit code is 0 and ["RESULT: SUCCESS"] occurs in
    the captured standard output; so an exit code of 0 without the sentinel
    gives [False]. *)
Theorem natural_exit_succeeds_iff_zero_and_sentinel {F} (source_file target_file : string)
    (args : Args F) (e : env) (files : gset string) :
  copy_succeeds e = true →
  launch_succeeds e = true →
  monitor_process (timeout args) (max_memory args) (start_time (host_run e))
    (polls (host_run e)) = Exited →
  ∃ success,
    (process_single_transfer source_file target_file args e files).1 = Returned success
    ∧ (success = true ↔
         returncode (host_run e) = 0%Z
         ∧ ∃ before after, stdout (host_run e) = before +:+ "RESULT: SUCCESS" +:+ after)
    ∧ (returncode (host_run e) = 0%Z →
       contains "RESULT: SUCCESS" (stdout (host_run e)) = false → success = false).
Proof.
  intros Hcopy Hlaunch Hexit. unfold process_single_transfer.
  rewrite Hcopy, Hlaunch, Hexit. simpl.
  exists (succeeded (returncode (host_run e)) (stdout (host_run e))).
  split; [by destruct (succeeded _ _)|]. unfold succeeded, sentinel. split.
  - by rewrite andb_true_iff, bool_decide_eq_true, contains_app.
  - intros _ ->. apply andb_false_r.
Qed.

(** X20. A natural exit that is classified as failed returns [False] and
    removes the output copy. *)
Lemma failed_exit_removes_output_file {F} (source_file target_file : string)
    (args : Args F) (e : env) (files : gset string) :
  copy_succeeds e = true →
  launch_succeeds e = true →
  monitor_process (timeout args) (max_memory args) (start_time (host_run e))
    (polls (host_run e)) = Exited →
  succeeded (returncode (host_run e)) (stdout (host_run e)) = false →
  let run := process_single_transfer source_file target_file args e files in
  run.1 = Returned false ∧ create_output_filename source_file target_file ∉ run.2.
Proof.
  intros Hcopy Hlaunch Hexit Hfail. unfold process_single_transfer.
  rewrite Hcopy, Hlaunch, Hexit, Hfail. simpl. split; [done|].
  rewrite !elem_of_difference, elem_of_singleton. tauto.
Qed.

(** Plain paths are read back by the host as they were given. *)
Lemma strip_prefix_app (p s : string) : strip_prefix p (p +:+ s) = Some s.
Proof.
  induction p as [|a p IH]; [by destruct s|].
  rewrite append_cons. simpl. by rewrite bool_decide_eq_true_2.
Qed.

Lemma raw_string_body_plain (path rest : string) :
  plain path → raw_string_body (path +:+ dquote +:+ rest) = Some (path, rest).
Proof.
  induction path as [|c path IH]; [done|].
  intros [(Hq & Hn & Hb) Hpath]. rewrite append_cons. simpl.
  rewrite !bool_decide_eq_false_2 by done. by rewrite IH.
Qed.

Lemma append_assoc (a b c : string) : a +:+ b +:+ c = (a +:+ b) +:+ c.
Proof. induction a as [|x a IH]; [done|]. by rewrite !append_cons, IH. Qed.


End SupervisorFacts.

Section MemoryFacts.
Import Supervisor.


End MemoryFacts.

Section SupervisorScenario.
Import Supervisor Scenario.

Lemma natural_exit_succeeds_iff_zero_and_sentinel_witness :
  (process_single_transfer "/anims/walk.blend" "/rigs/hero.blend" default_args
     (transfer_env (finished 0 "Blender quit"%string)) ∅).1 = Returned false.
Proof.
  destruct (natural_exit_succeeds_iff_zero_and_sentinel
              "/anims/walk.blend" "/rigs/hero.blend" default_args
              (transfer_env (finished 0 "Blender quit"%string)) ∅)
    as (success & Hrun & _ & Hmissing); [reflexivity|reflexivity|reflexivity|].
  rewrite Hrun. f_equal. apply Hmissing; reflexivity.
Defined.


(** C5 fails on the code: a run that is stopped for its timeout, or for
    its memory, returns [False] and leaves the output copy on disk (only the
    temporary script is removed). *)
Theorem stopped_run_leaves_output_file :
  let output_file := create_output_filename "/anims/walk.blend" "/rigs/hero.blend" in
  let late :=
    process_single_transfer "/anims/walk.blend" "/rigs/hero.blend" default_args
      (transfer_env hung) ∅ in
  let large :=
    process_single_transfer "/anims/walk.blend" "/rigs/hero.blend" default_args
      (transfer_env bloated) ∅ in
  output_file = "/anims/walk_to_hero.blend"
  ∧ late.1 = Returned false ∧ output_file ∈ late.2 ∧ ("/tmp/tmpk3v9.py" ∉ late.2)
  ∧ large.1 = Returned false ∧ output_file ∈ large.2 ∧ ("/tmp/tmpk3v9.py" ∉ large.2).
Proof.
  intros output_file late large.
  assert (late = (Returned false, {[output_file]})) as -> by by vm_compute.
  assert (large = (Returned false, {[output_file]})) as -> by by vm_compute.
  assert (output_file = "/anims/walk_to_hero.blend") as -> by by vm_compute.
  simpl. rewrite !elem_of_singleton. by split_and!.
Qed.

(** C8 fails on the code: for a source path with a double quote in it, the
    job body holds the path between [r"] and ["] as it is, and the raw
    literal the host reads there ends at the path's own quote: the host does
    not get the path given. The same happens for a path that ends with a
    backslash. *)
Theorem quoted_source_path_is_not_read_back :
  (∀ {F} (repr : F → string) (imports_and_header monitor_and_main_head main_rest : string)
     (scale_factor : F) (max_frames max_bones max_memory_mb : Z),
     ∃ before after,
       create_blender_script repr imports_and_header monitor_and_main_head main_rest
         quoted_path scale_factor max_frames max_bones max_memory_mb
       = before +:+ source_file_statement quoted_path +:+ after)
  ∧ host_source_file (source_file_statement quoted_path) = None
  ∧ raw_string_body (quoted_path +:+ dquote +:+ newline)
    = Some ("/anims/a"%string, "b.blend" +:+ dquote +:+ newline)
  ∧ host_source_file (source_file_statement "C:\anims\") = None.
Proof.
  split_and!; [|by vm_compute..].
  intros F repr header head rest scale_factor max_frames max_bones max_memory_mb.
  unfold create_blender_script.
  eexists (header +:+ "MAX_FRAME_RANGE = " +:+ pretty max_frames +:+ newline
           +:+ "MAX_BONES = " +:+ pretty max_bones +:+ newline
           +:+ "MAX_MEMORY_MB = " +:+ pretty max_memory_mb +:+ newline +:+ head), _.
  rewrite <- !append_assoc. reflexivity.
Qed.

End SupervisorScenario.

(** ** The batch loop *)

Section BatchFacts.
Import Supervisor Batch.
Context {W : Type} (process : string → W → outcome * W).

Lemma batch_loop_interrupt (flag : bool) (source_file : string) (rest : list string)
    (t : tally) (w : W) :
  (process source_file w).1 = KeyboardInterrupt →
  (batch_loop process flag (source_file :: rest) t w).1
  = mkTally (results t) (successful t) (attempted t ++ [source_file]).
Proof. intros Hint. simpl. destruct (process source_file w) as [o w']. by simplify_eq/=. Qed.

Lemma batch_loop_success (flag : bool) (source_file : string) (rest : list string)
    (t : tally) (w : W) :
  (process source_file w).1 = Returned true →
  batch_loop process flag (source_file :: rest) t w
  = batch_loop process flag rest
      (mkTally (PyDict.setitem source_file true (results t)) (successful t + 1)
         (attempted t ++ [source_file]))
      (process source_file w).2.
Proof. intros Hok. simpl. destruct (process source_file w) as [o w']. by simplify_eq/=. Qed.

Lemma batch_loop_failure (flag : bool) (source_file : string) (rest : list string)
    (t : tally) (w : W) :
  (process source_file w).1 = Returned false ∨ (process source_file w).1 = RaisedException →
  let t' := mkTally (PyDict.setitem source_file false (results t)) (successful t)
              (attempted t ++ [source_file]) in
  batch_loop process flag (source_file :: rest) t w
  = if flag then batch_loop process flag rest t' (process source_file w).2
    else (t', (process source_file w).2).
Proof.
  intros Hfail. simpl. destruct (process source_file w) as [o w'].
  destruct Hfail; simplify_eq/=; by destruct flag.
Qed.

(** C6. For three distinct source files of which the first succeeds and
    the second fails (it returns [False] or raises): without
    continue-on-error the results are exactly [{A: True, B: False}] and only
    [A] and [B] were attempted; with continue-on-error all three are
    attempted and, unless the third is interrupted, all three are keys of
    the results. And whatever the flag, a file that is interrupted is the
    last one attempted, and nothing is recorded for it. *)
Theorem batch_stops_or_continues_after_a_failure (A B C : string) (w : W) :
  NoDup [A; B; C] →
  (∀ w, (process A w).1 = Returned true) →
  (∀ w, (process B w).1 = Returned false ∨ (process B w).1 = RaisedException) →
  (∀ w, (process C w).1 ≠ KeyboardInterrupt) →
  let stopping := (batch_loop process false [A; B; C] (mkTally [] 0 []) w).1 in
  let continuing := (batch_loop process true [A; B; C] (mkTally [] 0 []) w).1 in
  results stopping = [(A, true); (B, false)]
  ∧ attempted stopping = [A; B]
  ∧ attempted continuing = [A; B; C]
  ∧ PyDict.keys (results continuing) = [A; B; C]
  ∧ ∀ flag source_file rest t w',
      (process source_file w').1 = KeyboardInterrupt →
      (batch_loop process flag (source_file :: rest) t w').1
      = mkTally (results t) (successful t) (attempted t ++ [source_file]).
Proof.
  intros Hdistinct HA HB HC stopping continuing.
  assert (A ≠ B ∧ A ≠ C ∧ B ≠ C) as (HAB & HAC & HBC).
  { apply NoDup_cons in Hdistinct as [HA' Hdistinct].
    apply NoDup_cons in Hdistinct as [HB' _].
    rewrite !elem_of_cons in HA'. rewrite elem_of_cons in HB'. tauto. }
  unfold stopping, continuing.
  rewrite !(batch_loop_success _ A) by done.
  rewrite !(batch_loop_failure _ B) by done. simpl.
  rewrite !bool_decide_eq_false_2 by done.
  split_and!; [done|done| | |].
  - by destruct (process C _) as [[[]| |] w3].
  - destruct (process C _) as [[[]| |] w3] eqn:HC3; simpl;
      rewrite ?bool_decide_eq_false_2 by done; try done.
    by specialize (HC ((process B (process A w).2).2)); rewrite HC3 in HC.
  - intros flag source_file rest t w'. apply batch_loop_interrupt.
Qed.

End BatchFacts.

Section BatchScenario.
Import Supervisor Batch Scenario.

Lemma batch_stops_or_continues_after_a_failure_witness :
  results (batch_loop (batch_process (finished 1 "RESULT: FAILED")) false batch_sources
             (mkTally [] 0 []) ∅).1
  = [("/anims/a.blend", true); ("/anims/b.blend", false)].
Proof.
  destruct (batch_stops_or_continues_after_a_failure
              (batch_process (finished 1 "RESULT: FAILED"))
              "/anims/a.blend" "/anims/b.blend" "/anims/c.blend" ∅)
    as (Hresults & _).
  - apply (bool_decide_unpack (NoDup _)). reflexivity.
  - intros files. reflexivity.
  - intros files. left. reflexivity.
  - intros files. discriminate.
  - exact Hresults.
Defined.

(** C7 fails on the code: when the user interrupts the second of three
    files after the first has succeeded, two files were attempted, one of
    them did not succeed, one was never started, and the exit code is 0,
    with or without continue-on-error. *)
Theorem interrupted_batch_exits_with_zero :
  ∀ flag,
    let '(code, t, _) := main (batch_process interrupted) flag batch_sources ∅ in
    code = 0%Z
    ∧ attempted t = ["/anims/a.blend"; "/anims/b.blend"]
    ∧ results t = [("/anims/a.blend", true)]
    ∧ successful t = 1%Z.
Proof. by intros []; vm_compute. Qed.

(** The comparison of line 607 counts attempts against recorded files: a
    source file that is listed twice and succeeds twice is counted twice and
    recorded once. *)
Example repeated_source_file :
  let '(code, t, _) :=
    main (batch_process (finished 0 "RESULT: SUCCESS")) false
      ["/anims/a.blend"; "/anims/a.blend"] ∅ in
  code = 1%Z ∧ results t = [("/anims/a.blend", true)] ∧ successful t = 2%Z.
Proof. by vm_compute. Qed.

End BatchScenario.

(** ** Batches that are not interrupted *)

Section UninterruptedBatch.
Import Supervisor Batch.
Context {W : Type} (process : string → W → outcome * W) (flag : bool).

Lemma count_true_snoc (d : PyDict.dict bool) (f : string) (b : bool) :
  count_true (d ++ [(f, b)]) = (count_true d + (if b then 1 else 0))%Z.
Proof.
  unfold count_true, PyDict.items. rewrite filter_app, length_app.
  destruct b; [rewrite filter_cons_True by done|rewrite filter_cons_False by done];
    simpl; lia.
Qed.

Lemma count_true_all (d : PyDict.dict bool) :
  count_true d = PyDict.len d ↔ Forall (λ p, p.2 = true) d.
Proof.
  unfold count_true, PyDict.len, PyDict.items. induction d as [|[f b] d IH]; simpl.
  - split; [constructor|done].
  - pose proof (length_filter (λ p : string * bool, p.2 = true) d) as Hle.
    rewrite Forall_cons. simpl. destruct b.
    + rewrite filter_cons_True by done. simpl. rewrite <- IH. split; [|intros [_ ?]]; lia.
    + rewrite filter_cons_False by done. split; [lia|]. by intros [? _].
Qed.

Lemma batch_loop_without_interrupt (source_files : list string) : ∀ (t : tally) (w : W),
  NoDup source_files →
  (∀ f, f ∈ source_files → f ∉ PyDict.keys (results t)) →
  (∀ f w, f ∈ source_files → (process f w).1 ≠ KeyboardInterrupt) →
  successful t = count_true (results t) →
  let t' := (batch_loop process flag source_files t w).1 in
  successful t' = count_true (results t')
  ∧ ∃ more, results t' = results t ++ more
      ∧ (Forall (λ p, p.2 = true) more → attempted t' = attempted t ++ source_files).
Proof.
  induction source_files as [|f rest IH]; intros t w Hnodup Hfresh Hquiet Hcount; simpl.
  - split; [done|]. exists []. by rewrite !app_nil_r.
  - apply NoDup_cons in Hnodup as [Hf Hrest].
    assert (∀ b, PyDict.setitem f b (results t) = results t ++ [(f, b)]) as Hset.
    { intros b. apply setitem_fresh, Hfresh. left. }
    assert (∀ b g, g ∈ rest → g ∉ PyDict.keys (results t ++ [(f, b)])) as Hfresh'.
    { intros b g Hg. unfold PyDict.keys. rewrite fmap_app, elem_of_app. simpl.
      intros [Hin|Hin%list_elem_of_singleton].
      - eapply Hfresh; [|exact Hin]. by right.
      - by subst g. }
    assert (∀ g w, g ∈ rest → (process g w).1 ≠ KeyboardInterrupt) as Hquiet'.
    { intros g w' Hg. apply Hquiet. by right. }
    pose proof (Hquiet f w (list_elem_of_here _ _)) as Hf_quiet.
    destruct (process f w) as [o w1]. simpl in Hf_quiet.
    destruct o as [[]| |]; [| | |done]; rewrite Hset.
    + destruct (IH (mkTally (results t ++ [(f, true)]) (successful t + 1)
                      (attempted t ++ [f])) w1) as (Hc & more & Hres & Hall);
        [done|by apply Hfresh'|done|by simpl; rewrite count_true_snoc, Hcount|].
      simpl in *. split; [done|]. exists ((f, true) :: more).
      rewrite Hres, <- (assoc_L (++)). split; [done|].
      intros [_ Hmore]%Forall_cons. rewrite Hall by done.
      by rewrite <- (assoc_L (++)).
    + destruct flag; simpl.
      * destruct (IH (mkTally (results t ++ [(f, false)]) (successful t)
                        (attempted t ++ [f])) w1) as (Hc & more & Hres & Hall);
          [done|by apply Hfresh'|done|simpl; rewrite count_true_snoc, Hcount; lia|].
        simpl in *. split; [done|]. exists ((f, false) :: more).
        rewrite Hres, <- (assoc_L (++)). split; [done|].
        by intros [? _]%Forall_cons.
      * split; [simpl; rewrite count_true_snoc, Hcount; lia|].
        exists [(f, false)]. split; [done|]. by intros [? _]%Forall_cons.
    + destruct flag; simpl.
      * destruct (IH (mkTally (results t ++ [(f, false)]) (successful t)
                        (attempted t ++ [f])) w1) as (Hc & more & Hres & Hall);
          [done|by apply Hfresh'|done|simpl; rewrite count_true_snoc, Hcount; lia|].
        simpl in *. split; [done|]. exists ((f, false) :: more).
        rewrite Hres, <- (assoc_L (++)). split; [done|].
        by intros [? _]%Forall_cons.
      * split; [simpl; rewrite count_true_snoc, Hcount; lia|].
        exists [(f, false)]. split; [done|]. by intros [? _]%Forall_cons.
Qed.

(** X22. When no file is interrupted and the source files are distinct, the
    exit status is 0 exactly when every recorded result is a success, and
    then every source file was attempted. *)
Lemma uninterrupted_batch_exit_status (source_files : list string) (w : W) :
  NoDup source_files →
  (∀ f w, f ∈ source_files → (process f w).1 ≠ KeyboardInterrupt) →
  let t := (batch_loop process flag source_files (mkTally [] 0 []) w).1 in
  (exit_status t = 0%Z ↔ Forall (λ p, p.2 = true) (results t))
  ∧ (exit_status t = 0%Z → attempted t = source_files).
Proof.
  intros Hnodup Hquiet t.
  destruct (batch_loop_without_interrupt source_files (mkTally [] 0 []) w)
    as (Hcount & more & Hres & Hall); [done| |done|done|].
  { intros f _ Hf. by apply elem_of_nil in Hf. }
  fold t in Hcount, Hres, Hall. simpl in Hres, Hall.
  assert (exit_status t = 0%Z ↔ Forall (λ p, p.2 = true) (results t)) as Hiff.
  { unfold exit_status. rewrite Hcount, <- count_true_all.
    case_bool_decide; split; done. }
  split; [done|]. intros Hzero. apply Hall. rewrite <- Hres. by apply Hiff.
Qed.

End UninterruptedBatch.

(** ** More on the supervisor *)

Section PollingFacts.
Import Supervisor Laws.

Lemma terminate_child_not_exited (p : poll) : terminate_child p ≠ Exited.
Proof. unfold terminate_child. by destruct (exits_after_terminate p). Qed.

Lemma Qgtb_spec (a b : Q) : Qgtb a b = true ↔ (b < a)%Q.
Proof. unfold Qgtb. destruct (Qlt_le_dec b a); split; try done; lra. Qed.

Lemma Qgtb_false_iff (a b : Q) : Qgtb a b = false ↔ (a <= b)%Q.
Proof. unfold Qgtb. destruct (Qlt_le_dec b a); split; try done; lra. Qed.

(** The polling loop ends with the host's own exit exactly when every poll
    passes. *)
Lemma monitor_process_exited (timeout max_memory : Z) (start : Q) (turns : list poll) :
  monitor_process timeout max_memory start turns = Exited
  ↔ Forall (poll_passes timeout max_memory start) turns.
Proof.
  induction turns as [|p turns IH]; simpl; [by split|].
  rewrite Forall_cons, <- IH. unfold poll_passes.
  destruct (Qgtb (now p - start) (inject_Z timeout)) eqn:Hlate.
  { apply Qgtb_spec in Hlate. split.
    - by intros ?%terminate_child_not_exited.
    - intros [(? & _) _]. lra. }
  apply Qgtb_false_iff in Hlate.
  destruct (reading p) as [bytes| |] eqn:Hreading.
  - destruct (Qgtb (inject_Z bytes / 1024 / 1024) (inject_Z max_memory)) eqn:Hlarge.
    + apply Qgtb_spec in Hlarge. split.
      * by intros ?%terminate_child_not_exited.
      * intros [(_ & _ & Hmem) _]. specialize (Hmem bytes eq_refl). lra.
    + apply Qgtb_false_iff in Hlarge. destruct (interrupt p); split; try done.
      * by intros [(_ & ? & _) _].
      * intros Hrest. split; [|done]. split; [done|]. split; [done|]. by intros ? [= <-].
      * by intros [_ ?].
  - destruct (interrupt p); split; try done.
    + by intros [(_ & ? & _) _].
    + by intros [_ ?].
  - destruct (interrupt p); split; try done.
    + by intros [(_ & ? & _) _].
    + by intros [_ ?].
Qed.

End PollingFacts.

Section TransferFileFacts.
Import Supervisor Laws.
Context {F : Type}.
Implicit Types (args : Args F) (e : env) (files : gset string).

(** X1. [process_single_transfer] returns [True] exactly when the target
    was copied, the host was started, every poll of the running host passed
    (within the timeout, not interrupted, memory unreadable or within the
    limit), the host exited with code 0 and ["RESULT: SUCCESS"] occurs in
    its standard output. *)
Theorem transfer_returns_true_iff (source_file target_file : string) args e files :
  (process_single_transfer source_file target_file args e files).1 = Returned true
  ↔ copy_succeeds e = true
    ∧ launch_succeeds e = true
    ∧ Forall (poll_passes (timeout args) (max_memory args) (start_time (host_run e)))
        (polls (host_run e))
    ∧ returncode (host_run e) = 0%Z
    ∧ ∃ before after, stdout (host_run e) = before +:+ "RESULT: SUCCESS" +:+ after.
Proof.
  rewrite <- monitor_process_exited, <- (contains_app "RESULT: SUCCESS").
  unfold process_single_transfer.
  destruct (copy_succeeds e); simpl; [|split; [done|by intros [? _]]].
  destruct (launch_succeeds e); simpl; [|split; [done|by intros (_ & ? & _)]].
  destruct (monitor_process _ _ _ _); simpl;
    try (split; [done|by intros (_ & _ & ? & _)]).
  unfold succeeded, sentinel.
  destruct (bool_decide (returncode (host_run e) = 0%Z)) eqn:Hcode; simpl.
  - apply bool_decide_eq_true in Hcode.
    destruct (contains _ _); simpl; [by split|]. split; [done|]. by intros (_ & _ & _ & _ & ?).
  - apply bool_decide_eq_false in Hcode. split; [done|]. by intros (_ & _ & _ & ? & _).
Qed.

(** X2. [process_single_transfer] creates and deletes no file but the
    output copy and the temporary script: every other path exists afterwards
    exactly if it existed before, whatever happens to the host. *)
Theorem only_output_and_temp_script_change (source_file target_file : string)
    args e files (path : string) :
  path ≠ create_output_filename source_file target_file →
  path ≠ temp_script e →
  path ∈ (process_single_transfer source_file target_file args e files).2 ↔ path ∈ files.
Proof.
  intros Hout Htemp. unfold process_single_transfer.
  destruct (copy_succeeds e); simpl; [|done].
  destruct (launch_succeeds e); simpl.
  - destruct (monitor_process _ _ _ _); simpl;
      try destruct (succeeded _ _); simpl;
      rewrite ?elem_of_difference, ?elem_of_union, ?elem_of_singleton; tauto.
  - rewrite ?elem_of_difference, ?elem_of_union, ?elem_of_singleton; tauto.
Qed.

(** X3. Once the target is copied, the temporary script is gone when
    [process_single_transfer] ends, in every case: success, failure,
    timeout, memory overrun, an exception or an interrupt. *)
Theorem temp_script_is_removed (source_file target_file : string) args e files :
  copy_succeeds e = true →
  temp_script e ∉ (process_single_transfer source_file target_file args e files).2.
Proof.
  intros Hcopy. unfold process_single_transfer. rewrite Hcopy. simpl.
  destruct (launch_succeeds e); simpl.
  - destruct (monitor_process _ _ _ _); simpl;
      try destruct (succeeded _ _); simpl;
      rewrite ?elem_of_difference, ?elem_of_singleton; tauto.
  - rewrite ?elem_of_difference, ?elem_of_singleton; tauto.
Qed.

(** X4. When [process_single_transfer] returns [True], the output copy is
    on disk (the temporary script being another file). *)
Theorem success_keeps_output_file (source_file target_file : string) args e files :
  (process_single_transfer source_file target_file args e files).1 = Returned true →
  temp_script e ≠ create_output_filename source_file target_file →
  create_output_filename source_file target_file
    ∈ (process_single_transfer source_file target_file args e files).2.
Proof.
  intros Hrun Htemp. revert Hrun. unfold process_single_transfer.
  destruct (copy_succeeds e); simpl; [|done].
  destruct (launch_succeeds e); simpl; [|done].
  destruct (monitor_process _ _ _ _); simpl; try done.
  destruct (succeeded _ _); simpl; [|done]. intros _.
  rewrite elem_of_difference, !elem_of_union, !elem_of_singleton. split; [tauto|congruence].
Qed.

End TransferFileFacts.

(** ** Path arithmetic *)

Section PathFacts.
Import OsPath.
Implicit Types (l n pre : list ascii) (c : ascii).

Lemma list_ascii_of_append (a b : string) :
  list_ascii_of_string (a +:+ b) = list_ascii_of_string a ++ list_ascii_of_string b.
Proof. induction a as [|c a IH]; [done|]. rewrite append_cons. simpl. by rewrite IH. Qed.

Lemma lstrip_nil c l : lstrip c l = [] ↔ Forall (λ x, x = c) l.
Proof.
  induction l as [|x l IH]; simpl; [by split|].
  case_bool_decide; rewrite Forall_cons.
  - rewrite IH. tauto.
  - split; [done|]. by intros [? _].
Qed.

Lemma rstrip_snoc c l : rstrip c (l ++ [c]) = rstrip c l.
Proof. unfold rstrip. rewrite reverse_snoc. simpl. by rewrite bool_decide_eq_true_2. Qed.

Lemma rstrip_id c l d : last l = Some d → d ≠ c → rstrip c l = l.
Proof.
  intros (l' & ->)%last_Some Hd. unfold rstrip. rewrite reverse_snoc. simpl.
  rewrite bool_decide_eq_false_2 by done. by rewrite <- reverse_snoc, reverse_involutive.
Qed.

Lemma lstrip_head c l : lstrip c l = [] ∨ ∃ d rest, lstrip c l = d :: rest ∧ d ≠ c.
Proof.
  induction l as [|x l IH]; simpl; [by left|].
  case_bool_decide; [done|]. right. eauto.
Qed.

Lemma rstrip_last c l : last (rstrip c l) ≠ Some c.
Proof.
  unfold rstrip. destruct (lstrip_head c (reverse l)) as [->|(d & rest & -> & Hd)]; [done|].
  rewrite reverse_cons, last_snoc. congruence.
Qed.

Lemma split_at_last_sep_plain n : sep ∉ n → split_at_last_sep n = ([], n).
Proof.
  induction n as [|c n IH]; [done|]. intros [Hc Hn]%not_elem_of_cons. simpl.
  rewrite IH by done. by rewrite bool_decide_eq_false_2.
Qed.

Lemma split_at_last_sep_snoc pre n :
  sep ∉ n → split_at_last_sep (pre ++ sep :: n) = (pre ++ [sep], n).
Proof.
  intros Hn. induction pre as [|c pre IH]; simpl.
  - by rewrite split_at_last_sep_plain.
  - rewrite IH. by destruct pre.
Qed.

Lemma split_at_last_sep_app l :
  l = (split_at_last_sep l).1 ++ (split_at_last_sep l).2
  ∧ sep ∉ (split_at_last_sep l).2.
Proof.
  induction l as [|c l [IH1 IH2]]; simpl; [split; [done|apply not_elem_of_nil]|].
  destruct (split_at_last_sep l) as [[|h head] tail]; simpl in *.
  - case_bool_decide; simpl; [by subst; split|].
    split; [by f_equal|]. rewrite not_elem_of_cons. by split.
  - split; [by f_equal|done].
Qed.

(** [basename] never holds a separator, and a path is its head followed by
    its [basename]. *)
Lemma basename_plain (p : string) : sep ∉ list_ascii_of_string (basename p).
Proof.
  unfold basename. rewrite list_ascii_of_string_of_list_ascii.
  apply split_at_last_sep_app.
Qed.

Lemma split_at_last_dot_app l root ext :
  split_at_last_dot l = Some (root, ext) →
  l = root ++ ext ∧ ∃ e, ext = extsep :: e.
Proof.
  revert root ext. induction l as [|c l IH]; intros root ext; simpl; [done|].
  destruct (split_at_last_dot l) as [[r e]|].
  - intros [= <- <-]. destruct (IH r e eq_refl) as (-> & e' & ->). eauto.
  - case_bool_decide; [|done]. intros [= <- <-]. subst c. eauto.
Qed.

Lemma split_at_last_dot_ext root ext :
  split_at_last_dot ext = Some ([], ext) →
  split_at_last_dot (root ++ ext) = Some (root, ext).
Proof. intros Hext. induction root as [|c root IH]; [done|]. simpl. by rewrite IH. Qed.

Lemma split_at_last_dot_blend root :
  split_at_last_dot (root ++ list_ascii_of_string ".blend")
  = Some (root, list_ascii_of_string ".blend").
Proof. by apply split_at_last_dot_ext. Qed.

(** What [splitext] returns, on lists. *)
Lemma splitext_app (name : string) :
  let root := list_ascii_of_string (splitext name).1 in
  let ext := list_ascii_of_string (splitext name).2 in
  list_ascii_of_string name = root ++ ext ∧ (ext = [] ∨ ∃ e, ext = extsep :: e).
Proof.
  unfold splitext.
  destruct (split_at_last_dot (list_ascii_of_string name)) as [[root ext]|] eqn:Hsplit;
    simpl; [|by rewrite app_nil_r; split; [|left]].
  destruct (lstrip extsep root); simpl; [by rewrite app_nil_r; split; [|left]|].
  rewrite !list_ascii_of_string_of_list_ascii.
  apply split_at_last_dot_app in Hsplit as (-> & e & ->). eauto.
Qed.

Lemma splitext_plain (name : string) :
  sep ∉ list_ascii_of_string name → sep ∉ list_ascii_of_string (splitext name).1.
Proof.
  intros Hname. destruct (splitext_app name) as [Happ _]. simpl in Happ.
  rewrite Happ in Hname. by apply not_elem_of_app in Hname as [? _].
Qed.

Lemma splitext_blend (root : list ascii) :
  ¬ Forall (λ c, c = extsep) root →
  splitext (string_of_list_ascii (root ++ list_ascii_of_string ".blend"))
  = (string_of_list_ascii root, ".blend").
Proof.
  intros Hroot. unfold splitext.
  rewrite list_ascii_of_string_of_list_ascii, split_at_last_dot_blend.
  destruct (lstrip extsep root) eqn:Hstrip; [by apply lstrip_nil in Hstrip|done].
Qed.

End PathFacts.

Section OutputNameFacts.
Import OsPath Supervisor.
Implicit Types (l n pre : list ascii) (c : ascii).

Local Abbreviation chars := list_ascii_of_string.

Lemma chars_inj (a b : string) : chars a = chars b → a = b.
Proof.
  intros Hab. by rewrite <- (string_of_list_ascii_of_string a),
    <- (string_of_list_ascii_of_string b), Hab.
Qed.

(** [join] puts its second argument, when that is a plain name, after a
    head that is empty or ends with a separator. *)
Lemma join_plain (a b : string) :
  sep ∉ chars b →
  ∃ pre, chars (join a b) = pre ++ chars b
    ∧ ((pre = [] ∧ chars a = [])
       ∨ (pre = chars a ∧ last (chars a) = Some sep)
       ∨ (pre = chars a ++ [sep] ∧ ∃ d, last (chars a) = Some d ∧ d ≠ sep)).
Proof.
  intros Hb. unfold join.
  assert (∃ pre, chars (match reverse (chars a) with
                        | [] => b
                        | d :: _ =>
                            if bool_decide (d = sep) then a +:+ b else a +:+ "/" +:+ b
                        end) = pre ++ chars b
    ∧ ((pre = [] ∧ chars a = [])
       ∨ (pre = chars a ∧ last (chars a) = Some sep)
       ∨ (pre = chars a ++ [sep] ∧ ∃ d, last (chars a) = Some d ∧ d ≠ sep))) as Hrest.
  { pose proof (head_reverse (chars a)) as Hlast.
    destruct (reverse (chars a)) as [|d rest] eqn:Hrev; simpl in Hlast.
    - exists []. split; [done|]. left. split; [done|].
      by rewrite <- (reverse_involutive (chars a)), Hrev.
    - case_bool_decide as Hd.
      + exists (chars a). rewrite list_ascii_of_append. split; [done|].
        right; left. by subst d.
      + exists (chars a ++ [sep]). rewrite !list_ascii_of_append, <- (assoc_L (++)).
        split; [done|]. right; right. eauto. }
  destruct (chars b) as [|c rest] eqn:Hchars; [done|].
  apply not_elem_of_cons in Hb as [Hc _].
  by rewrite bool_decide_eq_false_2.
Qed.

Lemma basename_join (a b : string) : sep ∉ chars b → basename (join a b) = b.
Proof.
  intros Hb. destruct (join_plain a b Hb) as (pre & Hjoin & Hpre).
  unfold basename. rewrite Hjoin. apply chars_inj.
  rewrite list_ascii_of_string_of_list_ascii.
  destruct Hpre as [[-> _]|[[-> Hlast]|[-> _]]].
  - by rewrite split_at_last_sep_plain.
  - apply last_Some in Hlast as [pre' ->].
    rewrite <- (assoc_L (++)). simpl. by rewrite split_at_last_sep_snoc.
  - rewrite <- (assoc_L (++)). simpl. by rewrite split_at_last_sep_snoc.
Qed.

(** [dirname] returns a head that is all separators, or does not end with
    one. *)
Lemma dirname_shape (p : string) :
  Forall (λ c, c = sep) (chars (dirname p)) ∨
  ∃ d, last (chars (dirname p)) = Some d ∧ d ≠ sep.
Proof.
  unfold dirname. rewrite list_ascii_of_string_of_list_ascii.
  destruct (lstrip sep (split_at_last_sep (chars p)).1) as [|x rest] eqn:Hstrip.
  - left. by apply lstrip_nil.
  - right. pose proof (rstrip_last sep (split_at_last_sep (chars p)).1) as Hlast.
    destruct (last (rstrip sep (split_at_last_sep (chars p)).1)) as [d|] eqn:Hd.
    + exists d. split; [done|congruence].
    + exfalso. apply last_None in Hd. unfold rstrip in Hd.
      apply (f_equal reverse) in Hd. rewrite reverse_involutive in Hd. simpl in Hd.
      assert (lstrip sep (split_at_last_sep (chars p)).1 = []) as Hnil.
      { clear Hstrip Hlast. revert Hd.
        generalize (split_at_last_sep (chars p)).1. intros l Hl.
        apply lstrip_nil. apply lstrip_nil in Hl.
        apply Forall_forall. intros c Hc. rewrite Forall_forall in Hl.
        apply Hl. by apply elem_of_reverse. }
      by rewrite Hnil in Hstrip.
Qed.

Lemma dirname_join (p b : string) :
  sep ∉ chars b → dirname (join (dirname p) b) = dirname p.
Proof.
  intros Hb. destruct (join_plain (dirname p) b Hb) as (pre & Hjoin & Hpre).
  apply chars_inj. unfold dirname at 1. rewrite Hjoin, list_ascii_of_string_of_list_ascii.
  destruct Hpre as [[-> Hnil]|[[-> Hlast]|[-> (d & Hlast & Hd)]]].
  - by rewrite split_at_last_sep_plain, Hnil.
  - pose proof Hlast as [pre' Hpre']%last_Some.
    rewrite Hpre', <- (assoc_L (++)). simpl. rewrite split_at_last_sep_snoc by done. simpl.
    rewrite <- Hpre'.
    destruct (dirname_shape p) as [Hall|(d & Hd & Hne)]; [|congruence].
    apply lstrip_nil in Hall. by rewrite Hall.
  - rewrite <- (assoc_L (++)). simpl. rewrite split_at_last_sep_snoc by done. simpl.
    destruct (lstrip sep (chars (dirname p) ++ [sep])) eqn:Hstrip.
    + apply lstrip_nil, Forall_app in Hstrip as [Hall _].
      apply last_Some in Hlast as [pre' Hpre']. rewrite Hpre' in Hall.
      apply Forall_app in Hall as [_ Hall]. by apply Forall_cons in Hall as [? _].
    + rewrite rstrip_snoc. by apply (rstrip_id _ _ d).
Qed.

End OutputNameFacts.

Section OutputFileFacts.
Import OsPath Supervisor.

Local Abbreviation chars := list_ascii_of_string.
Local Abbreviation stem p := (splitext (basename p)).1.

Lemma stem_plain (p : string) : sep ∉ chars (stem p).
Proof. apply splitext_plain, basename_plain. Qed.

Lemma output_name_chars (source_path target_path : string) :
  chars (stem source_path +:+ "_to_" +:+ stem target_path +:+ ".blend")
  = (chars (stem source_path) ++ chars "_to_" ++ chars (stem target_path))
    ++ chars ".blend".
Proof. by rewrite !list_ascii_of_append, <- !(assoc_L (++)). Qed.

Lemma output_name_plain (source_path target_path : string) :
  sep ∉ chars (stem source_path +:+ "_to_" +:+ stem target_path +:+ ".blend").
Proof.
  rewrite output_name_chars, !not_elem_of_app.
  split_and!; [apply stem_plain| |apply stem_plain|];
    by apply (bool_decide_unpack (_ ∉ _)).
Qed.

(** X5. The output file is placed in the directory of the source file, and
    its name is the source's stem, ["_to_"], the target's stem and
    [".blend"]. *)
Theorem output_file_is_beside_the_source (source_path target_path : string) :
  dirname (create_output_filename source_path target_path) = dirname source_path
  ∧ basename (create_output_filename source_path target_path)
    = stem source_path +:+ "_to_" +:+ stem target_path +:+ ".blend".
Proof.
  unfold create_output_filename. split.
  - apply dirname_join, output_name_plain.
  - apply basename_join, output_name_plain.
Qed.

(** X6. The output file is never the source file and never the target
    file, whatever the two paths are: a transfer cannot overwrite either. *)
Theorem output_file_is_neither_source_nor_target (source_path target_path : string) :
  create_output_filename source_path target_path ≠ source_path
  ∧ create_output_filename source_path target_path ≠ target_path.
Proof.
  assert (∀ p, create_output_filename source_path target_path = p →
               chars (basename p)
               = (chars (stem source_path) ++ chars "_to_" ++ chars (stem target_path))
                 ++ chars ".blend") as Hname.
  { intros p <-. unfold create_output_filename.
    rewrite basename_join by apply output_name_plain. apply output_name_chars. }
  split; intros Heq; apply Hname in Heq.
  - destruct (splitext_app (basename source_path)) as [Happ Hext]. simpl in Happ, Hext.
    rewrite Happ, <- !(assoc_L (++)) in Heq. apply app_inv_head in Heq.
    destruct Hext as [Hext|[e Hext]]; by rewrite Hext in Heq.
  - assert (splitext (basename target_path)
            = (string_of_list_ascii
                 (chars (stem source_path) ++ chars "_to_" ++ chars (stem target_path)),
               ".blend")) as Hsplit.
    { assert (∀ name root, chars name = root ++ chars ".blend" →
                ¬ Forall (λ c, c = extsep) root →
                splitext name = (string_of_list_ascii root, ".blend")) as Hblend.
      { intros name root Hchars Hroot.
        rewrite <- (string_of_list_ascii_of_string name), Hchars.
        by apply splitext_blend. }
      apply Hblend; [done|]. rewrite Forall_app, Forall_app. intros (_ & Hto & _).
      by apply Forall_cons in Hto as [? _]. }
    apply (f_equal (λ x, length (chars x.1))) in Hsplit. simpl in Hsplit.
    rewrite list_ascii_of_string_of_list_ascii, !length_app in Hsplit. simpl in Hsplit. lia.
Qed.

(** X7. Two source files are given the same output file for a target
    exactly when they are in the same directory and have the same name up
    to the extension, as [a.blend] and [a.BLEND] have. *)
Theorem output_files_collide_iff (source_path source_path' target_path : string) :
  create_output_filename source_path target_path
    = create_output_filename source_path' target_path
  ↔ dirname source_path = dirname source_path' ∧ stem source_path = stem source_path'.
Proof.
  split.
  - intros Heq. split.
    + apply (f_equal dirname) in Heq. unfold create_output_filename in Heq.
      by rewrite !dirname_join in Heq by apply output_name_plain.
    + apply (f_equal basename) in Heq. unfold create_output_filename in Heq.
      rewrite !basename_join in Heq by apply output_name_plain.
      apply (f_equal chars) in Heq. rewrite !output_name_chars in Heq.
      apply app_inv_tail, app_inv_tail in Heq. by apply chars_inj.
  - intros [Hdir Hstem]. unfold create_output_filename. by rewrite Hdir, Hstem.
Qed.

End OutputFileFacts.

(** ** More on the batch loop *)

Section BatchOrderFacts.
Import Supervisor Batch.
Context {W : Type} (process : string → W → outcome * W).

Lemma batch_loop_progress (flag : bool) (source_files : list string) : ∀ (t : tally) (w : W),
  let t' := (batch_loop process flag source_files t w).1 in
  ∃ n : nat,
    (n ≤ length source_files)%nat
    ∧ attempted t' = attempted t ++ take n source_files
    ∧ (successful t ≤ successful t' ≤ successful t + Z.of_nat n)%Z
    ∧ ∀ k, k ∈ PyDict.keys (results t') →
        k ∈ PyDict.keys (results t) ∨ k ∈ take n source_files.
Proof.
  induction source_files as [|f rest IH]; intros t w; simpl.
  - exists 0%nat. rewrite app_nil_r. split_and!; [done|done|lia|lia|by left].
  - assert (∀ res succ w1,
      (successful t ≤ succ ≤ successful t + 1)%Z →
      let t1 := mkTally (PyDict.setitem f res (results t)) succ (attempted t ++ [f]) in
      ∃ n : nat,
        (n ≤ S (length rest))%nat
        ∧ attempted (batch_loop process flag rest t1 w1).1
          = attempted t ++ take n (f :: rest)
        ∧ (successful t ≤ successful (batch_loop process flag rest t1 w1).1
           ≤ successful t + Z.of_nat n)%Z
        ∧ ∀ k, k ∈ PyDict.keys (results (batch_loop process flag rest t1 w1).1) →
            k ∈ PyDict.keys (results t) ∨ k ∈ take n (f :: rest)) as Hnext.
    { intros res succ w1 Hsucc t1. destruct (IH t1 w1) as (n & Hn & Ha & Hs & Hk).
      exists (S n). simpl in *. rewrite Ha, <- (assoc_L (++)).
      split_and!; [lia|done|lia|lia|].
      intros k [Hin|Hin]%Hk; [|by right; right].
      apply elem_of_keys_setitem in Hin as [->|?]; [right; left|by left]. }
    assert (∀ res,
      let t1 := mkTally (PyDict.setitem f res (results t)) (successful t)
                  (attempted t ++ [f]) in
      ∃ n : nat,
        (n ≤ S (length rest))%nat
        ∧ attempted t1 = attempted t ++ take n (f :: rest)
        ∧ (successful t ≤ successful t1 ≤ successful t + Z.of_nat n)%Z
        ∧ ∀ k, k ∈ PyDict.keys (results t1) →
            k ∈ PyDict.keys (results t) ∨ k ∈ take n (f :: rest)) as Hstop.
    { intros res t1. exists 1%nat. simpl. rewrite take_0.
      split_and!; [lia|done|lia|lia|].
      intros k Hin. apply elem_of_keys_setitem in Hin as [->|?]; [right; left|by left]. }
    destruct (process f w) as [[[]| |] w1]; simpl.
    + apply Hnext. lia.
    + destruct flag; simpl; [apply Hnext; lia|apply Hstop].
    + destruct flag; simpl; [apply Hnext; lia|apply Hstop].
    + exists 1%nat. simpl. rewrite take_0. split_and!; [lia|done|lia|lia|by left].
Qed.

(** X8. The batch attempts the source files in their order and without
    gaps: the files attempted are a prefix of the source files, every
    recorded file was attempted, and the count of successes lies between 0
    and the number of files attempted. *)
Theorem files_are_attempted_in_order (flag : bool) (source_files : list string) (w : W) :
  let t := (batch_loop process flag source_files (mkTally [] 0 []) w).1 in
  attempted t `prefix_of` source_files
  ∧ (∀ k, k ∈ PyDict.keys (results t) → k ∈ attempted t)
  ∧ (0 ≤ successful t ≤ Z.of_nat (length (attempted t)))%Z.
Proof.
  intros t. subst t.
  destruct (batch_loop_progress flag source_files (mkTally [] 0 []) w)
    as (n & Hn & Hatt & Hsucc & Hkeys). simpl in *.
  rewrite Hatt. split_and!.
  - apply prefix_take.
  - intros k [Hk|Hk]%Hkeys; [by apply elem_of_nil in Hk|done].
  - lia.
  - rewrite length_take. lia.
Qed.

(** X9. With continue-on-error and no interrupt, every source file is
    attempted, whatever fails; if the source files are distinct, the
    recorded files are the source files, in their order. *)
Theorem continue_on_error_attempts_every_file (source_files : list string) (w : W) :
  (∀ f w, f ∈ source_files → (process f w).1 ≠ KeyboardInterrupt) →
  let t := (batch_loop process true source_files (mkTally [] 0 []) w).1 in
  attempted t = source_files
  ∧ (NoDup source_files → PyDict.keys (results t) = source_files).
Proof.
  intros Hquiet.
  assert (∀ files (t0 : tally) w0,
    (∀ f w, f ∈ files → (process f w).1 ≠ KeyboardInterrupt) →
    let t := (batch_loop process true files t0 w0).1 in
    attempted t = attempted t0 ++ files
    ∧ (NoDup files → (∀ f, f ∈ files → f ∉ PyDict.keys (results t0)) →
       PyDict.keys (results t) = PyDict.keys (results t0) ++ files)) as Hgen.
  { clear. induction files as [|f rest IH]; intros t0 w0 Hquiet; simpl.
    - by rewrite !app_nil_r.
    - pose proof (Hquiet f w0 (list_elem_of_here _ _)) as Hf.
      assert (∀ g w, g ∈ rest → (process g w).1 ≠ KeyboardInterrupt) as Hrest.
      { intros g w' Hg. apply Hquiet. by right. }
      destruct (process f w0) as [o w1]. simpl in Hf.
      assert (∀ res succ,
        let t1 := mkTally (PyDict.setitem f res (results t0)) succ (attempted t0 ++ [f]) in
        attempted (batch_loop process true rest t1 w1).1 = attempted t0 ++ f :: rest
        ∧ (NoDup (f :: rest) →
           (∀ g, g ∈ f :: rest → g ∉ PyDict.keys (results t0)) →
           PyDict.keys (results (batch_loop process true rest t1 w1).1)
           = PyDict.keys (results t0) ++ f :: rest)) as Hstep.
      { intros res succ t1. destruct (IH t1 w1 Hrest) as [Hatt Hkeys]. split.
        - rewrite Hatt. simpl. by rewrite <- (assoc_L (++)).
        - intros [Hf' Hnodup]%NoDup_cons Hfresh.
          assert (PyDict.keys (results t1) = PyDict.keys (results t0) ++ [f]) as Hk1.
          { simpl. rewrite setitem_fresh by (apply Hfresh; left).
            unfold PyDict.keys. by rewrite fmap_app. }
          rewrite Hkeys, Hk1; [by rewrite <- (assoc_L (++))|done|].
          intros g Hg. rewrite Hk1, not_elem_of_app. split; [apply Hfresh; by right|].
          intros ->%list_elem_of_singleton. done. }
      destruct o as [[]| |]; simpl; [apply Hstep..|done]. }
  intros t. destruct (Hgen source_files (mkTally [] 0 []) w Hquiet) as [Hatt Hkeys].
  split; [done|]. intros Hnodup. apply Hkeys; [done|].
  intros f _ Hf. by apply elem_of_nil in Hf.
Qed.

(** X10. Without continue-on-error, for distinct source files, only the
    last recorded result can be a failure: every result recorded before it
    is a success. *)
Theorem only_the_last_result_can_fail (source_files : list string) (w : W) :
  NoDup source_files →
  let t := (batch_loop process false source_files (mkTally [] 0 []) w).1 in
  ∀ (i : nat) f b,
    PyDict.items (results t) !! i = Some (f, b) →
    (S i < length (PyDict.items (results t)))%nat → b = true.
Proof.
  intros Hnodup.
  assert (∀ files (t0 : tally) w0,
    NoDup files →
    (∀ f, f ∈ files → f ∉ PyDict.keys (results t0)) →
    Forall (λ p, p.2 = true) (results t0) →
    ∃ tail, results (batch_loop process false files t0 w0).1 = results t0 ++ tail
      ∧ ((Forall (λ p, p.2 = true) tail) ∨ ∃ good f, tail = good ++ [(f, false)]
           ∧ Forall (λ p, p.2 = true) good)) as Hgen.
  { clear. induction files as [|f rest IH]; intros t0 w0 Hnodup Hfresh Hgood; simpl.
    - exists []. rewrite app_nil_r. split; [done|by left].
    - apply NoDup_cons in Hnodup as [Hf Hrest].
      assert (∀ b, PyDict.setitem f b (results t0) = results t0 ++ [(f, b)]) as Hset.
      { intros b. apply setitem_fresh, Hfresh. left. }
      destruct (process f w0) as [[[]| |] w1]; simpl; rewrite ?Hset.
      + destruct (IH (mkTally (results t0 ++ [(f, true)]) (successful t0 + 1)
                        (attempted t0 ++ [f])) w1) as (tail & Hres & Htail); [done| |  |].
        * intros g Hg. simpl. unfold PyDict.keys. rewrite fmap_app, not_elem_of_app.
          split; [apply Hfresh; by right|]. simpl.
          intros ->%list_elem_of_singleton. done.
        * simpl. apply Forall_app. split; [done|]. by apply Forall_singleton.
        * simpl in Hres. exists ((f, true) :: tail).
          rewrite Hres, <- (assoc_L (++)). split; [done|].
          destruct Htail as [Htail|(good & g & -> & Hgood')].
          -- left. by apply Forall_cons.
          -- right. exists ((f, true) :: good), g. split; [done|]. by apply Forall_cons.
      + exists [(f, false)]. split; [done|]. right. by exists [], f.
      + exists [(f, false)]. split; [done|]. right. by exists [], f.
      + exists []. rewrite app_nil_r. split; [done|by left]. }
  intros t i f b. subst t.
  destruct (Hgen source_files (mkTally [] 0 []) w Hnodup) as (tail & Hres & Htail).
  { intros g _ Hg. by apply elem_of_nil in Hg. }
  { constructor. }
  unfold PyDict.items. simpl in Hres. rewrite Hres. intros Hi Hlen.
  destruct Htail as [Htail|(good & g & -> & Hgood)].
  - rewrite Forall_lookup in Htail. by apply (Htail i (f, b)).
  - rewrite length_app in Hlen. simpl in Hlen.
    rewrite lookup_app_l in Hi by lia.
    rewrite Forall_lookup in Hgood. by apply (Hgood i (f, b)).
Qed.

End BatchOrderFacts.

(** ** Laws of composition *)

Section BindFacts.
Context {S E : Type}.

Lemma bind_inv {A B} (m : M S E A) (f : A → M S E B) s x s' :
  (m ≫= f) s = (x, s') →
  (∃ a s1, m s = (Val a, s1) ∧ f a s1 = (x, s'))
  ∨ (∃ e, m s = (Raise e, s') ∧ x = Raise e)
  ∨ (∃ b, m s = (Return b, s') ∧ x = Return b).
Proof.
  unfold mbind, M_bind. destruct (m s) as [[a|e|b] s1].
  - left. eauto.
  - intros [= <- <-]. right. left. eauto.
  - intros [= <- <-]. right. right. eauto.
Qed.

End BindFacts.

Section AlwaysFacts.
Import Job Laws.
Context {F : Type}.
Implicit Types (s : job F) (R : relation (job F)).

Lemma always_ret {A} R `{!Reflexive R} (a : A) : always R (mret a : @Run F A).
Proof. intros s x s' [= <- <-]. done. Qed.

Lemma always_raise {A} R `{!Reflexive R} e : always R (raise e : @Run F A).
Proof. intros s x s' [= <- <-]. done. Qed.

Lemma always_return {A} R `{!Reflexive R} b : always R (return_ b : @Run F A).
Proof. intros s x s' [= <- <-]. done. Qed.

Lemma always_bind {A B} R `{!Transitive R} (m : @Run F A) (k : A → @Run F B) :
  always R m → (∀ a, always R (k a)) → always R (m ≫= k).
Proof.
  intros Hm Hk s x s' [(a & s1 & E1 & E2)|[(e & E1 & _)|(b & E1 & _)]]%bind_inv.
  - etrans; [exact (Hm _ _ _ E1)|exact (Hk _ _ _ _ E2)].
  - exact (Hm _ _ _ E1).
  - exact (Hm _ _ _ E1).
Qed.

Lemma always_when R `{!Reflexive R} (c : bool) (m : @Run F unit) :
  always R m → always R (when c m).
Proof. intros Hm. destruct c; [exact Hm|]. by apply always_ret. Qed.

Lemma always_mono {A} R R' (m : @Run F A) :
  (∀ s s', R s s' → R' s s') → always R m → always R' m.
Proof. intros HR Hm s x s' E. apply HR, (Hm _ _ _ E). Qed.

Lemma never_returns_ret {A} (a : A) : never_returns (mret a : @Run F A).
Proof. by intros s b s'. Qed.

Lemma never_returns_raise {A} e : never_returns (raise e : @Run F A).
Proof. by intros s b s'. Qed.

Lemma never_returns_bind {A B} (m : @Run F A) (k : A → @Run F B) :
  never_returns m → (∀ a, never_returns (k a)) → never_returns (m ≫= k).
Proof.
  intros Hm Hk s b s' [(a & s1 & E1 & E2)|[(e & E1 & ?)|(b' & E1 & _)]]%bind_inv.
  - by apply Hk in E2.
  - done.
  - by apply Hm in E1.
Qed.

Lemma never_returns_when (c : bool) (m : @Run F unit) :
  never_returns m → never_returns (when c m).
Proof. intros Hm. destruct c; [exact Hm|]. apply never_returns_ret. Qed.

#[export] Instance host_same_preorder : PreOrder (@host_same F).
Proof.
  split; [by intros s|].
  intros s1 s2 s3 [? ?] [? ?]. split; congruence.
Qed.

#[export] Instance sys_same_preorder : PreOrder (@sys_same F).
Proof.
  split; [by intros s|].
  intros s1 s2 s3 (?&?&?&?&?) (?&?&?&?&?). split_and!; congruence.
Qed.

#[export] Instance frame_kept_preorder : PreOrder (@frame_kept F).
Proof.
  split; [by intros s|].
  intros s1 s2 s3 (?&?&?&?) (?&?&?&?). split_and!; congruence.
Qed.

#[export] Instance onward_preorder : PreOrder (@onward F).
Proof.
  split.
  - intros s. split_and!; [done|done|lia|lia|lia|lia|].
    exists []. split; [by rewrite app_nil_r|]. by intros l ?%elem_of_nil.
  - intros s1 s2 s3 (?&?&?&?&?&?&new1&E1&V1) (?&?&?&?&?&?&new2&E2&V2).
    split_and!; [congruence|congruence|lia|lia|lia|lia|].
    exists (new1 ++ new2). split; [by rewrite E2, E1, <- (assoc_L (++))|].
    intros l [?|?]%elem_of_app; auto.
Qed.

Lemma sys_same_onward s s' : sys_same s s' → onward s s'.
Proof.
  intros (Ht & Hp & Hm & Ho & Hg). unfold onward. rewrite Ht, Hp, Hm, Ho, Hg.
  split_and!; [done|done|lia|lia|lia|lia|].
  exists []. split; [by rewrite app_nil_r|]. by intros l ?%elem_of_nil.
Qed.

Lemma host_same_frame_kept s s' : host_same s s' → frame_kept s s'.
Proof. intros [Hs _]. unfold frame_kept. by rewrite Hs. Qed.

End AlwaysFacts.

Create HintDb runs discriminated.

(** Take a computation apart along its statements. *)
Ltac run_step :=
  lazy zeta;
  first
    [ solve [auto with runs]
    | apply always_ret; apply _
    | apply always_raise; apply _
    | apply always_return; apply _
    | apply never_returns_ret
    | apply never_returns_raise
    | apply always_when; [apply _|]
    | apply never_returns_when
    | apply always_bind; [apply _| |intros ?]
    | apply never_returns_bind; [|intros ?]
    | match goal with
      | |- Laws.always _ (match ?x with _ => _ end) => destruct x
      | |- Laws.never_returns (match ?x with _ => _ end) => destruct x
      end ].
Ltac run_steps := repeat run_step.

Section PrimitiveFacts.
Import Job Laws.
Context {F : Type} `{HostFloat F}.
Context (w : world F) (cfg : config F) (r : rigs).
Implicit Types (s : job F).

Lemma time_time_host : always host_same (time_time w).
Proof. by intros s x s' [= <- <-]. Qed.
Lemma memory_probe_host : always host_same (memory_probe w).
Proof. by intros s x s' [= <- <-]. Qed.
Lemma get_monitor_host : always host_same (@get_monitor F).
Proof. by intros s x s' [= <- <-]. Qed.
Lemma set_monitor_host m : always host_same (@set_monitor F m).
Proof. by intros s x s' [= <- <-]. Qed.
Lemma print_host l : always host_same (@print F l).
Proof. by intros s x s' [= <- <-]. Qed.
Lemma gc_collect_host : always host_same (@gc_collect F).
Proof. by intros s x s' [= <- <-]. Qed.
Lemma get_scene_host : always host_same (@get_scene F).
Proof. by intros s x s' [= <- <-]. Qed.

Lemma get_scene_sys : always sys_same (@get_scene F).
Proof. by intros s x s' [= <- <-]. Qed.
Lemma set_scene_sys h : always sys_same (@set_scene F h).
Proof. by intros s x s' [= <- <-]. Qed.
Lemma get_keyframes_copied_sys : always sys_same (@get_keyframes_copied F).
Proof. by intros s x s' [= <- <-]. Qed.
Lemma set_keyframes_copied_sys n : always sys_same (@set_keyframes_copied F n).
Proof. by intros s x s' [= <- <-]. Qed.

Lemma time_time_onward : always onward (time_time w).
Proof.
  intros s x s' [= <- <-]. split_and!; simpl; [done|done|lia|lia|lia|lia|].
  exists []. split; [by rewrite app_nil_r|]. by intros l ?%elem_of_nil.
Qed.
Lemma memory_probe_onward : always onward (memory_probe w).
Proof.
  intros s x s' [= <- <-]. split_and!; simpl; [done|done|lia|lia|lia|lia|].
  exists []. split; [by rewrite app_nil_r|]. by intros l ?%elem_of_nil.
Qed.
Lemma get_monitor_onward : always onward (@get_monitor F).
Proof. intros s x s' [= <- <-]. done. Qed.
Lemma gc_collect_onward : always onward (@gc_collect F).
Proof.
  intros s x s' [= <- <-]. split_and!; simpl; [done|done|lia|lia|lia|lia|].
  exists []. split; [by rewrite app_nil_r|]. by intros l ?%elem_of_nil.
Qed.
Lemma print_onward l : ¬ verdict_line l → always onward (@print F l).
Proof.
  intros Hl s x s' [= <- <-]. split_and!; simpl; [done|done|lia|lia|lia|lia|].
  exists [l]. split; [done|]. by intros l' ->%list_elem_of_singleton.
Qed.

Lemma time_time_never : never_returns (time_time w).
Proof. by intros s b s'. Qed.
Lemma memory_probe_never : never_returns (memory_probe w).
Proof. by intros s b s'. Qed.
Lemma get_monitor_never : never_returns (@get_monitor F).
Proof. by intros s b s'. Qed.
Lemma set_monitor_never m : never_returns (@set_monitor F m).
Proof. by intros s b s'. Qed.
Lemma print_never l : never_returns (@print F l).
Proof. by intros s b s'. Qed.
Lemma gc_collect_never : never_returns (@gc_collect F).
Proof. by intros s b s'. Qed.
Lemma get_scene_never : never_returns (@get_scene F).
Proof. by intros s b s'. Qed.
Lemma set_scene_never h : never_returns (@set_scene F h).
Proof. by intros s b s'. Qed.
Lemma get_keyframes_copied_never : never_returns (@get_keyframes_copied F).
Proof. by intros s b s'. Qed.
Lemma set_keyframes_copied_never n : never_returns (@set_keyframes_copied F n).
Proof. by intros s b s'. Qed.

End PrimitiveFacts.

#[export] Hint Resolve time_time_host memory_probe_host get_monitor_host
  set_monitor_host print_host gc_collect_host get_scene_host
  get_scene_sys set_scene_sys get_keyframes_copied_sys set_keyframes_copied_sys
  time_time_onward memory_probe_onward get_monitor_onward gc_collect_onward
  time_time_never memory_probe_never get_monitor_never set_monitor_never
  print_never gc_collect_never get_scene_never set_scene_never
  get_keyframes_copied_never set_keyframes_copied_never : runs.
#[export] Hint Extern 1 (Laws.always Laws.onward (Job.print _)) =>
  apply print_onward; intros [?|?]; discriminate : runs.

Section MonitorLaws.
Import Job Laws.
Context {F : Type} `{HostFloat F}.
Context (w : world F) (cfg : config F) (r : rigs).
Implicit Types (s : job F).

Lemma check_timeout_host max_seconds : always host_same (check_timeout w max_seconds).
Proof. unfold check_timeout. run_steps. Qed.
Lemma check_memory_host max_mb : always host_same (check_memory w max_mb).
Proof. unfold check_memory. run_steps. Qed.
Lemma check_progress_host current_frame : always host_same (check_progress w current_frame).
Proof. unfold check_progress. run_steps. Qed.

Lemma check_timeout_never max_seconds : never_returns (check_timeout w max_seconds).
Proof. unfold check_timeout. run_steps. Qed.
Lemma check_memory_never max_mb : never_returns (check_memory w max_mb).
Proof. unfold check_memory. run_steps. Qed.
Lemma check_progress_never current_frame : never_returns (check_progress w current_frame).
Proof. unfold check_progress. run_steps. Qed.

Lemma check_timeout_onward max_seconds : always onward (check_timeout w max_seconds).
Proof. unfold check_timeout. run_steps. Qed.
Lemma check_memory_onward max_mb : always onward (check_memory w max_mb).
Proof. unfold check_memory. run_steps. Qed.

Lemma check_progress_onward current_frame : always onward (check_progress w current_frame).
Proof.
  intros s x s'. unfold check_progress.
  intros [(now & s1 & [= <- <-] & E)|[(e & [=] & _)|(b & [=] & _)]]%bind_inv.
  apply bind_inv in E as [(m & s2 & [= <- <-] & E)|[(e & [=] & _)|(b & [=] & _)]].
  assert (∀ (new : list line), (∀ l, l ∈ new → ¬ verdict_line l) →
    ∃ new', (stdout s ++ new = stdout s ++ new') ∧ ∀ l, l ∈ new' → ¬ verdict_line l)
    as Hout by eauto.
  destruct (Qgtb _ _).
  { injection E as <- <-. exact (time_time_onward w s (Val (clock w (ticks s))) _ eq_refl). }
  destruct current_frame as [frame|].
  2:{ injection E as <- <-. exact (time_time_onward w s (Val (clock w (ticks s))) _ eq_refl). }
  simpl in E. unfold mbind, M_bind in E. simpl in E.
  destruct (bool_decide _); simpl in E; injection E as <- <-;
    (split_and!; simpl; [done|done|lia|lia|lia|lia|]).
  - exists [ProcessedFrame frame (frame_count (monitor s) + 1)]. split; [done|].
    intros l ->%list_elem_of_singleton [?|?]; discriminate.
  - exists []. split; [by rewrite app_nil_r|]. by intros l ?%elem_of_nil.
Qed.

End MonitorLaws.

#[export] Hint Resolve check_timeout_host check_memory_host check_progress_host
  check_timeout_never check_memory_never check_progress_never
  check_timeout_onward check_memory_onward check_progress_onward : runs.

(** What leaves the bookkeeping alone moves it forward, and what leaves the
    scene alone keeps its frame range. *)
Ltac from_sys_same :=
  apply (always_mono Laws.sys_same); [exact sys_same_onward|solve [auto with runs]].
Ltac from_host_same :=
  apply (always_mono Laws.host_same); [exact host_same_frame_kept|solve [auto with runs]].
#[export] Hint Extern 5 (Laws.always Laws.onward _) => from_sys_same : runs.
#[export] Hint Extern 5 (Laws.always Laws.frame_kept _) => from_host_same : runs.

Section HostLaws.
Import Job Laws.
Context {F : Type} `{HostFloat F}.
Context (w : world F) (cfg : config F) (r : rigs).
Implicit Types (s : job F).

Lemma assign_target_sys name f : always sys_same (@assign_target F name f).
Proof. unfold assign_target. run_steps. Qed.
Lemma keyframe_insert_sys name p frame : always sys_same (@keyframe_insert F name p frame).
Proof. unfold keyframe_insert. run_steps. Qed.
Lemma frame_set_sys frame : always sys_same (@frame_set F frame).
Proof. unfold frame_set. run_steps. Qed.
Lemma set_scene_range_sys a b : always sys_same (@set_scene_range F a b).
Proof. unfold set_scene_range. run_steps. Qed.
Lemma set_action_frame_range_sys a b : always sys_same (@set_action_frame_range F a b).
Proof. unfold set_action_frame_range. run_steps. Qed.
Lemma mode_set_sys m : always sys_same (@mode_set F m).
Proof. unfold mode_set. run_steps. Qed.
Lemma remove_object_sys name : always sys_same (@remove_object F name).
Proof. unfold remove_object. run_steps. Qed.
Lemma source_bone_sys name : always sys_same (source_bone w r name).
Proof. unfold source_bone. run_steps. Qed.

Lemma assign_target_never name f : never_returns (@assign_target F name f).
Proof. unfold assign_target. run_steps. Qed.
Lemma keyframe_insert_never name p frame : never_returns (@keyframe_insert F name p frame).
Proof. unfold keyframe_insert. run_steps. Qed.
Lemma frame_set_never frame : never_returns (@frame_set F frame).
Proof. unfold frame_set. run_steps. Qed.
Lemma set_scene_range_never a b : never_returns (@set_scene_range F a b).
Proof. unfold set_scene_range. run_steps. Qed.
Lemma set_action_frame_range_never a b : never_returns (@set_action_frame_range F a b).
Proof. unfold set_action_frame_range. run_steps. Qed.
Lemma mode_set_never m : never_returns (@mode_set F m).
Proof. unfold mode_set. run_steps. Qed.
Lemma remove_object_never name : never_returns (@remove_object F name).
Proof. unfold remove_object. run_steps. Qed.
Lemma source_bone_never name : never_returns (source_bone w r name).
Proof. unfold source_bone. run_steps. Qed.

Lemma get_keyframes_copied_frame : always frame_kept (@get_keyframes_copied F).
Proof. by intros s x s' [= <- <-]. Qed.
Lemma set_keyframes_copied_frame n : always frame_kept (@set_keyframes_copied F n).
Proof. by intros s x s' [= <- <-]. Qed.
Lemma assign_target_frame name f : always frame_kept (@assign_target F name f).
Proof. by intros s x s' [= <- <-]. Qed.
Lemma keyframe_insert_frame name p frame : always frame_kept (@keyframe_insert F name p frame).
Proof.
  intros s x s'. unfold keyframe_insert, mbind, M_bind. simpl.
  destruct (find_bone _ _); by intros [= <- <-].
Qed.
Lemma frame_set_frame frame : always frame_kept (@frame_set F frame).
Proof. by intros s x s' [= <- <-]. Qed.
Lemma set_action_frame_range_frame a b : always frame_kept (@set_action_frame_range F a b).
Proof. by intros s x s' [= <- <-]. Qed.
Lemma source_bone_frame name : always frame_kept (source_bone w r name).
Proof. by intros s x s' [= <- <-]. Qed.

End HostLaws.

#[export] Hint Resolve assign_target_sys keyframe_insert_sys frame_set_sys
  set_scene_range_sys set_action_frame_range_sys mode_set_sys remove_object_sys
  source_bone_sys
  assign_target_never keyframe_insert_never frame_set_never set_scene_range_never
  set_action_frame_range_never mode_set_never remove_object_never source_bone_never
  get_keyframes_copied_frame set_keyframes_copied_frame assign_target_frame
  keyframe_insert_frame frame_set_frame set_action_frame_range_frame
  source_bone_frame : runs.

Section LoopLaws.
Import Job Laws.
Context {F : Type} `{HostFloat F}.
Context (w : world F) (cfg : config F) (r : rigs).
Implicit Types (s : job F).

Lemma transfer_bone_sys frame sn tn : always sys_same (transfer_bone w cfg r frame sn tn).
Proof. unfold transfer_bone. run_steps. Qed.
Lemma transfer_bone_never frame sn tn : never_returns (transfer_bone w cfg r frame sn tn).
Proof. unfold transfer_bone. run_steps. Qed.
Lemma transfer_bone_frame frame sn tn : always frame_kept (transfer_bone w cfg r frame sn tn).
Proof. unfold transfer_bone. run_steps. Qed.
#[local] Hint Resolve transfer_bone_sys transfer_bone_never transfer_bone_frame : runs.

Lemma bone_loop_onward frame pairs : ∀ bone_idx,
  always onward (bone_loop w cfg r frame bone_idx pairs).
Proof. induction pairs as [|[sn tn] pairs IH]; intros bone_idx; simpl; run_steps. Qed.
Lemma bone_loop_never frame pairs : ∀ bone_idx,
  never_returns (bone_loop w cfg r frame bone_idx pairs).
Proof. induction pairs as [|[sn tn] pairs IH]; intros bone_idx; simpl; run_steps. Qed.
Lemma bone_loop_frame frame pairs : ∀ bone_idx,
  always frame_kept (bone_loop w cfg r frame bone_idx pairs).
Proof. induction pairs as [|[sn tn] pairs IH]; intros bone_idx; simpl; run_steps. Qed.
#[local] Hint Resolve bone_loop_onward bone_loop_never bone_loop_frame : runs.

Lemma frame_loop_onward bone_mapping frame_count end_frame frames : ∀ frame_idx,
  always onward (frame_loop w cfg r bone_mapping frame_count end_frame frame_idx frames).
Proof. induction frames as [|frame frames IH]; intros frame_idx; simpl; run_steps. Qed.
Lemma frame_loop_never bone_mapping frame_count end_frame frames : ∀ frame_idx,
  never_returns (frame_loop w cfg r bone_mapping frame_count end_frame frame_idx frames).
Proof. induction frames as [|frame frames IH]; intros frame_idx; simpl; run_steps. Qed.
Lemma frame_loop_frame bone_mapping frame_count end_frame frames : ∀ frame_idx,
  always frame_kept (frame_loop w cfg r bone_mapping frame_count end_frame frame_idx frames).
Proof. induction frames as [|frame frames IH]; intros frame_idx; simpl; run_steps. Qed.
#[local] Hint Resolve frame_loop_onward frame_loop_never frame_loop_frame : runs.

Lemma copy_keyframes_onward bone_mapping a b :
  always onward (copy_keyframes w cfg r bone_mapping a b).
Proof. unfold copy_keyframes. run_steps. Qed.
Lemma copy_keyframes_never bone_mapping a b :
  never_returns (copy_keyframes w cfg r bone_mapping a b).
Proof. unfold copy_keyframes. run_steps. Qed.
Lemma copy_keyframes_frame bone_mapping a b :
  always frame_kept (copy_keyframes w cfg r bone_mapping a b).
Proof. unfold copy_keyframes. run_steps. Qed.

Lemma remove_imported_onward objs : always onward (@remove_imported F w objs).
Proof. induction objs as [|obj objs IH]; simpl; run_steps. Qed.
Lemma remove_imported_never objs : never_returns (@remove_imported F w objs).
Proof. induction objs as [|obj objs IH]; simpl; run_steps. Qed.

Lemma build_bone_mapping_host tn sn : ∀ acc,
  always host_same (@build_bone_mapping F w tn sn acc).
Proof. induction sn as [|n sn IH]; intros acc; simpl; run_steps. Qed.
Lemma build_bone_mapping_onward tn sn : ∀ acc,
  always onward (@build_bone_mapping F w tn sn acc).
Proof. induction sn as [|n sn IH]; intros acc; simpl; run_steps. Qed.
Lemma build_bone_mapping_never tn sn : ∀ acc,
  never_returns (@build_bone_mapping F w tn sn acc).
Proof. induction sn as [|n sn IH]; intros acc; simpl; run_steps. Qed.

Lemma resolve_frame_range_host : always host_same (@resolve_frame_range F r).
Proof. unfold resolve_frame_range. run_steps. Qed.
Lemma resolve_frame_range_onward : always onward (@resolve_frame_range F r).
Proof. unfold resolve_frame_range. run_steps. Qed.
Lemma resolve_frame_range_never : never_returns (@resolve_frame_range F r).
Proof. unfold resolve_frame_range. run_steps. Qed.

Lemma check_bone_counts_host sn tn : always host_same (check_bone_counts cfg sn tn).
Proof. unfold check_bone_counts. run_steps. Qed.
Lemma check_bone_counts_onward sn tn : always onward (check_bone_counts cfg sn tn).
Proof. unfold check_bone_counts. run_steps. Qed.
Lemma check_frame_count_host n : always host_same (check_frame_count cfg n).
Proof. unfold check_frame_count. run_steps. Qed.
Lemma check_frame_count_onward n : always onward (check_frame_count cfg n).
Proof. unfold check_frame_count. run_steps. Qed.

Lemma check_bone_counts_refusal sn tn : refusal (check_bone_counts cfg sn tn).
Proof.
  intros s b s'. unfold check_bone_counts, when, mbind, M_bind, print, return_. simpl.
  destruct (_ || _); [|done]. destruct (_ || _); [|done].
  intros [= <- <-]. split; [done|]. exists ErrorTooManyBones. simpl.
  split; [by rewrite last_snoc|by left].
Qed.

Lemma check_frame_count_refusal n : refusal (check_frame_count cfg n).
Proof.
  intros s b s'. unfold check_frame_count, when, mbind, M_bind, print, return_. simpl.
  destruct (bool_decide _); [|done]. destruct (bool_decide _); [|done].
  intros [= <- <-]. split; [done|]. exists ErrorFrameRangeTooLarge. simpl.
  split; [by rewrite last_snoc|by right].
Qed.

Lemma never_returns_refusal {A} (m : @Run F A) : never_returns m → refusal m.
Proof. intros Hm s b s' E. by apply Hm in E. Qed.

Lemma never_returns_refuses {A} (m : @Run F A) : never_returns m → refuses m.
Proof. intros Hm s b s' E. by apply Hm in E. Qed.

Lemma refuses_bind {A B} (m : @Run F A) (k : A → @Run F B) :
  always host_same m → refusal m → (∀ a, refuses (k a)) → refuses (m ≫= k).
Proof.
  intros Hm Hr Hk s b s' [(a & s1 & E1 & E2)|[(e & E1 & ?)|(b' & E1 & [= <-])]]%bind_inv.
  - apply Hm in E1. apply Hk in E2 as (? & ? & ?). split_and!; [done| |done].
    by etrans.
  - done.
  - destruct (Hr _ _ _ E1). split_and!; [done| |done]. exact (Hm _ _ _ E1).
Qed.

End LoopLaws.

#[export] Hint Resolve transfer_bone_sys transfer_bone_never transfer_bone_frame
  bone_loop_onward bone_loop_never bone_loop_frame
  frame_loop_onward frame_loop_never frame_loop_frame
  copy_keyframes_onward copy_keyframes_never copy_keyframes_frame
  remove_imported_onward remove_imported_never
  build_bone_mapping_host build_bone_mapping_onward build_bone_mapping_never
  resolve_frame_range_host resolve_frame_range_onward resolve_frame_range_never
  check_bone_counts_host check_bone_counts_onward
  check_frame_count_host check_frame_count_onward : runs.

(** ** How the job ends *)

Section VerdictFacts.
Import Job Laws.
Context {F : Type} `{HostFloat F}.
Context (w : world F) (cfg : config F) (r : rigs).
Implicit Types (s : job F).

Lemma announces_bind {A} (m : @Run F A) (k : A → @Run F bool) :
  always onward m → (∀ a, announces (k a)) → announces (m ≫= k).
Proof.
  intros Hm Hk s x s' [(a & s1 & E1 & E2)|[(e & E1 & ->)|(b & E1 & ->)]]%bind_inv.
  - apply Hm in E1. apply Hk in E2. destruct x as [b| |].
    + destruct E2 as (-> & s0 & ? & ? & ?). split; [done|]. exists s0.
      split_and!; [by etrans|done|done].
    + by etrans.
    + by etrans.
  - exact (Hm _ _ _ E1).
  - exact (Hm _ _ _ E1).
Qed.

Lemma announces_success : announces (print ResultSuccess;; mret true : @Run F bool).
Proof. intros s x s' [= <- <-]. split; [done|]. by exists s. Qed.

Lemma transfer_announces : announces (transfer w cfg r).
Proof.
  unfold transfer.
  repeat (lazy zeta; apply announces_bind; [solve [auto with runs]|intros ?]).
  apply announces_success.
Qed.

Lemma transfer_refuses : refuses (transfer w cfg r).
Proof.
  unfold transfer.
  repeat (lazy zeta; apply refuses_bind;
    [ solve [auto with runs]
    | first [ apply check_bone_counts_refusal | apply check_frame_count_refusal
            | apply never_returns_refusal; solve [auto with runs] ]
    | intros ? ]).
  apply never_returns_refuses. run_steps.
Qed.

Lemma onward_stdout s s' : onward s s' →
  ∃ new, stdout s' = stdout s ++ new ∧ (ResultSuccess ∉ new) ∧ (ResultFailed ∉ new).
Proof.
  intros (_&_&_&_&_&_&new&E&V). exists new. split; [done|].
  split; intros Hin%V; apply Hin; [by left|by right].
Qed.

(** X11. However the second half of [main] ends, it returns [True] exactly
    when it has printed the success line, which is then the last line of
    its output; the success and the failure line are never both printed;
    the failure line is printed exactly when a [RuntimeError] was raised;
    and the host is left in object mode. *)
Theorem job_returns_true_iff_it_prints_success s :
  ∃ new,
    stdout (main_from_mapping w cfg r s).2 = stdout s ++ new
    ∧ ((main_from_mapping w cfg r s).1 = true ↔ ResultSuccess ∈ new)
    ∧ ((main_from_mapping w cfg r s).1 = true → last new = Some ResultSuccess)
    ∧ (ResultFailed ∈ new ↔ ∃ e s1, transfer w cfg r s = (Raise e, s1))
    ∧ ¬ (ResultSuccess ∈ new ∧ ResultFailed ∈ new)
    ∧ mode (scene (main_from_mapping w cfg r s).2) = OBJECT.
Proof.
  unfold main_from_mapping.
  pose proof (transfer_announces s) as Hrun.
  destruct (transfer w cfg r s) as [[b|e|b] s1] eqn:E; specialize (Hrun _ _ eq_refl); simpl.
  - destruct Hrun as (-> & s0 & (new & E0 & S0 & F0)%onward_stdout & _ & E1).
    exists (new ++ [ResultSuccess]). rewrite E1, E0, <- (assoc_L (++)).
    rewrite last_snoc, !elem_of_app, !list_elem_of_singleton.
    split_and!; [done|split; [by right|done]|done| |by intros [_ [?|[=]]]|done].
    split; [by intros [?|[=]]|by intros (? & ? & [=])].
  - apply onward_stdout in Hrun as (new & E0 & S0 & F0).
    exists (new ++ [SafetyError e; ResultFailed]). rewrite E0.
    rewrite !elem_of_app, !elem_of_cons, !elem_of_nil.
    split_and!; [by rewrite <- !(assoc_L (++))| |done|split; [by eauto|by auto]| |done].
    + split; [done|]. by intros [?|[[=]|[[=]|?]]].
    + by intros [[?|[[=]|[[=]|?]]] _].
  - apply onward_stdout in Hrun as (new & E0 & S0 & F0).
    destruct (transfer_refuses _ _ _ E) as (-> & _).
    exists new. split_and!; [done| |done| |by intros [? _]|done].
    + split; [done|]. by intros ?.
    + split; [done|]. by intros (? & ? & [=]).
Qed.


End VerdictFacts.

(** ** The stages of a run that ends normally *)

(** Take the next statement off a run that ended normally. *)
Ltac unbind_run H s E :=
  let a := fresh "a" in apply bind_val_inv in H as (a & s & E & H).

Section StageFacts.
Import Job Laws.
Context {F : Type} `{HostFloat F}.
Context (w : world F) (cfg : config F) (r : rigs).
Implicit Types (s : job F).

Lemma always_val {A} R (m : @Run F A) s a s' : always R m → m s = (Val a, s') → R s s'.
Proof. intros Hm E. exact (Hm _ _ _ E). Qed.

(** The run up to the point where the scene is first written, the copy
    loop, the check that opens the cleanup, the removal of the imported
    objects, and the report. *)
Lemma transfer_stages s start_frame end_frame b s' :
  (resolve_frame_range r s).1 = Val (start_frame, end_frame) →
  transfer w cfg r s = (Val b, s') →
  let bone_mapping :=
    mapping_of (bone_names (target_pose_bones (scene s))) (source_bone_names r) [] in
  ∃ s1 s2 s3 s4,
    host_same s s1 ∧ onward s s1
    ∧ copy_keyframes w cfg r bone_mapping start_frame end_frame
        (print (ExtendedSceneRange start_frame end_frame)
           (set_scene_range start_frame end_frame s1).2).2 = (Val tt, s2)
    ∧ check_timeout w 300 (print CleaningUp s2).2 = (Val tt, s3)
    ∧ remove_imported w (imported_objects r) (mode_set OBJECT s3).2 = (Val tt, s4)
    ∧ host_same s4 s' ∧ monitor s' = monitor s4 ∧ ticks s' = S (ticks s4).
Proof.
  intros Hrange Hrun bone_mapping. unfold transfer in Hrun.
  unbind_run Hrun s1 E1. unbind_run Hrun s2 E2. unbind_run Hrun s3 E3.
  unbind_run Hrun s4 E4. unbind_run Hrun s5 E5. unbind_run Hrun s6 E6.
  unbind_run Hrun s7 E7. unbind_run Hrun s8 E8. unbind_run Hrun s9 E9.
  unbind_run Hrun s10 E10. unbind_run Hrun s11 E11. simpl in Hrun.
  unbind_run Hrun s12 E12. unbind_run Hrun s13 E13. unbind_run Hrun s14 E14.
  unbind_run Hrun s15 E15. unbind_run Hrun s16 E16. unbind_run Hrun s17 E17.
  unbind_run Hrun s18 E18. unbind_run Hrun s19 E19. unbind_run Hrun s20 E20.
  unbind_run Hrun s21 E21. unbind_run Hrun s22 E22. unbind_run Hrun s23 E23.
  unbind_run Hrun s24 E24. unbind_run Hrun s25 E25. unbind_run Hrun s26 E26.
  unbind_run Hrun s27 E27. unbind_run Hrun s28 E28.
  injection Hrun as <- <-.
  repeat match goal with u : unit |- _ => destruct u end.
  pose proof (build_bone_mapping_value _ _ _ _ _ _ _ E6) as ->.
  assert (host_same s s3 ∧ onward s s3) as [HS3 HO3].
  { split.
    - etrans; [eapply always_val, E1; auto with runs|].
      etrans; [eapply always_val, E2; auto with runs|].
      eapply always_val, E3; auto with runs.
    - etrans; [eapply always_val, E1; auto with runs|].
      etrans; [eapply always_val, E2; auto with runs|].
      eapply always_val, E3; auto with runs. }
  injection E4 as <- <-.
  assert (host_same s3 s10 ∧ onward s3 s10) as [HS10 HO10].
  { split.
    - etrans; [eapply always_val, E5; auto with runs|].
      etrans; [eapply always_val, E6; auto with runs|].
      etrans; [eapply always_val, E7; auto with runs|].
      etrans; [eapply always_val, E8; auto with runs|].
      etrans; [eapply always_val, E9; auto with runs|].
      eapply always_val, E10; auto with runs.
    - etrans; [eapply always_val, E5; auto with runs|].
      etrans; [eapply always_val, E6; auto with runs|].
      etrans; [eapply always_val, E7; auto with runs|].
      etrans; [eapply always_val, E8; auto with runs|].
      etrans; [eapply always_val, E9; auto with runs|].
      eapply always_val, E10; auto with runs. }
  assert (scene s10 = scene s) as S010 by (destruct HS3, HS10; congruence).
  rewrite (resolve_frame_range_scene r s s10 S010), Hrange in E11.
  injection E11 as <- <-. simpl in *.
  assert (host_same s10 s13 ∧ onward s10 s13) as [HS13 HO13].
  { split.
    - etrans; [eapply always_val, E12; auto with runs|].
      eapply always_val, E13; auto with runs.
    - etrans; [eapply always_val, E12; auto with runs|].
      eapply always_val, E13; auto with runs. }
  injection E14 as <- <-.
  assert (host_same s13 s15 ∧ onward s13 s15) as [HS15 HO15].
  { split; eapply always_val, E15; auto with runs. }
  injection E16 as <-. injection E17 as <-. injection E19 as <-. injection E21 as <-.
  assert (scene s3 = scene s) as S03 by (by destruct HS3). rewrite S03 in *.
  exists s15, s18, s20, s22. split_and!; [| |done|done|done| | |].
  - etrans; [exact HS3|]. etrans; [exact HS10|]. by etrans.
  - etrans; [exact HO3|]. etrans; [exact HO10|]. by etrans.
  - injection E23 as <-. injection E24 as <-. injection E25 as <- <-.
    injection E26 as <- <-. injection E27 as <-. by injection E28 as <-.
  - injection E23 as <-. injection E24 as <-. injection E25 as <- <-.
    injection E26 as <- <-. injection E27 as <-. by injection E28 as <-.
  - injection E23 as <-. injection E24 as <-. injection E25 as <- <-.
    injection E26 as <- <-. injection E27 as <-. by injection E28 as <-.
Qed.

End StageFacts.

(** ** What the copy loop leaves on the target rig *)

Section PoseFacts.
Import Job Laws.
Context {F : Type} `{HostFloat F}.
Context (w : world F) (cfg : config F) (r : rigs).
Implicit Types (s : job F) (bones : list (string * PoseBone F)).

Local Abbreviation pose_bones s := (target_pose_bones (scene s)).

Lemma find_bone_assign_ne x name f bones :
  x ≠ name → find_bone x (assign_bone name f bones) = find_bone x bones.
Proof.
  intros Hx. induction bones as [|[n b] bones IH]; simpl; [done|].
  case_bool_decide as Hn; simpl.
  - subst n. by rewrite !bool_decide_eq_false_2 by done.
  - by rewrite IH.
Qed.

Lemma find_bone_None name bones :
  find_bone name bones = None → name ∉ bone_names bones.
Proof.
  unfold bone_names. induction bones as [|[n b] bones IH]; simpl.
  - intros _ ?%elem_of_nil. done.
  - case_bool_decide; [done|]. intros Hf [->|Hin]%elem_of_cons; [done|].
    by apply IH.
Qed.

Lemma transfer_bone_pose frame sn tn s s' :
  transfer_bone w cfg r frame sn tn s = (Val tt, s') →
  frame_current (scene s') = frame_current (scene s)
  ∧ bone_names (pose_bones s') = bone_names (pose_bones s)
  ∧ (∀ x, x ≠ tn → find_bone x (pose_bones s') = find_bone x (pose_bones s))
  ∧ (sn ∈ source_bone_names r → tn ∈ bone_names (pose_bones s) →
     find_bone tn (pose_bones s') =
       Some (scaled_pose cfg (source_pose w sn (frame_current (scene s))))).
Proof.
  unfold transfer_bone, source_bone, assign_target, keyframe_insert,
    get_keyframes_copied, set_keyframes_copied, get_scene, set_scene,
    mbind, mret, M_bind, M_ret. simpl.
  destruct (find_bone tn (pose_bones s)) as [b|] eqn:Hb.
  2:{ intros [= <-]. split_and!; [done..|].
      intros _ Hin. by apply find_bone_None in Hb. }
  case_bool_decide as Hsn.
  2:{ intros [= <-]. by split_and!. }
  simpl. rewrite (find_bone_assign _ _ _ _ Hb). simpl.
  erewrite find_bone_assign by (by apply find_bone_assign). simpl.
  erewrite find_bone_assign by (by apply find_bone_assign, find_bone_assign). simpl.
  intros [= <-]. simpl. split_and!; [done|by rewrite !bone_names_assign| |].
  - intros x Hx. by rewrite !find_bone_assign_ne.
  - intros _ _.
    erewrite find_bone_assign by (by apply find_bone_assign, find_bone_assign). done.
Qed.

Lemma bone_loop_pose frame pairs : ∀ bone_idx s s',
  bone_loop w cfg r frame bone_idx pairs s = (Val tt, s') →
  frame_current (scene s) = frame →
  frame_current (scene s') = frame
  ∧ bone_names (pose_bones s') = bone_names (pose_bones s)
  ∧ (∀ x, x ∉ pairs.*2 → find_bone x (pose_bones s') = find_bone x (pose_bones s))
  ∧ (NoDup pairs.*2 → ∀ p, p ∈ pairs → mappable r s p →
     find_bone p.2 (pose_bones s') = Some (scaled_pose cfg (source_pose w p.1 frame))).
Proof.
  induction pairs as [|[sn tn] pairs IH]; intros bone_idx s s'; simpl.
  - intros [= <-] Hf. split_and!; [done..|]. by intros _ p ?%elem_of_nil.
  - intros ([] & s1 & E1 & ([] & s2 & E2 & E3)%bind_val_inv)%bind_val_inv Hf.
    assert (host_same s s1) as [S1 _].
    { eapply always_val, E1. apply always_when; [apply _|auto with runs]. }
    apply transfer_bone_pose in E2 as (F2 & N2 & O2 & P2). rewrite S1 in *.
    apply IH in E3 as (F3 & N3 & O3 & P3); [|congruence].
    split_and!; [done|congruence| |].
    + intros x [Hx Hxs]%not_elem_of_cons. by rewrite O3, O2.
    + intros [Htn Hnd]%NoDup_cons p [->|Hp]%elem_of_cons [Hp1 Hp2]; simpl in *.
      * rewrite O3 by done. rewrite P2 by done. by rewrite Hf.
      * apply P3; [done..|]. split; [done|]. by rewrite N2.
Qed.

Lemma frame_loop_pose bone_mapping frame_count end_frame frames : ∀ frame_idx s s',
  frame_loop w cfg r bone_mapping frame_count end_frame frame_idx frames s = (Val tt, s') →
  bone_names (pose_bones s') = bone_names (pose_bones s)
  ∧ (∀ x, x ∉ (PyDict.items bone_mapping).*2 →
       find_bone x (pose_bones s') = find_bone x (pose_bones s))
  ∧ (∀ frame, last frames = Some frame →
       NoDup (PyDict.items bone_mapping).*2 →
       ∀ p, p ∈ PyDict.items bone_mapping → mappable r s p →
         find_bone p.2 (pose_bones s') = Some (scaled_pose cfg (source_pose w p.1 frame))).
Proof.
  induction frames as [|frame frames IH]; intros frame_idx s s'; simpl.
  - intros [= <-]. by split_and!.
  - intros ([] & s1 & E1 & ([] & s2 & E2 & ([] & s3 & E3 & ([] & s4 & E4 &
      ([] & s5 & E5 & ([] & s6 & E6 & E7)%bind_val_inv)%bind_val_inv)%bind_val_inv
      )%bind_val_inv)%bind_val_inv)%bind_val_inv.
    assert (host_same s s3) as [S3 _].
    { etrans; [eapply always_val, E1; auto with runs|].
      etrans; [eapply always_val, E2; auto with runs|].
      eapply always_val, E3. apply always_when; [apply _|]. run_steps. }
    injection E4 as <-.
    apply bone_loop_pose in E5 as (F5 & N5 & O5 & P5); [|done].
    assert (host_same s5 s6) as [S6 _].
    { eapply always_val, E6. apply always_when; [apply _|auto with runs]. }
    pose proof (IH _ _ _ E7) as (N7 & O7 & P7). simpl in *. rewrite S6, S3 in *.
    split_and!; [congruence| |].
    + intros x Hx. by rewrite O7, O5.
    + intros fl Hlast Hnd p Hp [Hp1 Hp2]. destruct frames as [|frame' frames].
      * injection Hlast as <-. injection E7 as <-. rewrite S6. by apply P5.
      * apply P7; [done..|]. split; [done|]. by rewrite S6, N5.
Qed.

Lemma copy_keyframes_pose bone_mapping start_frame end_frame s s' :
  copy_keyframes w cfg r bone_mapping start_frame end_frame s = (Val tt, s') →
  bone_names (pose_bones s') = bone_names (pose_bones s)
  ∧ (∀ x, x ∉ (PyDict.items bone_mapping).*2 →
       find_bone x (pose_bones s') = find_bone x (pose_bones s))
  ∧ ((start_frame <= end_frame)%Z →
       NoDup (PyDict.items bone_mapping).*2 →
       ∀ p, p ∈ PyDict.items bone_mapping → mappable r s p →
         find_bone p.2 (pose_bones s') =
           Some (scaled_pose cfg (source_pose w p.1 end_frame))).
Proof.
  unfold copy_keyframes.
  intros ([] & s1 & E1 & ([] & s2 & E2 & ([] & s3 & E3 & (n & s4 & E4 &
    ([] & s5 & E5 & ([] & s6 & E6 & E7)%bind_val_inv)%bind_val_inv)%bind_val_inv
    )%bind_val_inv)%bind_val_inv)%bind_val_inv.
  injection E1 as <-. injection E2 as <-.
  apply frame_loop_pose in E3 as (N3 & O3 & P3).
  injection E4 as <- <-. injection E5 as <-. injection E6 as <-. injection E7 as <-.
  simpl in *. split_and!; [done..|].
  intros Hle. apply P3. rewrite last_lookup, py_range_length.
  replace (Nat.pred (Z.to_nat (end_frame + 1 - start_frame)))
    with (Z.to_nat (end_frame - start_frame)) by lia.
  rewrite py_range_lookup by lia. f_equal. lia.
Qed.

Lemma kept_pose_bones s s' : kept s s' → pose_bones s' = pose_bones s.
Proof. by intros (_ & _ & _ & ?). Qed.

Lemma mapping_targets tn sn :
  (PyDict.items (mapping_of tn sn [])).*2 = PyDict.keys (mapping_of tn sn []).
Proof.
  unfold PyDict.items, PyDict.keys.
  assert (∀ p, p ∈ mapping_of tn sn [] → p.2 = p.1) as Hid.
  { apply mapping_of_identity. by intros ? ?%elem_of_nil. }
  induction (mapping_of tn sn []) as [|p m IH]; simpl; [done|].
  rewrite (Hid p) by left. f_equal. apply IH. intros q Hq. apply Hid. by right.
Qed.


End PoseFacts.

(** ** The scene and the clock after a run that ends normally *)

Section CleanupFacts.
Import Job Laws.
Context {F : Type} `{HostFloat F}.
Context (w : world F) (cfg : config F) (r : rigs).
Implicit Types (s : job F).

Lemma resolve_frame_range_total s :
  ∃ start_frame end_frame, (resolve_frame_range r s).1 = Val (start_frame, end_frame).
Proof.
  unfold resolve_frame_range. destruct (source_frame_range r) as [[first last]|]; simpl; eauto.
Qed.

Lemma filter_all {A} (P : A → Prop) `{!∀ x, Decision (P x)} (l : list A) :
  (∀ x, P x) → filter P l = l.
Proof.
  intros HP. induction l as [|x l IH]; [done|].
  rewrite filter_cons. destruct (decide (P x)) as [?|Hx]; [by rewrite IH|].
  by destruct Hx.
Qed.

Lemma remove_imported_objects objs : ∀ s s',
  remove_imported w objs s = (Val tt, s') →
  frame_start (scene s') = frame_start (scene s)
  ∧ frame_end (scene s') = frame_end (scene s)
  ∧ mode (scene s') = mode (scene s)
  ∧ data_objects (scene s') = filter (λ n, n ∉ objs) (data_objects (scene s)).
Proof.
  induction objs as [|obj objs IH]; intros s s'; simpl.
  - intros [= <-]. split_and!; [done..|].
    symmetry. apply filter_all. intros n. apply not_elem_of_nil.
  - intros ([] & s1 & E1 & ([] & s2 & E2 & E3)%bind_val_inv)%bind_val_inv.
    assert (host_same s s1) as [S1 _] by (eapply always_val, E1; auto with runs).
    injection E2 as <-. apply IH in E3 as (-> & -> & -> & ->). simpl.
    rewrite S1. split_and!; [done..|].
    rewrite list_filter_filter. apply list_filter_iff. intros n.
    rewrite not_elem_of_cons. tauto.
Qed.

Lemma check_timeout_val max_seconds s s' :
  check_timeout w max_seconds s = (Val tt, s') →
  (clock w (ticks s) - start_time (monitor s) <= max_seconds)%Q
  ∧ ticks s' = S (ticks s) ∧ monitor s' = monitor s.
Proof.
  unfold check_timeout, time_time, get_monitor, mbind, M_bind. simpl.
  destruct (Qgtb _ _) eqn:Hq; [done|]. intros [= <-].
  by apply Qgtb_false_iff in Hq.
Qed.

Lemma remove_imported_clock objs : ∀ s s',
  remove_imported w objs s = (Val tt, s') →
  monitor s' = monitor s
  ∧ ticks s' = (ticks s + length objs)%nat
  ∧ ∀ i, (ticks s ≤ i < ticks s')%nat →
      (clock w i - start_time (monitor s) <= 300)%Q.
Proof.
  induction objs as [|obj objs IH]; intros s s'; simpl.
  - intros [= <-]. split_and!; [done|lia|]. intros i ?. lia.
  - intros ([] & s1 & E1 & ([] & s2 & E2 & E3)%bind_val_inv)%bind_val_inv.
    apply check_timeout_val in E1 as (C1 & T1 & M1).
    injection E2 as <-. apply IH in E3 as (M3 & T3 & C3). simpl in *.
    rewrite M1 in *. split_and!; [done|lia|].
    intros i Hi. destruct (decide (i = ticks s)) as [->|Hne]; [done|].
    apply C3. lia.
Qed.

(** X14. After a run that ends normally, the scene's frame range is the
    range that was transferred, the host is in object mode, and the objects
    in the file are those it had before, in their order, without the ones
    imported from the source file. *)
Theorem completed_run_leaves_the_scene_clean s start_frame end_frame b s' :
  (resolve_frame_range r s).1 = Val (start_frame, end_frame) →
  transfer w cfg r s = (Val b, s') →
  frame_start (scene s') = start_frame
  ∧ frame_end (scene s') = end_frame
  ∧ mode (scene s') = OBJECT
  ∧ data_objects (scene s') =
      filter (λ name, name ∉ imported_objects r) (data_objects (scene s)).
Proof.
  intros Hrange Hrun.
  destruct (transfer_stages w cfg r _ _ _ _ _ Hrange Hrun)
    as (s1 & s2 & s3 & s4 & [S1 _] & _ & E2 & E3 & E4 & [S5 _] & _).
  apply copy_keyframes_frame in E2 as (FS2 & FE2 & M2 & D2).
  assert (host_same (print CleaningUp s2).2 s3) as [S3 _]
    by (eapply always_val, E3; auto with runs).
  apply remove_imported_objects in E4 as (FS4 & FE4 & M4 & D4). simpl in *.
  rewrite S5, FS4, FE4, M4, D4, S3, FS2, FE2, D2, S1. done.
Qed.

(** X15. When the clock does not run backwards, a run that ends normally
    has read the clock within 300 seconds of the monitor's start every time
    but the last, which is the reading for the report: the copy loop allows
    600 seconds, but the cleanup checks against 300 again. *)
Theorem completed_run_stayed_within_300_seconds s b s' :
  (∀ i j, (i ≤ j)%nat → (clock w i <= clock w j)%Q) →
  transfer w cfg r s = (Val b, s') →
  ∀ i, (S i < ticks s')%nat → (clock w i - start_time (monitor s) <= 300)%Q.
Proof.
  intros Hclock Hrun.
  destruct (resolve_frame_range_total s) as (start_frame & end_frame & Hrange).
  destruct (transfer_stages w cfg r _ _ _ _ _ Hrange Hrun)
    as (s1 & s2 & s3 & s4 & _ & O1 & E2 & E3 & E4 & _ & _ & T5).
  apply copy_keyframes_onward in E2 as (ST2 & _ & T2 & _).
  destruct O1 as (ST1 & _ & T1 & _).
  apply check_timeout_val in E3 as (C3 & T3 & M3).
  apply remove_imported_clock in E4 as (M4 & T4 & C4). simpl in *.
  rewrite M3, ST2, ST1 in *.
  intros i Hi. destruct (decide (i ≤ ticks s2)%nat) as [Hle|Hgt].
  - specialize (Hclock _ _ Hle). lra.
  - apply C4. lia.
Qed.

End CleanupFacts.

(** ** The order of the bone mapping *)

Section MappingOrderFacts.
Import Job.
Context {F : Type} `{HostFloat F}.
Context (w : world F).

Lemma mapping_of_order tn sn : ∀ acc,
  NoDup sn → (∀ n, n ∈ sn → n ∉ PyDict.keys acc) →
  mapping_of tn sn acc = acc ++ ((λ n, (n, n)) <$> filter (λ n, n ∈ tn) sn).
Proof.
  induction sn as [|n sn IH]; intros acc Hnd Hacc; simpl.
  - by rewrite app_nil_r.
  - apply NoDup_cons in Hnd as [Hn Hnd]. rewrite filter_cons.
    case_bool_decide as Hin; destruct (decide (n ∈ tn)) as [?|?]; try done.
    + rewrite IH; [|done|].
      * rewrite setitem_fresh by (apply Hacc; by left).
        by rewrite <- (assoc_L (++)).
      * intros x Hx [->|Hk]%elem_of_keys_setitem; [done|].
        by apply (Hacc x); [right|].
    + apply IH; [done|]. intros x Hx. apply Hacc. by right.
Qed.

(** X16. When the source rig's bone names are distinct, the bone mapping
    holds each name that the target rig has too exactly once, mapped to
    itself, in the order of the source rig's bones. *)
Theorem bone_mapping_follows_the_source_order tn sn s bone_mapping s' :
  NoDup sn →
  build_bone_mapping w tn sn [] s = (Val bone_mapping, s') →
  PyDict.items bone_mapping = (λ n, (n, n)) <$> filter (λ n, n ∈ tn) sn.
Proof.
  intros Hnd ->%build_bone_mapping_value. unfold PyDict.items.
  rewrite mapping_of_order; [done|done|]. intros n _. apply not_elem_of_nil.
Qed.

End MappingOrderFacts.

(** ** The first half of the job *)

Section SetupFacts.
Import Job Setup.
Context {F : Type} `{HostFloat F}.
Context (w : world F) (cfg : config F) (b : blend).
Implicit Types (st : job F * list line) (obj target : object).

Lemma lift_inv {A} (m : @Job.Run F A) st x st' :
  lift m st = (x, st') → ∃ j, m st.1 = (x, j) ∧ st' = (j, st.2).
Proof. unfold lift. destruct (m st.1) as [x' j]. intros [= <- <-]. eauto. Qed.

Lemma find_target_Some objects target :
  find_target objects = Some target ↔
  ∃ before after, objects = before ++ target :: after
    ∧ is_armature target = true ∧ Forall (λ obj, is_armature obj = false) before.
Proof.
  induction objects as [|obj objects IH]; simpl.
  - split; [done|]. intros ([|??] & ? & ? & _); done.
  - destruct (is_armature obj) eqn:Hobj.
    + split.
      * intros [= <-]. by exists [], objects.
      * intros ([|first before] & after & [= -> ->] & Ht & Hb); [done|].
        apply Forall_cons in Hb as [Hb _]. congruence.
    + rewrite IH. split.
      * intros (before & after & -> & Ht & Hb). exists (obj :: before), after.
        split_and!; [done|done|by constructor].
      * intros ([|first before] & after & [= -> ->] & Ht & Hb); [congruence|].
        apply Forall_cons in Hb as [_ Hb]. eauto.
Qed.

Lemma find_target_None objects :
  find_target objects = None ↔ Forall (λ obj, is_armature obj = false) objects.
Proof.
  induction objects as [|obj objects IH]; simpl; [by split|].
  rewrite Forall_cons. destruct (is_armature obj); [|by rewrite IH; tauto].
  split; [done|by intros [[=] _]].
Qed.

(** The objects the loop links, and the last armature among them. *)
Lemma link_imported_val target (before : list string) objects :
  ∀ linked imported source st found st',
  link_imported w target objects linked imported source st = (Val found, st') →
  NoDup (name <$> objects) →
  name target ∈ before →
  (∀ n, n ∈ before → n ∈ linked) →
  (∀ obj, obj ∈ objects → name obj ∈ linked → name obj ∈ before) →
  let new := filter (λ obj, name obj ∉ before) objects in
  found.1.1 = linked ++ (name <$> new)
  ∧ found.1.2 = imported ++ new
  ∧ found.2 = from_option Some source (last (filter (λ obj, is_armature obj = true) new)).
Proof.
  induction objects as [|obj objects IH];
    intros linked imported source st found st'; simpl.
  - intros [= <- <-] _ _ _ _. by rewrite !app_nil_r.
  - intros (_ & st1 & _ & Hrun)%bind_val_inv [Hobj Hnd]%NoDup_cons Ht Hsub Hfresh.
    rewrite filter_cons. case_bool_decide as Hlinked.
    + assert (name obj ∉ before) as Hnew by (intros ?; by apply Hlinked, Hsub).
      destruct (decide (name obj ∉ before)) as [_|?]; [|done].
      assert (name obj ≠ name target) as Hne by (intros Heq; by rewrite Heq in Hnew).
      rewrite (bool_decide_eq_true_2 _ Hne), andb_true_r in Hrun.
      assert (∀ source' st2,
        link_imported w target objects (linked ++ [name obj]) (imported ++ [obj])
          source' st2 = (Val found, st') →
        found.1.1 = linked ++ (name <$> obj :: filter (λ obj, name obj ∉ before) objects)
        ∧ found.1.2 = imported ++ obj :: filter (λ obj, name obj ∉ before) objects
        ∧ found.2 = from_option Some source'
            (last (filter (λ obj, is_armature obj = true)
                     (filter (λ obj, name obj ∉ before) objects)))) as Hrest.
      { intros source' st2 Hrun'.
        apply IH in Hrun' as (-> & -> & ->); [|done|done| |].
        - by rewrite <- !(assoc_L (++)).
        - intros n Hn. apply elem_of_app. left. by apply Hsub.
        - intros obj' Hobj' [Hin|Heq%list_elem_of_singleton]%elem_of_app.
          + apply Hfresh; [by right|done].
          + destruct Hobj. rewrite <- Heq. by apply list_elem_of_fmap_2. }
      rewrite filter_cons. destruct (is_armature obj) eqn:Harm; simpl in Hrun.
      * apply bind_val_inv in Hrun as (_ & st3 & _ & Hrun).
        apply Hrest in Hrun as (-> & -> & ->). split_and!; [done|done|].
        destruct (decide (true = true)) as [_|?]; [|done].
        destruct (filter _ (filter _ objects)) as [|x l] eqn:Hf; [done|].
        rewrite last_cons_cons. destruct (last (x :: l)) eqn:Hl; [done|].
        by apply last_None in Hl.
      * apply Hrest in Hrun as (-> & -> & ->). split_and!; [done|done|].
        destruct (decide (false = true)) as [?|_]; done.
    + destruct (decide (name obj ∉ before)) as [Hnew|_].
      { destruct Hnew. apply Hfresh; [by left|done]. }
      apply IH in Hrun; [done..|]. intros obj' Hobj'. apply Hfresh. by right.
Qed.


Lemma filter_nil_Forall {A} (P : A → Prop) `{!∀ x, Decision (P x)} (l : list A) :
  filter P l = [] → Forall (λ x, ¬ P x) l.
Proof.
  induction l as [|x l IH]; [done|]. rewrite filter_cons.
  destruct (decide (P x)); [done|]. intros ?%IH. by constructor.
Qed.

Lemma last_filter_Some {A} (P : A → Prop) `{!∀ x, Decision (P x)} (l : list A) x :
  last (filter P l) = Some x →
  ∃ before after, l = before ++ x :: after ∧ P x ∧ Forall (λ x, ¬ P x) after.
Proof.
  induction l as [|y l IH]; [done|]. rewrite filter_cons.
  destruct (filter P l) as [|z k] eqn:Hf.
  - destruct (decide (P y)) as [Hy|_]; [|done]. intros [= <-].
    exists [], l. split_and!; [done|done|by apply (filter_nil_Forall _ _ Hf)].
  - assert (last (z :: k) = Some x → ∃ before after,
      y :: l = before ++ x :: after ∧ P x ∧ Forall (λ x, ¬ P x) after) as Hrest.
    { intros (before & after & -> & ? & ?)%IH. by exists (y :: before), after. }
    destruct (decide (P y)); [|done]. by rewrite last_cons_cons.
Qed.

Lemma lift_never {A} (m : @Job.Run F A) st x st' :
  lift m st = (Return x, st') → Laws.never_returns m → False.
Proof. intros (j & E & _)%lift_inv Hm. by apply Hm in E. Qed.

Lemma lift_host {A} (m : @Job.Run F A) st x st' :
  lift m st = (x, st') → Laws.always Laws.host_same m → scene st'.1 = scene st.1.
Proof. intros (j & E & ->)%lift_inv Hm. by apply Hm in E as [? _]. Qed.

Lemma update_progress_host : Laws.always Laws.host_same (update_progress w).
Proof. unfold update_progress. run_steps. Qed.

Lemma update_progress_never : Laws.never_returns (update_progress w).
Proof. unfold update_progress. run_steps. Qed.

Lemma link_imported_host target objects : ∀ linked imported source st x st',
  link_imported w target objects linked imported source st = (x, st') →
  scene st'.1 = scene st.1.
Proof.
  induction objects as [|obj objects IH]; intros linked imported source st x st'; simpl.
  - by intros [= <- <-].
  - intros [(? & st1 & E1 & Hrun)|[(e & E1 & _)|(x' & E1 & _)]]%bind_inv.
    2,3: by apply lift_host in E1; [|apply check_timeout_host].
    apply lift_host in E1; [|apply check_timeout_host]. rewrite <- E1.
    destruct (bool_decide _); [|by eapply IH].
    destruct (_ && _); [|by eapply IH].
    apply bind_inv in Hrun as [(? & st2 & [= <- <-] & Hrun)|[(e & [=] & _)|(x' & [=] & _)]].
    by apply IH in Hrun.
Qed.

Lemma link_imported_never target objects : ∀ linked imported source st x st',
  link_imported w target objects linked imported source st ≠ (Return x, st').
Proof.
  induction objects as [|obj objects IH]; intros linked imported source st x st'; simpl.
  - done.
  - intros [(? & st1 & E1 & Hrun)|[(e & E1 & [=])|(x' & E1 & _)]]%bind_inv.
    2: by apply lift_never in E1; [|apply check_timeout_never].
    destruct (bool_decide _); [|by eapply IH].
    destruct (_ && _); [|by eapply IH].
    apply bind_inv in Hrun as [(? & st2 & _ & Hrun)|[(e & _ & [=])|(x' & [=] & _)]].
    by apply IH in Hrun.
Qed.

(** What a normal end of the first half has chosen. *)
Lemma setup_val st c st' :
  NoDup (name <$> data_objects b) →
  setup w cfg b st = (Val c, st') →
  find_target (scene_objects b) = Some (target_armature c)
  ∧ imported_objects c =
      filter (λ obj, name obj ∉ name <$> scene_objects b) (data_objects b)
  ∧ last (filter (λ obj, is_armature obj = true) (imported_objects c))
      = Some (source_armature c)
  ∧ match animation_data (source_armature c) with
    | Some (Some own) => source_action c = own
    | _ => head (data_actions b) = Some (source_action c)
    end
  ∧ target_action_name c = action_name (source_action c) +:+ "_scaled"
  ∧ mode (scene st'.1) = POSE.
Proof.
  intros Hnd Hrun. unfold setup in Hrun.
  unbind_run Hrun st1 E1. unbind_run Hrun st2 E2.
  destruct (find_target (scene_objects b)) as [target|] eqn:Htarget; [|done].
  unbind_run Hrun st3 E3. unbind_run Hrun st4 E4. unbind_run Hrun st5 E5.
  unbind_run Hrun st6 E6. unbind_run Hrun st7 E7. unbind_run Hrun st8 E8.
  destruct a6 as [[linked imported] [source|]]; simpl in Hrun; [|done].
  unbind_run Hrun st9 E9. unbind_run Hrun st10 E10. unbind_run Hrun st11 E11.
  unbind_run Hrun st12 E12. unbind_run Hrun st13 E13. simpl in Hrun.
  unbind_run Hrun st14 E14. unbind_run Hrun st15 E15. unbind_run Hrun st16 E16.
  unbind_run Hrun st17 E17. injection Hrun as <- <-. simpl.
  apply find_target_Some in Htarget as Hfirst.
  destruct Hfirst as (before & after & Hscene & Harm & Hbefore).
  apply (link_imported_val _ (name <$> scene_objects b)) in E8
    as (_ & Himp & Hsrc); [|done| |done|done].
  2:{ rewrite Hscene, fmap_app. apply elem_of_app. right. by left. }
  simpl in Himp, Hsrc. subst imported.
  destruct (last (filter _ _)) as [source'|] eqn:Hlast; [|done].
  injection Hsrc as ->.
  split_and!; [done|done|done| |done|].
  - unfold resolve_action in E10.
    destruct (animation_data source') as [[own|]|].
    + by injection E10 as <-.
    + unbind_run E10 sa Ea. unbind_run E10 sb Eb.
      destruct (data_actions b) as [|first rest]; [done|].
      unbind_run E10 sz Ec. by injection E10 as <-.
    + unbind_run E10 sa Ea. unbind_run E10 sb Eb.
      destruct (data_actions b) as [|first rest]; [done|].
      unbind_run E10 sz Ec. by injection E10 as <-.
  - apply lift_inv in E17 as (j17 & E17 & ->). simpl.
    apply lift_inv in E16 as (j16 & E16 & ->). simpl in *.
    injection E16 as <- <-.
    assert (Laws.host_same (mode_set POSE st15.1).2 j17) as [-> _]; [|done].
    eapply always_val, E17. apply update_progress_host.
Qed.

(** X17. When the first half ends normally and the objects of the file
    have distinct names: the target is the first armature of the scene;
    the imported objects are all the objects of the file that were not in
    the scene, in the order of the file, whether they came with the source
    file or not; the source is the last armature among them; the action is
    the source's own if it has one and the first action of the file
    otherwise; and the host is in pose mode. *)
Theorem setup_chooses_the_rigs st c st' :
  NoDup (name <$> data_objects b) →
  setup w cfg b st = (Val c, st') →
  (∃ before after, scene_objects b = before ++ target_armature c :: after
     ∧ is_armature (target_armature c) = true
     ∧ Forall (λ obj, is_armature obj = false) before)
  ∧ imported_objects c =
      filter (λ obj, name obj ∉ name <$> scene_objects b) (data_objects b)
  ∧ (∃ before after, imported_objects c = before ++ source_armature c :: after
       ∧ is_armature (source_armature c) = true
       ∧ Forall (λ obj, is_armature obj ≠ true) after)
  ∧ match animation_data (source_armature c) with
    | Some (Some own) => source_action c = own
    | _ => head (data_actions b) = Some (source_action c)
    end
  ∧ target_action_name c = action_name (source_action c) +:+ "_scaled"
  ∧ mode (scene st'.1) = POSE.
Proof.
  intros Hnd Hrun.
  destruct (setup_val _ _ _ Hnd Hrun) as (Ht & Himp & Hs & Hact & Hname & Hmode).
  apply find_target_Some in Ht. apply last_filter_Some in Hs.
  by split_and!.
Qed.



Lemma kept_names (linked : list string) (objects sub : list object) :
  sub ⊆ objects →
  filter (λ n, n ∉ name <$> filter (λ obj, name obj ∉ linked) objects) (name <$> sub)
  = name <$> filter (λ obj, name obj ∈ linked) sub.
Proof.
  induction sub as [|obj sub IH]; intros Hsub; [done|].
  assert (obj ∈ objects) as Hobj by (apply Hsub; by left).
  assert (sub ⊆ objects) as Hsub' by (intros o Ho; apply Hsub; by right).
  rewrite fmap_cons, !filter_cons, IH by done.
  destruct (decide (name obj ∈ linked)) as [Hold|Hnew].
  - destruct (decide (name obj ∉ _)) as [_|Hin]; [done|]. destruct Hin.
    intros (obj' & Heq & [Hnew _]%list_elem_of_filter)%list_elem_of_fmap.
    by rewrite <- Heq in Hnew.
  - destruct (decide (name obj ∉ _)) as [Hout|_]; [|done]. destruct Hout.
    apply list_elem_of_fmap_2, list_elem_of_filter. done.
Qed.

(** X19. When both halves end normally, the objects left in the file are
    those that were in the scene before the job ran: every object that was
    in the file without being in the scene is removed at the end, whether
    it came with the source file or not. The state the second half starts
    in is taken to hold the objects the first half iterated over. *)
Theorem completed_job_keeps_only_the_scene_objects st c st1 x s' :
  NoDup (name <$> data_objects b) →
  setup w cfg b st = (Val c, st1) →
  Job.data_objects (scene st1.1) = name <$> data_objects b →
  transfer w cfg (rigs_of c) st1.1 = (Val x, s') →
  Job.data_objects (scene s') =
    name <$> filter (λ obj, name obj ∈ name <$> scene_objects b) (data_objects b).
Proof.
  intros Hnd Hsetup Hdata Hrun.
  destruct (setup_val _ _ _ Hnd Hsetup) as (_ & Himp & _).
  destruct (resolve_frame_range_total (rigs_of c) st1.1)
    as (start_frame & end_frame & Hrange).
  destruct (transfer_stages w cfg _ _ _ _ _ _ Hrange Hrun)
    as (s1 & s2 & s3 & s4 & [S1 _] & _ & E2 & E3 & E4 & [S5 _] & _).
  apply copy_keyframes_frame in E2 as (_ & _ & _ & D2).
  assert (Laws.host_same (Job.print CleaningUp s2).2 s3) as [S3 _]
    by (eapply always_val, E3; auto with runs).
  apply remove_imported_objects in E4 as (_ & _ & _ & D4). simpl in *.
  rewrite S5, D4, S3, D2, S1, Hdata, Himp. by apply kept_names.
Qed.

End SetupFacts.

(** ** The batch on disk *)

Section DiskFacts.
Import Supervisor Batch Laws.
Context {F : Type} (target_file : string) (args : Args F) (env_of : string → env).
Context (flag : bool).

Local Abbreviation output source_file := (create_output_filename source_file target_file).
Local Abbreviation step := (transfer_on_disk target_file args env_of).

Lemma transfer_on_disk_elsewhere (source_file : string) (files : gset string) path :
  path ≠ output source_file → path ≠ temp_script (env_of source_file) →
  path ∈ (step source_file files).2 ↔ path ∈ files.
Proof.
  intros Hout Htemp. unfold transfer_on_disk, process_single_transfer.
  destruct (copy_succeeds _); simpl; [|done].
  destruct (launch_succeeds _); simpl.
  - destruct (monitor_process _ _ _ _); simpl;
      try destruct (succeeded _ _); simpl;
      rewrite ?elem_of_difference, ?elem_of_union, ?elem_of_singleton; tauto.
  - rewrite ?elem_of_difference, ?elem_of_union, ?elem_of_singleton; tauto.
Qed.

Lemma transfer_on_disk_success (source_file : string) (files : gset string) :
  (step source_file files).1 = Returned true →
  temp_script (env_of source_file) ≠ output source_file →
  output source_file ∈ (step source_file files).2.
Proof.
  unfold transfer_on_disk, process_single_transfer.
  destruct (copy_succeeds _); simpl; [|done].
  destruct (launch_succeeds _); simpl; [|done].
  destruct (monitor_process _ _ _ _); simpl; try done.
  destruct (succeeded _ _); simpl; [|done]. intros _ Htemp.
  rewrite elem_of_difference, !elem_of_union, !elem_of_singleton. split; [tauto|done].
Qed.

Lemma elem_of_setitem_same {V} (d : PyDict.dict V) k v : (k, v) ∈ PyDict.setitem k v d.
Proof.
  induction d as [|[k' v'] d IH]; simpl; [by left|].
  case_bool_decide as Hk; [subst k'; by left|by right].
Qed.

(** The outputs of the files recorded as succeeded stay on disk while the
    rest of the batch runs, as long as no later file shares their output
    name or writes its script over them. *)
Lemma batch_keeps_outputs (rest : list string) : ∀ (earlier : list string) t files,
  NoDup (earlier ++ rest) →
  (∀ f g, f ∈ earlier ++ rest → g ∈ earlier ++ rest → f ≠ g → output f ≠ output g) →
  (∀ f g, f ∈ earlier ++ rest → g ∈ earlier ++ rest →
     temp_script (env_of g) ≠ output f) →
  (∀ k, k ∈ PyDict.keys (results t) → k ∈ earlier) →
  (∀ f, (f, true) ∈ PyDict.items (results t) → output f ∈ files) →
  ∀ f, (f, true) ∈ PyDict.items (results (batch_loop step flag rest t files).1) →
    output f ∈ (batch_loop step flag rest t files).2.
Proof.
  induction rest as [|g rest IH]; intros earlier t files Hnd Hout Htemp Hkeys Hinv;
    simpl; [done|].
  pose proof (transfer_on_disk_elsewhere g files) as Helse.
  pose proof (transfer_on_disk_success g files) as Hsucc.
  assert (g ∈ earlier ++ g :: rest) as Hg by (apply elem_of_app; right; by left).
  assert (∀ k, k ∈ earlier → k ≠ g) as Hfresh.
  { intros k Hk ->. apply NoDup_app in Hnd as (_ & Hdis & _).
    apply (Hdis g Hk). by left. }
  assert (∀ f, (f, true) ∈ PyDict.items (results t) →
               output f ∈ (step g files).2) as Hkept.
  { intros f Hf.
    assert (f ∈ earlier) as Hfe.
    { apply Hkeys. unfold PyDict.keys. by apply (list_elem_of_fmap_2 fst _ (f, true)). }
    apply Helse; [| |by apply Hinv].
    - apply Hout; [apply elem_of_app; by left|done|by apply Hfresh].
    - intros Heq. apply (Htemp f g); [apply elem_of_app; by left|done|done]. }
  assert (∀ res succ,
    (res = true → (step g files).1 = Returned true) →
    let t1 := mkTally (PyDict.setitem g res (results t)) succ (attempted t ++ [g]) in
    (∀ k, k ∈ PyDict.keys (results t1) → k ∈ earlier ++ [g])
    ∧ (∀ f, (f, true) ∈ PyDict.items (results t1) → output f ∈ (step g files).2))
    as Hnext.
  { intros res succ Hres t1. split.
    - intros k [->|Hk]%elem_of_keys_setitem; apply elem_of_app; [right; by left|left].
      by apply Hkeys.
    - intros f [[= -> <-]|Hf]%elem_of_setitem; [|by apply Hkept].
      apply Hsucc; [by apply Hres|]. by apply Htemp. }
  assert (∀ t1,
    (∀ k, k ∈ PyDict.keys (results t1) → k ∈ earlier ++ [g]) →
    (∀ f, (f, true) ∈ PyDict.items (results t1) → output f ∈ (step g files).2) →
    ∀ f, (f, true) ∈ PyDict.items
                       (results (batch_loop step flag rest t1 (step g files).2).1) →
      output f ∈ (batch_loop step flag rest t1 (step g files).2).2) as Hloop.
  { intros t1 Hk1 Hi1. apply (IH (earlier ++ [g])); [| | |done|done];
      by rewrite <- (assoc_L (++)). }
  destruct (step g files) as [[[]| |] files1] eqn:Hstep; simpl in *.
  - destruct (Hnext true (successful t + 1)%Z) as [? ?]; [done|]. by apply Hloop.
  - destruct (Hnext false (successful t)) as [? ?]; [done|].
    destruct flag; simpl; [by apply Hloop|done].
  - destruct (Hnext false (successful t)) as [? ?]; [done|].
    destruct flag; simpl; [by apply Hloop|done].
  - done.
Qed.

(** X23. When the source files are distinct, no two of them share an output
    file, and no temporary script is written over an output file, every
    file the batch records as succeeded has its output file on disk when
    the batch ends, whatever happened to the files after it. *)
Theorem successful_outputs_are_on_disk (source_files : list string) (files : gset string) :
  NoDup source_files →
  (∀ f g, f ∈ source_files → g ∈ source_files → f ≠ g → output f ≠ output g) →
  (∀ f g, f ∈ source_files → g ∈ source_files → temp_script (env_of g) ≠ output f) →
  ∀ f, (f, true) ∈ PyDict.items
                     (results (batch_loop step flag source_files (mkTally [] 0 []) files).1) →
    output f ∈ (batch_loop step flag source_files (mkTally [] 0 []) files).2.
Proof.
  intros Hnd Hout Htemp.
  apply (batch_keeps_outputs source_files []); [done|done|done| |].
  - intros k Hk. by apply elem_of_nil in Hk.
  - intros f Hf. by apply elem_of_nil in Hf.
Qed.

End DiskFacts.

(** ** The first half on a calm run *)

Section SetupCalm.
Import Job Setup.
Context {F : Type} `{HostFloat F}.
Context (w : world F) (cfg : config F) (b : blend).
Implicit Types (st : job F * list line) (obj target : object).

Lemma lift_val {A} (m : @Job.Run F A) st a s' :
  m st.1 = (Val a, s') → lift m st = (Val a, (s', st.2)).
Proof. intros Hm. unfold lift. by rewrite Hm. Qed.

Lemma update_progress_calm s :
  calm w cfg s → ∃ s', update_progress w s = (Val tt, s') ∧ calm w cfg s'.
Proof.
  intros (Hstart & Hlast & Hany & Hmem). eexists. split; [reflexivity|].
  split_and!; simpl; [done| |done|done]. intros i. apply Hany.
Qed.

Lemma link_imported_calm target objects : ∀ linked imported source st,
  calm w cfg st.1 →
  ∃ found st', link_imported w target objects linked imported source st = (Val found, st')
    ∧ calm w cfg st'.1.
Proof.
  induction objects as [|obj objects IH]; intros linked imported source st Hst; simpl.
  - by eexists _, _.
  - destruct (check_timeout_calm w cfg st.1 300 Hst) as (s1 & E1 & (Hs1 & _) & _);
      [done|].
    rewrite (bind_val _ _ _ _ _ (lift_val _ _ _ _ E1)); cbv beta.
    destruct (bool_decide _); [|by apply IH].
    destruct (_ && _); [|by apply IH].
    rewrite (bind_val (print (FoundSourceArmature (name obj))) _ (s1, st.2) tt
               (s1, st.2 ++ [FoundSourceArmature (name obj)]) eq_refl).
    by apply IH.
Qed.


End SetupCalm.

(** ** The laws above at concrete inputs *)

Section SupervisorCases.
Import Supervisor Scenario.

Lemma only_output_and_temp_script_change_witness :
  "/rigs/hero.blend" ∈
    (process_single_transfer "/anims/walk.blend" "/rigs/hero.blend" default_args
       (transfer_env (finished 1 "RESULT: FAILED")) {["/rigs/hero.blend"]}).2
  ↔ "/rigs/hero.blend" ∈@{gset string} {["/rigs/hero.blend"]}.
Proof.
  apply (only_output_and_temp_script_change "/anims/walk.blend" "/rigs/hero.blend"
           default_args (transfer_env (finished 1 "RESULT: FAILED"))).
  - apply (bool_decide_unpack (_ ≠ _)). by vm_compute.
  - apply (bool_decide_unpack (_ ≠ _)). by vm_compute.
Defined.

Lemma temp_script_is_removed_witness :
  "/tmp/tmpk3v9.py" ∉
    (process_single_transfer "/anims/walk.blend" "/rigs/hero.blend" default_args
       (transfer_env hung) {["/rigs/hero.blend"]}).2.
Proof.
  apply (temp_script_is_removed "/anims/walk.blend" "/rigs/hero.blend" default_args
           (transfer_env hung) {["/rigs/hero.blend"]}).
  reflexivity.
Defined.

Lemma success_keeps_output_file_witness :
  "/anims/walk_to_hero.blend" ∈
    (process_single_transfer "/anims/walk.blend" "/rigs/hero.blend" default_args
       (transfer_env (finished 0 "RESULT: SUCCESS")) {["/rigs/hero.blend"]}).2.
Proof.
  apply (success_keeps_output_file "/anims/walk.blend" "/rigs/hero.blend" default_args
           (transfer_env (finished 0 "RESULT: SUCCESS")) {["/rigs/hero.blend"]}).
  - by vm_compute.
  - apply (bool_decide_unpack (_ ≠ _)). by vm_compute.
Defined.

Lemma failed_exit_removes_output_file_witness :
  (process_single_transfer "/anims/walk.blend" "/rigs/hero.blend" default_args
     (transfer_env (finished 1 "RESULT: FAILED")) {["/rigs/hero.blend"]}).1
  = Returned false
  ∧ "/anims/walk_to_hero.blend" ∉
      (process_single_transfer "/anims/walk.blend" "/rigs/hero.blend" default_args
         (transfer_env (finished 1 "RESULT: FAILED")) {["/rigs/hero.blend"]}).2.
Proof.
  apply (failed_exit_removes_output_file "/anims/walk.blend" "/rigs/hero.blend"
           default_args (transfer_env (finished 1 "RESULT: FAILED"))
           {["/rigs/hero.blend"]}); by vm_compute.
Defined.


End SupervisorCases.

Section BatchCases.
Import Supervisor Batch Scenario.

Lemma continue_on_error_attempts_every_file_witness :
  attempted (batch_loop (batch_process (finished 1 "RESULT: FAILED")) true batch_sources
               (mkTally [] 0 []) ∅).1 = batch_sources.
Proof.
  destruct (continue_on_error_attempts_every_file
              (batch_process (finished 1 "RESULT: FAILED")) batch_sources ∅)
    as [Hall _]; [|exact Hall].
  intros f files Hf. unfold batch_sources in Hf.
  rewrite !elem_of_cons, elem_of_nil in Hf.
  destruct Hf as [->|[->|[->|[]]]]; discriminate.
Defined.

Lemma only_the_last_result_can_fail_witness :
  snd <$>
    PyDict.items
      (results (batch_loop (batch_process (finished 1 "RESULT: FAILED")) false
                  batch_sources (mkTally [] 0 []) ∅).1) !! 0%nat
  = Some true.
Proof.
  destruct (PyDict.items _ !! 0%nat) as [[f b]|] eqn:Hb; [|by vm_compute in Hb].
  simpl. f_equal.
  eapply (only_the_last_result_can_fail (batch_process (finished 1 "RESULT: FAILED"))
            batch_sources ∅); [|exact Hb|].
  - apply (bool_decide_unpack (NoDup _)). reflexivity.
  - vm_compute. lia.
Defined.

Lemma uninterrupted_batch_exit_status_witness :
  exit_status (batch_loop (batch_process (finished 0 "RESULT: SUCCESS")) false
                 batch_sources (mkTally [] 0 []) ∅).1 = 0%Z
  ∧ attempted (batch_loop (batch_process (finished 0 "RESULT: SUCCESS")) false
                 batch_sources (mkTally [] 0 []) ∅).1 = batch_sources.
Proof.
  destruct (uninterrupted_batch_exit_status
              (batch_process (finished 0 "RESULT: SUCCESS")) false batch_sources ∅)
    as [Hiff Hall].
  - apply (bool_decide_unpack (NoDup _)). reflexivity.
  - intros f files Hf. unfold batch_sources in Hf.
    rewrite !elem_of_cons, elem_of_nil in Hf.
    destruct Hf as [->|[->|[->|[]]]]; discriminate.
  - assert (exit_status (batch_loop (batch_process (finished 0 "RESULT: SUCCESS")) false
                           batch_sources (mkTally [] 0 []) ∅).1 = 0%Z) as Hzero
      by reflexivity.
    split; [exact Hzero|exact (Hall Hzero)].
Defined.

Lemma successful_outputs_are_on_disk_witness :
  "/anims/c_to_hero.blend" ∈
    (batch_loop
       (Laws.transfer_on_disk "/rigs/hero.blend" default_args
          (batch_env (finished 1 "RESULT: FAILED")))
       true batch_sources (mkTally [] 0 []) {["/rigs/hero.blend"]}).2.
Proof.
  apply (successful_outputs_are_on_disk "/rigs/hero.blend" default_args
           (batch_env (finished 1 "RESULT: FAILED")) true batch_sources
           {["/rigs/hero.blend"]}) with (f := "/anims/c.blend").
  - apply (bool_decide_unpack (NoDup _)). reflexivity.
  - intros f g Hf Hg. unfold batch_sources in Hf, Hg.
    rewrite !elem_of_cons, elem_of_nil in Hf, Hg.
    destruct Hf as [->|[->|[->|[]]]], Hg as [->|[->|[->|[]]]]; intros Hne;
      try done; apply (bool_decide_unpack (_ ≠ _)); by vm_compute.
  - intros f g Hf Hg. unfold batch_sources in Hf, Hg.
    rewrite !elem_of_cons, elem_of_nil in Hf, Hg.
    destruct Hf as [->|[->|[->|[]]]], Hg as [->|[->|[->|[]]]];
      apply (bool_decide_unpack (_ ≠ _)); by vm_compute.
  - apply (bool_decide_unpack (_ ∈ _)). by vm_compute.
Defined.

(** The condition on the output names is needed: of two files that differ
    in the case of the extension, the second, failing, removes the output of
    the first, which stays recorded as succeeded. *)
Example twin_sources_lose_an_output :
  let run :=
    batch_loop (Laws.transfer_on_disk "/rigs/hero.blend" default_args Studio.twin_env)
      true Studio.twin_sources (mkTally [] 0 []) {["/rigs/hero.blend"]} in
  results run.1 = [("/anims/a.blend", true); ("/anims/a.BLEND", false)]
  ∧ create_output_filename "/anims/a.blend" "/rigs/hero.blend" ∉ run.2.
Proof.
  split; [by vm_compute|]. apply (bool_decide_unpack (_ ∉ _)). by vm_compute.
Qed.

End BatchCases.

Section JobCases.
Import Job Scenario Studio.



Lemma completed_run_leaves_the_scene_clean_witness :
  frame_start (scene (transfer walk_world limits (walk_rigs 2 3) (entering 2)).2) = 1%Z
  ∧ frame_end (scene (transfer walk_world limits (walk_rigs 2 3) (entering 2)).2) = 3%Z
  ∧ mode (scene (transfer walk_world limits (walk_rigs 2 3) (entering 2)).2) = OBJECT
  ∧ data_objects (scene (transfer walk_world limits (walk_rigs 2 3) (entering 2)).2)
    = ["Armature"; "Body"].
Proof.
  destruct (completed_run_leaves_the_scene_clean walk_world limits (walk_rigs 2 3)
              (entering 2) 1 3 true
              (transfer walk_world limits (walk_rigs 2 3) (entering 2)).2)
    as (Hstart & Hend & Hmode & Hdata); [reflexivity|by vm_compute|].
  split_and!; [exact Hstart|exact Hend|exact Hmode|].
  rewrite Hdata. by vm_compute.
Defined.

Lemma completed_run_stayed_within_300_seconds_witness :
  (clock walk_world 9 - start_time (monitor (entering 2)) <= 300)%Q.
Proof.
  apply (completed_run_stayed_within_300_seconds walk_world limits (walk_rigs 2 3)
           (entering 2) true
           (transfer walk_world limits (walk_rigs 2 3) (entering 2)).2).
  - intros i j _. by vm_compute.
  - by vm_compute.
  - vm_compute. lia.
Defined.

Lemma bone_mapping_follows_the_source_order_witness :
  PyDict.items
    (mapping_of ["Hips"; "Spine"; "Helmet"] ["Root"; "Spine"; "Hips"] [])
  = [("Spine", "Spine"); ("Hips", "Hips")].
Proof.
  rewrite (bone_mapping_follows_the_source_order walk_world
             ["Hips"; "Spine"; "Helmet"] ["Root"; "Spine"; "Hips"] (entering 2)
             (mapping_of ["Hips"; "Spine"; "Helmet"] ["Root"; "Spine"; "Hips"] [])
             (build_bone_mapping walk_world ["Hips"; "Spine"; "Helmet"]
                ["Root"; "Spine"; "Hips"] [] (entering 2)).2).
  - by vm_compute.
  - apply (bool_decide_unpack (NoDup _)). by vm_compute.
  - by vm_compute.
Defined.

End JobCases.

Section SetupCases.
Import Job Setup Scenario Studio.

Lemma setup_chooses_the_rigs_witness :
  ∃ c st', setup walk_world limits studio arriving = (Val c, st')
    ∧ target_armature c = hero
    ∧ source_armature c = walker
    ∧ imported_objects c = [walker; walker_body; spare]
    ∧ source_action c = walk.
Proof.
  eexists _, _. split; [by vm_compute|].
  destruct (setup_chooses_the_rigs walk_world limits studio arriving
              (mkChosen hero walker [walker; walker_body; spare] walk "Walk_scaled")
              (setup walk_world limits studio arriving).2)
    as (_ & Himported & _ & Haction & _).
  - apply (bool_decide_unpack (NoDup _)). by vm_compute.
  - by vm_compute.
  - split_and!; [reflexivity|reflexivity|reflexivity|exact Haction].
Defined.


Lemma completed_job_keeps_only_the_scene_objects_witness :
  ∃ c st1 s',
    setup walk_world limits studio arriving = (Val c, st1)
    ∧ transfer walk_world limits (rigs_of c) st1.1 = (Val true, s')
    ∧ Job.data_objects (scene s') = ["Armature"; "Body"; "Camera"].
Proof.
  eexists _, _, _. split; [by vm_compute|]. split; [by vm_compute|].
  rewrite (completed_job_keeps_only_the_scene_objects walk_world limits studio arriving
             (mkChosen hero walker [walker; walker_body; spare] walk "Walk_scaled")
             (setup walk_world limits studio arriving).2 true
             (transfer walk_world limits
                (rigs_of (mkChosen hero walker [walker; walker_body; spare] walk
                            "Walk_scaled"))
                (setup walk_world limits studio arriving).2.1).2).
  - by vm_compute.
  - apply (bool_decide_unpack (NoDup _)). by vm_compute.
  - by vm_compute.
  - by vm_compute.
  - by vm_compute.
Defined.

Lemma arriving_calm : calm walk_world limits arriving.1.
Proof.
  split_and!.
  - intros i. by vm_compute.
  - intros i. by vm_compute.
  - intros i j. by vm_compute.
  - intros i bytes [= <-]. by vm_compute.
Defined.


End SetupCases.
